(** * MelGAN training script ([tensorflow_tts/bin/train_melgan.py])

    A shallow embedding of the training script: the sequence collater,
    the running-mean metrics, the generator / discriminator / evaluation
    steps of [MelganTrainer] and the interruption handler of [main].

    Conventions of the embedding.
    - Python exceptions are values of [exn]; a computation that can raise
      returns a [result].  Methods of the trainer mutate the trainer object
      and may raise after having mutated it, so they are functions
      [St -> result A * St]: the state component is the object as the
      exception (or the return) leaves it.
    - Shape arithmetic inside the collater is [tf.int32] arithmetic; it is
      written on [Z] with the two's complement wrap-around [int32].
    - Tensor entries are floating point numbers in the program.  The
      waveforms, the activations and the losses computed from them are
      embedded as exact rationals ([Qc], canonical fractions, so that [=]
      is equality of values).  The accumulators of the metrics are
      [tf.float32] numbers ([Float32]: IEEE 754 binary32 with rounding to
      nearest, ties to even); a loss enters a metric rounded to
      [tf.float32]. *)

From Stdlib Require Import ZArith QArith Qcanon Qcabs List String Lia Bool.
From Stdlib Require SpecFloat.
From stdpp Require Import gmap strings list fin_maps.

Local Open Scope Z_scope.

(** ** Python exceptions and results *)

Inductive io_op : Type :=
| Makedirs (steps : Z)
| Savefig (steps idx : Z)
| WriteWav (steps idx : Z) (is_ref : bool).

Inductive exn : Type :=
| UnboundLocalError (name : string)
| KeyError (key : string)
| IndexError
| ZeroDivisionError
| InvalidArgumentError (msg : string)
| OSError (op : io_op)
| KeyboardInterrupt.

Inductive result (A : Type) : Type :=
| Ok (a : A)
| Raise (e : exn).

Arguments Ok {A} a.
Arguments Raise {A} e.

#[export] Instance result_ret : MRet result := fun A a => Ok a.

#[export] Instance result_bind : MBind result := fun A B k r =>
  match r with
  | Ok a => k a
  | Raise e => Raise e
  end.

#[export] Instance result_fmap : FMap result := fun A B f r =>
  match r with
  | Ok a => Ok (f a)
  | Raise e => Raise e
  end.

(** Reading a local variable that an earlier statement may have bound. *)
Definition read_local {A} (name : string) (v : option A) : result A :=
  match v with
  | Some a => Ok a
  | None => Raise (UnboundLocalError name)
  end.

(** [l[i]] and [l[-1]]. *)
Definition getitem {A} (l : list A) (i : nat) : result A :=
  match l !! i with
  | Some x => Ok x
  | None => Raise IndexError
  end.

Definition last_item {A} (l : list A) : result A :=
  match last l with
  | Some x => Ok x
  | None => Raise IndexError
  end.

(** [for i in range(start, start + n): s = body(i, s)]. *)
Fixpoint for_range {T} (body : nat -> T -> result T) (start n : nat) (s : T)
  : result T :=
  match n with
  | O => Ok s
  | S n' => s' ← body start s; for_range body (S start) n' s'
  end.

(** Exact rational standing for the float literal [z.0]. *)
Definition qz (z : Z) : Qc := Q2Qc (inject_Z z).

(** ** Single-precision floating point ([tf.float32]) *)

Module Float32.

(** IEEE 754 binary32: 24 bits of precision, exponents below 128.  The
    operations are those of the Standard Library's specification of
    floating-point arithmetic, which round to nearest, ties to even. *)
Definition prec : Z := 24.
Definition emax : Z := 128.

Definition float32 : Type := SpecFloat.spec_float.

Definition zero : float32 := SpecFloat.S754_zero false.
Definition one : float32 := SpecFloat.S754_finite false 8388608 (-23).

Definition add (x y : float32) : float32 := SpecFloat.SFadd prec emax x y.
Definition div (x y : float32) : float32 := SpecFloat.SFdiv prec emax x y.

(** [tf.math.divide_no_nan]: zero where the divisor is zero. *)
Definition div_no_nan (x y : float32) : float32 :=
  match y with
  | SpecFloat.S754_zero _ => zero
  | _ => div x y
  end.

(** [x == y] on floats: the two zeros are equal, a NaN equals nothing. *)
Definition eqb (x y : float32) : bool := SpecFloat.SFeqb x y.

(** The members of [spec_float] that are binary32 numbers: a finite one
    has its mantissa and exponent in range and in canonical form. *)
Definition valid (x : float32) : bool := SpecFloat.valid_binary prec emax x.

Definition is_nan (x : float32) : bool :=
  match x with
  | SpecFloat.S754_nan => true
  | _ => false
  end.

(** The quotient [n / d] of two positive integers, rounded once. *)
Definition round_quotient (s : bool) (n d : positive) : float32 :=
  let '(m, e, l) :=
    SpecFloat.SFdiv_core_binary prec emax (Zpos n) 0 (Zpos d) 0 in
  SpecFloat.binary_round_aux prec emax s m e l.

(** The [tf.float32] nearest to a rational: what a float32 tensor holds
    for a value that the embedding computes exactly. *)
Definition of_Qc (q : Qc) : float32 :=
  match Qnum q with
  | 0 => zero
  | Zpos n => round_quotient false n (Qden q)
  | Zneg n => round_quotient true n (Qden q)
  end.

(** The rational a finite float32 stands for. *)
Definition value (x : float32) : option Qc :=
  match x with
  | SpecFloat.S754_zero _ => Some 0%Qc
  | SpecFloat.S754_finite s m e =>
      Some (Q2Qc ((if s then - (1) else 1) * inject_Z (Zpos m) * Qpower 2 e))
  | _ => None
  end.

End Float32.

(** ** The sequence collater (source lines 305-336) *)

Module Collater.

(** One mel frame: the [n_mels] features of one hop. *)
Definition Frame : Type := list Qc.

Definition int32_max : Z := 2 ^ 31 - 1.
Definition int32_min : Z := - 2 ^ 31.

(** Two's complement wrap-around of [tf.int32] arithmetic. *)
Definition int32 (z : Z) : Z := (z + 2 ^ 31) mod 2 ^ 32 - 2 ^ 31.

(** [len(t)] of a tensor, an [int32] scalar in the traced graph. *)
Definition len {A} (t : list A) : Z := int32 (Z.of_nat (length t)).

(** [a // b] on [int32] tensors: floor division; TensorFlow rejects a
    zero divisor. *)
Definition floordiv (a b : Z) : result Z :=
  if b =? 0 then Raise (InvalidArgumentError "Integer division by zero")
  else Ok (int32 (a / b)).

(** [tf.pad(t, [[0, after]])]: right padding with zeros along the first
    axis; negative paddings are rejected. *)
Definition tf_pad {A} (zero : A) (t : list A) (after : Z) : result (list A) :=
  if after <? 0
  then Raise (InvalidArgumentError "Paddings must be non-negative")
  else Ok (t ++ repeat zero (Z.to_nat after)).

(** Python slicing [t[start:stop]] along the first axis. *)
Definition clamp_index (n i : Z) : Z :=
  if i <? 0 then Z.max (i + n) 0 else Z.min i n.

Definition slice {A} (t : list A) (start stop : Z) : list A :=
  let n := Z.of_nat (length t) in
  let b := clamp_index n start in
  let e := clamp_index n stop in
  firstn (Z.to_nat (e - b)) (skipn (Z.to_nat b) t).

(** [tf.random.uniform(shape=[], minval, maxval, dtype=tf.int32)].  The
    generator is external: [u] is the raw non-negative integer it draws,
    reduced into [[minval, maxval)]; an empty range is rejected. *)
Definition random_uniform (u minval maxval : Z) : result Z :=
  if maxval <=? minval
  then Raise (InvalidArgumentError "Need minval < maxval")
  else Ok (minval + u mod (maxval - minval)).

(** Lines 315-316: the window length, derived from the waveform when the
    caller passes [None]. *)
Definition resolve_batch_max_steps {A} (audio : list A)
    (batch_max_steps : option Z) (hop_size : Z) : result Z :=
  match batch_max_steps with
  | None =>
      q ← floordiv (len audio) hop_size;
      Ok (int32 (q * hop_size))
  | Some b => Ok b
  end.

(** Lines 318-319: the waveform is padded up to [len(mel) * hop_size]. *)
Definition align (audio : list Qc) (mel : list Frame) (hop_size : Z)
  : result (list Qc) :=
  if len audio <? int32 (len mel * hop_size)
  then tf_pad 0%Qc audio (int32 (int32 (len mel * hop_size) - len audio))
  else Ok audio.

(** The start frame drawn at lines 323-328. *)
Definition start_frame_of (u : Z) (mel : list Frame) (batch_max_frames : Z)
  : result Z :=
  random_uniform u 0 (int32 (len mel - batch_max_frames)).

(** [collater(audio, mel, batch_max_steps, hop_size)].  [n_mels] is the
    static second dimension of [mel] (the width of a padding frame) and
    [u] the draw of the random generator. *)
Definition collater (u : Z) (n_mels : nat) (audio : list Qc) (mel : list Frame)
    (batch_max_steps : option Z) (hop_size : Z)
  : result (list Qc * list Frame) :=
  batch_max_steps ← resolve_batch_max_steps audio batch_max_steps hop_size;
  batch_max_frames ← floordiv batch_max_steps hop_size;
  audio ← align audio mel hop_size;
  if batch_max_frames <? len mel then
    start_frame ← start_frame_of u mel batch_max_frames;
    let start_step := int32 (start_frame * hop_size) in
    Ok (slice audio start_step (int32 (start_step + batch_max_steps)),
        slice mel start_frame (int32 (start_frame + batch_max_frames)))
  else
    audio ← tf_pad 0%Qc audio (int32 (batch_max_steps - len audio));
    mel ← tf_pad (repeat 0%Qc n_mels) mel
                  (int32 (batch_max_frames - len mel));
    Ok (audio, mel).

(** The aligned waveform as a total function, for the statements below. *)
Definition aligned (audio : list Qc) (mel : list Frame) (hop_size : Z) : list Qc :=
  audio ++ repeat 0%Qc (Z.to_nat (Z.of_nat (length mel) * hop_size
                                   - Z.of_nat (length audio))).

End Collater.

(** ** Running-mean metrics (source lines 60-95) *)

Module Metrics.

Import Float32.

(** [tf.keras.metrics.Mean(name, dtype=tf.float32)]: a running [total]
    and [count], both [tf.float32] variables that start at zero. *)
Record Mean : Type := { mean_name : string; total : float32; count : float32 }.

Definition new_mean (name : string) : Mean :=
  {| mean_name := name; total := zero; count := zero |}.

(** [update_state(v)] for a scalar [v]: [total += v] and [count += 1],
    in [tf.float32]. *)
Definition update_state (v : float32) (m : Mean) : Mean :=
  {| mean_name := mean_name m;
     total := add (total m) v;
     count := add (count m) one |}.

(** [result()]: [div_no_nan(total, count)]. *)
Definition mean_result (m : Mean) : float32 :=
  div_no_nan (total m) (count m).

Definition reset_states (m : Mean) : Mean := new_mean (mean_name m).

(** Lines 61-68. *)
Definition list_metrics_name : list string :=
  ["adversarial_loss"; "fm_loss"; "gen_loss";
   "real_loss"; "fake_loss"; "dis_loss"]%string.

(** [init_train_eval_metrics]: both dictionaries are rebuilt from the list
    of names, one [Mean] per name. *)
Definition init_train_eval_metrics (names : list string)
  : gmap string Mean * gmap string Mean :=
  foldl (fun '(train, eval) name =>
           (<[name := new_mean ("train_" ++ name)]> train,
            <[name := new_mean ("eval_" ++ name)]> eval))
        (∅, ∅) names.

(** [reset_states_train] / [reset_states_eval]: every metric of the
    dictionary is reset. *)
Definition reset_all (d : gmap string Mean) : gmap string Mean :=
  reset_states <$> d.

(** [d[key].update_state(v)]; [KeyError] on a name that is not registered. *)
Definition metric_update (key : string) (v : float32) (d : gmap string Mean)
  : result (gmap string Mean) :=
  match d !! key with
  | Some m => Ok (<[key := update_state v m]> d)
  | None => Raise (KeyError key)
  end.

(** [d[key].result()]. *)
Definition metric_result (key : string) (d : gmap string Mean)
  : result float32 :=
  match d !! key with
  | Some m => Ok (mean_result m)
  | None => Raise (KeyError key)
  end.

(** A sequence of [update_state] calls, each on a named metric. *)
Fixpoint metric_updates (us : list (string * float32)) (d : gmap string Mean)
  : result (gmap string Mean) :=
  match us with
  | [] => Ok d
  | (key, v) :: us' => d' ← metric_update key v d; metric_updates us' d'
  end.

(** The values passed to the metric [key] in a sequence of updates. *)
Definition values_of (key : string) (us : list (string * float32))
  : list float32 :=
  map snd (filter (fun kv => kv.1 = key) us).

(** The running mean of [tf.float32]: the values are summed from zero in
    the order given, each addition rounded; the count is a float32 sum
    of ones; the quotient is rounded once more. *)
Definition float32_sum (vs : list float32) : float32 := foldl add zero vs.

Definition float32_count (vs : list float32) : float32 :=
  foldl (fun c _ => add c one) zero vs.

Definition float32_mean (vs : list float32) : float32 :=
  div_no_nan (float32_sum vs) (float32_count vs).

Definition qsum (vs : list Qc) : Qc := foldr Qcplus 0%Qc vs.

Definition arithmetic_mean (vs : list Qc) : Qc :=
  (qsum vs / qz (Z.of_nat (length vs)))%Qc.

End Metrics.

(** ** Loss functions of [tensorflow_tts.losses] *)

Module Losses.

(** A tensor is embedded as the list of its entries. *)
Definition Tensor : Type := list Qc.

Definition reduce_mean (t : Tensor) : Qc :=
  (Metrics.qsum t / qz (Z.of_nat (length t)))%Qc.

Definition relu (x : Qc) : Qc := if decide (0 < x)%Qc then x else 0%Qc.

(** Modelled from the spec: [melgan_relu_error] of [tensorflow_tts.losses],
    whose source is not part of this file.  The spec gives
    [error(target, pred) = mean(relu(target - pred))]. *)
Definition melgan_relu_error (target : Qc) (pred : Tensor) : Qc :=
  reduce_mean (map (fun x => relu (target - x)%Qc) pred).

(** Modelled from the spec: [mae_error] of [tensorflow_tts.losses], whose
    source is not part of this file.  The spec calls it the mean absolute
    error between the two activations. *)
Definition mae_error (a b : Tensor) : Qc :=
  reduce_mean (zip_with (fun x y => Qcabs (x - y)%Qc) a b).

(** [c * t] and [-t] on tensors. *)
Definition tscale (c : Qc) (t : Tensor) : Tensor := map (Qcmult c) t.
Definition tneg (t : Tensor) : Tensor := map Qcopp t.

End Losses.

(** ** The trainer *)

Module Trainer.

Import Metrics Losses.

(** A batch of waveforms [[B, T]] (or [[B, T, 1]]: the entries are the
    same) and a batch of mel features [[B, T', n_mels]]. *)
Definition AudioBatch : Type := list Tensor.
Definition MelBatch : Type := list (list (list Qc)).
Definition Batch : Type := AudioBatch * MelBatch.

(** Output of the multi-scale discriminator: per scale, the list of the
    intermediate activations followed by the final decision. *)
Definition DisOut : Type := list (list Tensor).

(** [tf.expand_dims(y, 2)] adds a trailing axis of size one; the entries
    do not change. *)
Definition expand_dims (y : AudioBatch) : AudioBatch := y.

(** [np.clip(y, -1, 1)]. *)
Definition clip (lo hi : Qc) (t : Tensor) : Tensor :=
  map (fun x => if decide (x < lo)%Qc then lo
                else if decide (hi < x)%Qc then hi else x) t.

(** The entries of [self.config] the script reads, together with the
    trainer attributes that are fixed once training starts. *)
Record Config : Type := {
  downsample_scales : list Z;
  scales : Z;
  lambda_feat_match : Qc;
  train_max_steps : Z;
  log_interval_steps : Z;
  num_save_intermediate_results : Z;
  sampling_rate : Z;
  is_generator_mixed_precision : bool;
  is_discriminator_mixed_precision : bool;
  eval_data_loader : list Batch
}.

(** What TensorFlow provides to train the weights [W] of one network: the
    gradient of a computation recorded by a [tf.GradientTape] and the Keras
    optimizer (a [LossScaleOptimizer] under mixed precision). *)
Record Optimizer (W : Type) : Type := {
  opt_state : Type;
  grads : Type;
  tape_gradient : (W -> result Qc) -> W -> grads;
  apply_gradients : opt_state -> grads -> W -> opt_state * W;
  get_scaled_loss : opt_state -> Qc -> Qc;
  get_unscaled_gradients : opt_state -> grads -> grads
}.

Arguments opt_state {W} _.
Arguments grads {W} _.
Arguments tape_gradient {W} _ _ _.
Arguments apply_gradients {W} _ _ _ _.
Arguments get_scaled_loss {W} _ _ _.
Arguments get_unscaled_gradients {W} _ _ _.

(** Files written by the intermediate-result export. *)
Inductive artifact : Type :=
| Dir (steps : Z)
| Figure (steps idx : Z) (y y_ : Tensor)
| Wav (steps idx : Z) (is_ref : bool) (data : Tensor) (rate : Z).

(** The collaborators of the trainer: the two networks, their optimizers,
    and the file system, whose operations may fail. *)
Record Backend : Type := {
  GW : Type;
  DW : Type;
  generator : GW -> MelBatch -> AudioBatch;
  discriminator : DW -> AudioBatch -> DisOut;
  gen_optimizer : Optimizer GW;
  dis_optimizer : Optimizer DW;
  io_fails : io_op -> list artifact -> bool
}.

Inductive log_entry : Type :=
| LogStartEval (steps : Z)
| LogFinishedEval (steps eval_steps_per_epoch : Z)
| LogMetrics (stage : string) (steps : Z)
    (values : gmap string Float32.float32)
| LogSavedCheckpoint (steps : Z).

Section WithBackend.

Context (B : Backend).

Record Nets : Type := {
  gen_w : GW B;
  dis_w : DW B;
  gen_opt : opt_state (gen_optimizer B);
  dis_opt : opt_state (dis_optimizer B)
}.

(** Modelled from the spec: the checkpoint written by the checkpoint
    manager of the base trainer, whose source is not part of this file.
    The spec describes it as a snapshot of the weights, the optimizer
    states and the two counters. *)
Record Checkpoint : Type := {
  ckpt_nets : Nets;
  ckpt_steps : Z;
  ckpt_epochs : Z
}.

(** What the trainer leaves outside itself. *)
Record World : Type := {
  log : list log_entry;
  summary : list (string * Z * gmap string Float32.float32);
  files : list artifact;
  checkpoints : list Checkpoint
}.

(** The trainer object. *)
Record St : Type := {
  steps : Z;
  epochs : Z;
  finish_train : bool;
  tqdm_n : Z;
  nets : Nets;
  train_metrics : gmap string Mean;
  eval_metrics : gmap string Mean;
  world : World
}.

Definition set_steps (v : Z) (st : St) : St :=
  {| steps := v; epochs := epochs st; finish_train := finish_train st;
     tqdm_n := tqdm_n st; nets := nets st;
     train_metrics := train_metrics st; eval_metrics := eval_metrics st;
     world := world st |}.

Definition set_finish_train (v : bool) (st : St) : St :=
  {| steps := steps st; epochs := epochs st; finish_train := v;
     tqdm_n := tqdm_n st; nets := nets st;
     train_metrics := train_metrics st; eval_metrics := eval_metrics st;
     world := world st |}.

Definition set_tqdm_n (v : Z) (st : St) : St :=
  {| steps := steps st; epochs := epochs st; finish_train := finish_train st;
     tqdm_n := v; nets := nets st;
     train_metrics := train_metrics st; eval_metrics := eval_metrics st;
     world := world st |}.

Definition set_nets (v : Nets) (st : St) : St :=
  {| steps := steps st; epochs := epochs st; finish_train := finish_train st;
     tqdm_n := tqdm_n st; nets := v;
     train_metrics := train_metrics st; eval_metrics := eval_metrics st;
     world := world st |}.

Definition set_train_metrics (v : gmap string Mean) (st : St) : St :=
  {| steps := steps st; epochs := epochs st; finish_train := finish_train st;
     tqdm_n := tqdm_n st; nets := nets st;
     train_metrics := v; eval_metrics := eval_metrics st;
     world := world st |}.

Definition set_eval_metrics (v : gmap string Mean) (st : St) : St :=
  {| steps := steps st; epochs := epochs st; finish_train := finish_train st;
     tqdm_n := tqdm_n st; nets := nets st;
     train_metrics := train_metrics st; eval_metrics := v;
     world := world st |}.

Definition set_world (v : World) (st : St) : St :=
  {| steps := steps st; epochs := epochs st; finish_train := finish_train st;
     tqdm_n := tqdm_n st; nets := nets st;
     train_metrics := train_metrics st; eval_metrics := eval_metrics st;
     world := v |}.

(** *** Computations on the trainer: state and exceptions *)

Definition M (A : Type) : Type := St -> result A * St.

#[export] Instance M_ret : MRet M := fun A a st => (Ok a, st).

#[export] Instance M_bind : MBind M := fun A B k m st =>
  match m st with
  | (Ok a, st') => k a st'
  | (Raise e, st') => (Raise e, st')
  end.

Definition get : M St := fun st => (Ok st, st).
Definition modify (f : St -> St) : M unit := fun st => (Ok tt, f st).
Definition lift {A} (r : result A) : M A := fun st => (r, st).

Context (cfg : Config).

Definition log_info (e : log_entry) : M unit :=
  modify (fun st =>
    set_world {| log := log (world st) ++ [e];
                 summary := summary (world st);
                 files := files (world st);
                 checkpoints := checkpoints (world st) |} st).

(** [self.train_metrics[key].update_state(v)]: the loss [v] is a
    [tf.float32] scalar when it reaches the metric. *)
Definition update_train_metric (key : string) (v : Qc) : M unit :=
  st ← get;
  d ← lift (metric_update key (Float32.of_Qc v) (train_metrics st));
  modify (set_train_metrics d).

Definition update_eval_metric (key : string) (v : Qc) : M unit :=
  st ← get;
  d ← lift (metric_update key (Float32.of_Qc v) (eval_metrics st));
  modify (set_eval_metrics d).

(** Lines 87-95. *)
Definition reset_states_train : M unit :=
  modify (fun st => set_train_metrics (reset_all (train_metrics st)) st).

Definition reset_states_eval : M unit :=
  modify (fun st => set_eval_metrics (reset_all (eval_metrics st)) st).

(** Modelled from the spec: [_write_to_tensorboard] of the base trainer,
    whose source is not part of this file.  The spec describes the summary
    sink as append-only: it receives the current value of every metric,
    the step and the phase. *)
Definition _write_to_tensorboard (metrics : St -> gmap string Mean)
    (stage : string) : M unit :=
  modify (fun st =>
    set_world {| log := log (world st);
                 summary := summary (world st)
                            ++ [(stage, steps st, mean_result <$> metrics st)];
                 files := files (world st);
                 checkpoints := checkpoints (world st) |} st).

(** *** Losses of the generator (lines 116-130 and 212-226) *)

(** Lines 116-118. *)
Definition adversarial_loss (p_hat : DisOut) : result Qc :=
  for_range (fun i adv_loss =>
               s ← getitem p_hat i;
               d ← last_item s;
               Ok (adv_loss + melgan_relu_error 0 (tscale 1 d))%Qc)
            0 (length p_hat) 0%Qc.

(** Lines 122-124. *)
Definition feature_matching_weight : result Qc :=
  let feat_weights :=
    (qz 4 / qz (Z.of_nat (length (downsample_scales cfg)) + 1))%Qc in
  p_weights ← (if scales cfg =? 0 then Raise ZeroDivisionError
               else Ok (1 / qz (scales cfg))%Qc);
  Ok (p_weights * feat_weights)%Qc.

(** Lines 126-128. *)
Definition feature_matching_loss (wt : Qc) (p_hat p : DisOut) : result Qc :=
  for_range (fun i fm_loss =>
               s_hat ← getitem p_hat i;
               for_range (fun j fm_loss =>
                            a ← getitem s_hat j;
                            s ← getitem p i;
                            b ← getitem s j;
                            Ok (fm_loss + wt * mae_error a b)%Qc)
                         0 (length s_hat - 1) fm_loss)
            0 (length p_hat) 0%Qc.

(** The three losses [(adv_loss, fm_loss, gen_loss)]. *)
Definition generator_losses (p_hat p : DisOut) : result (Qc * Qc * Qc) :=
  adv_loss ← adversarial_loss p_hat;
  wt ← feature_matching_weight;
  fm_loss ← feature_matching_loss wt p_hat p;
  let gen_loss := (adv_loss + lambda_feat_match cfg * fm_loss)%Qc in
  Ok (adv_loss, fm_loss, gen_loss).

(** *** Losses of the discriminator (lines 155-161 and 230-236) *)

(** The loop of lines 157-159 (and 232-234): [(real_loss, fake_loss)]. *)
Definition real_fake_losses (p p_hat : DisOut) : result (Qc * Qc) :=
  for_range (fun i '(real_loss, fake_loss) =>
               s ← getitem p i;
               d ← last_item s;
               s_hat ← getitem p_hat i;
               d_hat ← last_item s_hat;
               Ok ((real_loss + melgan_relu_error 1 d)%Qc,
                   (fake_loss + melgan_relu_error 1 (tneg d_hat))%Qc))
            0 (length p) (0%Qc, 0%Qc).

(** The three losses [(real_loss, fake_loss, dis_loss)]. *)
Definition discriminator_losses (p p_hat : DisOut) : result (Qc * Qc * Qc) :=
  '(real_loss, fake_loss) ← real_fake_losses p p_hat;
  let dis_loss := (real_loss + fake_loss)%Qc in
  Ok (real_loss, fake_loss, dis_loss).

(** *** One generator step (lines 108-146) *)

(** The computation recorded by [g_tape], as a function of the generator
    weights: the forward passes and the three losses. *)
Definition generator_forward (dw : DW B) (y : AudioBatch) (mels : MelBatch)
    (gw : GW B) : result (AudioBatch * (Qc * Qc * Qc)) :=
  let y_hat := generator B gw mels in
  let p_hat := discriminator B dw y_hat in
  let p := discriminator B dw (expand_dims y) in
  l ← generator_losses p_hat p;
  Ok (y_hat, l).

Definition _one_step_generator (y : AudioBatch) (mels : MelBatch)
  : M (AudioBatch * AudioBatch) :=
  st ← get;
  let n := nets st in
  let opt := gen_optimizer B in
  let traced := generator_forward (dis_w n) y mels in
  '(y_hat, (adv_loss, fm_loss, gen_loss)) ← lift (traced (gen_w n));
  let gen_loss_of := fun gw => (fun r => r.2.2) <$> traced gw in
  let scaled_gen_loss :=
    if is_generator_mixed_precision cfg
    then Some (fun gw => get_scaled_loss opt (gen_opt n) <$> gen_loss_of gw)
    else None in
  gradients ← lift (
    if is_generator_mixed_precision cfg then
      l ← read_local "scaled_gen_loss" scaled_gen_loss;
      let scaled_gradients := tape_gradient opt l (gen_w n) in
      Ok (get_unscaled_gradients opt (gen_opt n) scaled_gradients)
    else
      Ok (tape_gradient opt gen_loss_of (gen_w n)));
  let '(o', w') := apply_gradients opt (gen_opt n) gradients (gen_w n) in
  modify (set_nets {| gen_w := w'; dis_w := dis_w n;
                      gen_opt := o'; dis_opt := dis_opt n |});;
  update_train_metric "adversarial_loss" adv_loss;;
  update_train_metric "fm_loss" fm_loss;;
  update_train_metric "gen_loss" gen_loss;;
  mret (y, y_hat).

(** *** One discriminator step (lines 148-176) *)

(** The computation recorded by [d_tape], as a function of the
    discriminator weights. *)
Definition discriminator_forward (y y_hat : AudioBatch) (dw : DW B)
  : result (Qc * Qc * Qc) :=
  let y := expand_dims y in
  let p := discriminator B dw y in
  let p_hat := discriminator B dw y_hat in
  discriminator_losses p p_hat.

Definition _one_step_discriminator (y y_hat : AudioBatch) : M unit :=
  st ← get;
  let n := nets st in
  let opt := dis_optimizer B in
  let traced := discriminator_forward y y_hat in
  '(real_loss, fake_loss, dis_loss) ← lift (traced (dis_w n));
  let dis_loss_of := fun dw => (fun r => r.2) <$> traced dw in
  let scaled_dis_loss :=
    if is_discriminator_mixed_precision cfg
    then Some (fun dw => get_scaled_loss opt (dis_opt n) <$> dis_loss_of dw)
    else None in
  gradients ← lift (
    if is_discriminator_mixed_precision cfg then
      l ← read_local "scaled_dis_loss" scaled_dis_loss;
      let scaled_gradients := tape_gradient opt l (dis_w n) in
      Ok (get_unscaled_gradients opt (dis_opt n) scaled_gradients)
    else
      l ← read_local "scaled_dis_loss" scaled_dis_loss;
      Ok (tape_gradient opt l (dis_w n)));
  let '(o', w') := apply_gradients opt (dis_opt n) gradients (dis_w n) in
  modify (set_nets {| gen_w := gen_w n; dis_w := w';
                      gen_opt := gen_opt n; dis_opt := o' |});;
  update_train_metric "real_loss" real_loss;;
  update_train_metric "fake_loss" fake_loss;;
  update_train_metric "dis_loss" dis_loss.

(** The discriminator step as the specification has it: without mixed
    precision the unscaled [dis_loss] is differentiated.  It differs from
    [_one_step_discriminator] only in the name read at line 170. *)
Definition _one_step_discriminator_spec (y y_hat : AudioBatch) : M unit :=
  st ← get;
  let n := nets st in
  let opt := dis_optimizer B in
  let traced := discriminator_forward y y_hat in
  '(real_loss, fake_loss, dis_loss) ← lift (traced (dis_w n));
  let dis_loss_of := fun dw => (fun r => r.2) <$> traced dw in
  let gradients :=
    if is_discriminator_mixed_precision cfg then
      get_unscaled_gradients opt (dis_opt n)
        (tape_gradient opt
           (fun dw => get_scaled_loss opt (dis_opt n) <$> dis_loss_of dw)
           (dis_w n))
    else tape_gradient opt dis_loss_of (dis_w n) in
  let '(o', w') := apply_gradients opt (dis_opt n) gradients (dis_w n) in
  modify (set_nets {| gen_w := gen_w n; dis_w := w';
                      gen_opt := gen_opt n; dis_opt := o' |});;
  update_train_metric "real_loss" real_loss;;
  update_train_metric "fake_loss" fake_loss;;
  update_train_metric "dis_loss" dis_loss.

(** *** One training step (lines 97-106 and 299-302) *)

Definition _check_train_finish : M unit :=
  st ← get;
  if train_max_steps cfg <=? steps st
  then modify (set_finish_train true)
  else mret tt.

Definition _train_step (batch : Batch) : M unit :=
  let '(y, mels) := batch in
  '(y, y_hat) ← _one_step_generator y mels;
  _one_step_discriminator y y_hat;;
  modify (fun st => set_steps (steps st + 1) st);;
  modify (fun st => set_tqdm_n (tqdm_n st + 1) st);;
  _check_train_finish.

(** The successive calls of [_train_step] made by the training loop, one
    per batch it consumes. *)
Fixpoint train_steps (batches : list Batch) : M unit :=
  match batches with
  | [] => mret tt
  | b :: bs => _train_step b;; train_steps bs
  end.

(** *** One evaluation step (lines 204-244) *)

(** [self.predict(batch)] and [self.discriminator(x)]: forward passes with
    the weights the trainer holds when the call is made. *)
Definition predict (mels : MelBatch) : M AudioBatch :=
  st ← get; mret (generator B (gen_w (nets st)) mels).

(** Modelled from the spec: an application of the discriminator model
    ([TFMelGANMultiScaleDiscriminator], whose source is not part of this
    file).  The spec's model contract has the discriminator a function
    from a waveform batch to the list of its scales; it is applied at the
    weights the trainer holds when the call is made. *)
Definition call_discriminator (x : AudioBatch) : M DisOut :=
  st ← get; mret (discriminator B (dis_w (nets st)) x).

(** Lines 207-236: the six losses of one evaluation step. *)
Definition eval_step_losses (batch : Batch)
  : M (Qc * Qc * Qc * Qc * Qc * Qc) :=
  let '(y, mels) := batch in
  (* Generator *)
  y_hat ← predict mels;
  p_hat ← call_discriminator y_hat;
  adv_loss ← lift (adversarial_loss p_hat);
  p ← call_discriminator (expand_dims y);
  wt ← lift feature_matching_weight;
  fm_loss ← lift (feature_matching_loss wt p_hat p);
  let gen_loss := (adv_loss + lambda_feat_match cfg * fm_loss)%Qc in
  (* discriminator *)
  p_hat ← call_discriminator y_hat;
  '(real_loss, fake_loss) ← lift (real_fake_losses p p_hat);
  let dis_loss := (real_loss + fake_loss)%Qc in
  mret (adv_loss, fm_loss, gen_loss, real_loss, fake_loss, dis_loss).

(** Lines 239-244. *)
Definition record_eval_losses (l : Qc * Qc * Qc * Qc * Qc * Qc) : M unit :=
  let '(adv_loss, fm_loss, gen_loss, real_loss, fake_loss, dis_loss) := l in
  update_eval_metric "adversarial_loss" adv_loss;;
  update_eval_metric "fm_loss" fm_loss;;
  update_eval_metric "gen_loss" gen_loss;;
  update_eval_metric "real_loss" real_loss;;
  update_eval_metric "fake_loss" fake_loss;;
  update_eval_metric "dis_loss" dis_loss.

Definition _eval_step (batch : Batch) : M unit :=
  l ← eval_step_losses batch; record_eval_losses l.






(** *** Intermediate results (lines 262-297) *)

(** A file-system call: it fails with [OSError] or leaves its artifact. *)
Definition do_io (op : io_op) (a : artifact) : M unit :=
  fun st =>
    if io_fails B op (files (world st))
    then (Raise (OSError op), st)
    else (Ok tt,
          set_world {| log := log (world st);
                       summary := summary (world st);
                       files := files (world st) ++ [a];
                       checkpoints := checkpoints (world st) |} st).

Definition is_dir (steps : Z) (a : artifact) : bool :=
  match a with
  | Dir s => s =? steps
  | _ => false
  end.

(** The body of the loop of lines 275-297 for one pair of the batch. *)
Definition save_pair (idx : Z) (pair : Tensor * Tensor) : M unit :=
  let '(y, y_) := pair in
  st ← get;
  do_io (Savefig (steps st) idx) (Figure (steps st) idx y y_);;
  let y := clip (- (1))%Qc 1%Qc y in
  let y_ := clip (- (1))%Qc 1%Qc y_ in
  do_io (WriteWav (steps st) idx true)
        (Wav (steps st) idx true y (sampling_rate cfg));;
  do_io (WriteWav (steps st) idx false)
        (Wav (steps st) idx false y_ (sampling_rate cfg)).

Fixpoint save_pairs (idx : Z) (pairs : list (Tensor * Tensor)) : M unit :=
  match pairs with
  | [] => mret tt
  | pr :: rest => save_pair idx pr;; save_pairs idx rest
  end.

Definition generate_and_save_intermediate_result (batch : Batch) (idx : Z)
  : M unit :=
  let '(y_batch, x_batch) := batch in
  y_batch_ ← predict x_batch;
  st ← get;
  (if existsb (is_dir (steps st)) (files (world st))
   then mret tt
   else do_io (Makedirs (steps st)) (Dir (steps st)));;
  save_pairs idx (zip y_batch y_batch_).

(** *** One evaluation epoch (lines 178-202) *)

(** The loop of lines 183-189.  [k] is the next value of the counter and
    [eval_steps_per_epoch] the loop variable: unbound before the first
    iteration, rebound by each one. *)
Fixpoint eval_loop (k : Z) (eval_steps_per_epoch : option Z)
    (batches : list Batch) : M (option Z) :=
  match batches with
  | [] => mret eval_steps_per_epoch
  | batch :: rest =>
      let eval_steps_per_epoch := k in
      _eval_step batch;;
      (if eval_steps_per_epoch <=? num_save_intermediate_results cfg
       then generate_and_save_intermediate_result batch eval_steps_per_epoch
       else mret tt);;
      eval_loop (k + 1) (Some eval_steps_per_epoch) rest
  end.

(** The log lines of lines 195-196, one per metric, are one [LogMetrics]
    entry holding the value of every metric. *)
Definition _eval_epoch : M unit :=
  st ← get;
  log_info (LogStartEval (steps st));;
  eval_steps_per_epoch ← eval_loop 1 None (eval_data_loader cfg);
  st ← get;
  n ← lift (read_local "eval_steps_per_epoch" eval_steps_per_epoch);
  log_info (LogFinishedEval (steps st) n);;
  (* average loss *)
  log_info (LogMetrics "eval" (steps st) (mean_result <$> eval_metrics st));;
  (* record *)
  _write_to_tensorboard eval_metrics "eval";;
  (* reset *)
  reset_states_eval.

(** *** The end of [main] (lines 522-527) *)

(** Line 515: [max_to_keep=20]. *)
Definition max_to_keep : nat := 20.

Definition snapshot (st : St) : Checkpoint :=
  {| ckpt_nets := nets st; ckpt_steps := steps st; ckpt_epochs := epochs st |}.

(** Modelled from the spec: [save_checkpoint] of the base trainer, whose
    source is not part of this file.  The spec has the checkpoint store
    take a snapshot of the trainer and retain the most recent ones. *)
Definition save_checkpoint : M unit :=
  modify (fun st =>
    let all := checkpoints (world st) ++ [snapshot st] in
    set_world {| log := log (world st);
                 summary := summary (world st);
                 files := files (world st);
                 checkpoints := drop (length all - max_to_keep) all |} st).

(** [try: trainer.run() except KeyboardInterrupt: ...].  [run] is the
    training loop of the base trainer; nothing is assumed about it. *)
Definition main_training (run : M unit) : M unit :=
  fun st =>
    match run st with
    | (Raise KeyboardInterrupt, st') =>
        (save_checkpoint;;
         st ← get;
         log_info (LogSavedCheckpoint (steps st))) st'
    | outcome => outcome
    end.

End WithBackend.

End Trainer.

(** ** Statements and concrete inputs *)

Module Statements.

Import Collater Metrics Losses Trainer.

(** The [n] elements of [t] from position [start] on. *)
Definition window {A} (t : list A) (start n : Z) : list A :=
  firstn (Z.to_nat n) (skipn (Z.to_nat start) t).

(** [out] is [orig] followed by copies of [zero], [n] elements in all. *)
Definition padded_to {A} (zero : A) (orig out : list A) (n : Z) : Prop :=
  Z.of_nat (length out) = n /\
  out = orig ++ repeat zero (Z.to_nat (n - Z.of_nat (length orig))).

(** The padding branch of the collater, as the spec states it. *)
Definition pads_to_window (u : Z) (n_mels : nat) (audio : list Qc)
    (mel : list Frame) (batch_max_steps hop_size : Z) : Prop :=
  Z.of_nat (length mel) * hop_size <= Z.of_nat (length audio) ->
  Z.of_nat (length mel) <= batch_max_steps / hop_size ->
  exists a m,
    collater u n_mels audio mel (Some batch_max_steps) hop_size = Ok (a, m) /\
    padded_to 0%Qc audio a batch_max_steps /\
    padded_to (repeat 0%Qc n_mels) mel m (batch_max_steps / hop_size).

(** The cropping branch of the collater, as the spec states it: the two
    windows lie inside the sequences the caller passed. *)
Definition crops_inside_originals (u : Z) (n_mels : nat) (audio : list Qc)
    (mel : list Frame) (batch_max_steps hop_size : Z) : Prop :=
  let batch_max_frames := batch_max_steps / hop_size in
  batch_max_frames < Z.of_nat (length mel) ->
  exists start_frame,
    0 <= start_frame < Z.of_nat (length mel) - batch_max_frames /\
    collater u n_mels audio mel (Some batch_max_steps) hop_size
      = Ok (window audio (start_frame * hop_size) batch_max_steps,
            window mel start_frame batch_max_frames) /\
    start_frame * hop_size + batch_max_steps <= Z.of_nat (length audio) /\
    start_frame + batch_max_frames <= Z.of_nat (length mel).

(** [p] equals [p_hat] at every intermediate layer of every scale. *)
Definition features_match (p_hat p : DisOut) : Prop :=
  forall i s_hat, p_hat !! i = Some s_hat ->
    exists s, p !! i = Some s /\
      forall j, (j < length s_hat - 1)%nat -> s !! j = s_hat !! j.

(** Every scale of a discriminator output ends in a decision. *)
Definition has_decisions (p : DisOut) : Prop := Forall (fun s => s <> []) p.

(** The discriminator returns, for every input, the same number of scales
    and of layers per scale, and a decision for each scale. *)
Definition well_shaped (B : Backend) : Prop :=
  forall dw x,
    has_decisions (discriminator B dw x) /\
    forall x', map length (discriminator B dw x')
               = map length (discriminator B dw x).

(** Every metric name of the script is in the dictionary. *)
Definition registered (d : gmap string Mean) : Prop :=
  forall name, In name list_metrics_name -> is_Some (d !! name).

(** The evaluation epoch is not aborted: it returns and has flushed the
    evaluation metrics to the summary sink. *)
Definition eval_epoch_completes (B : Backend) (cfg : Config) (st : St B) : Prop :=
  exists st',
    _eval_epoch B cfg st = (Ok tt, st') /\
    length (summary B (world B st')) = S (length (summary B (world B st))).

(** What a sequence of updates does to one accumulator. *)
Definition accumulated (vs : list Float32.float32) (m m' : Mean) : Prop :=
  mean_name m' = mean_name m /\
  total m' = foldl Float32.add (total m) vs /\
  count m' = foldl (fun c _ => Float32.add c Float32.one) (count m) vs.

(** The running mean as the specification states it: after the updates
    [us], made since a reset, the result of the metric [name] stands for
    the arithmetic mean of the values passed to it. *)
Definition reports_arithmetic_mean (d : gmap string Mean)
    (us : list (string * Float32.float32)) (name : string) : Prop :=
  exists d' r,
    metric_updates us (reset_all d) = Ok d' /\
    metric_result name d' = Ok r /\
    Float32.value r
    = Some (arithmetic_mean (omap Float32.value (values_of name us))).

(** The loop variable [eval_steps_per_epoch] after the loop of lines
    183-189 has gone through [batches], counting from [k]. *)
Definition loop_variable (k : Z) (v : option Z) (batches : list Batch)
  : option Z :=
  match batches with
  | [] => v
  | _ => Some (k + Z.of_nat (length batches) - 1)
  end.

Section WithBackend.

Context (B : Backend) (cfg : Config).

(** [m] leaves the observation [f] of the trainer as it found it,
    whether it returns or raises. *)
Definition preserves {X A} (f : St B -> X) (m : M B A) : Prop :=
  forall st, f (m st).2 = f st.

(** The trainer after a file has been written. *)
Definition with_files (fs : list artifact) (st : St B) : St B :=
  set_world B {| log := log B (world B st);
                 summary := summary B (world B st);
                 files := fs;
                 checkpoints := checkpoints B (world B st) |} st.

(** No file-system call fails. *)
Definition never_fails : Prop := forall op fs, io_fails B op fs = false.

(** The counters after one call of [_train_step] that started in [st]. *)
Definition counters_after_step (st : St B) (r : result unit) (st' : St B) : Prop :=
  match r with
  | Ok _ =>
      steps B st' = steps B st + 1 /\
      finish_train B st'
      = finish_train B st || (train_max_steps cfg <=? steps B st')
  | Raise _ =>
      steps B st' = steps B st /\ finish_train B st' = finish_train B st
  end.

(** The body of the loop of lines 183-189 for the batch numbered [k]. *)
Definition eval_iteration (k : Z) (batch : Batch) : M B unit :=
  _eval_step B cfg batch;;
  (if k <=? num_save_intermediate_results cfg
   then generate_and_save_intermediate_result B cfg batch k
   else mret tt).

(** The trainer once line 180 has logged the start of the evaluation. *)
Definition started (st : St B) : St B :=
  (log_info B (LogStartEval (steps B st)) st).2.

End WithBackend.

Arguments preserves {B X A} f m.
Arguments with_files {B} fs st.
Arguments counters_after_step {B} cfg st r st'.
Arguments started {B} st.

End Statements.

Module Examples.

Import Collater Metrics Losses Trainer.

(** A one-parameter generator and a one-scale discriminator with one
    intermediate layer, a finite-difference gradient and a plain gradient
    descent with loss scale two. *)
Definition toy_optimizer : Optimizer Qc :=
  {| opt_state := unit;
     grads := Qc;
     tape_gradient := fun loss w =>
       match loss (w + 1)%Qc, loss w with
       | Ok a, Ok b => (a - b)%Qc
       | _, _ => 0%Qc
       end;
     apply_gradients := fun o g w => (o, (w - g)%Qc);
     get_scaled_loss := fun _ l => (qz 2 * l)%Qc;
     get_unscaled_gradients := fun _ g => (g / qz 2)%Qc |}.

Definition toy_generator (gw : Qc) (mels : MelBatch) : AudioBatch :=
  map (map (fun frame => (gw * qsum frame)%Qc)) mels.

Definition toy_discriminator (dw : Qc) (x : AudioBatch) : DisOut :=
  [[concat x; map (Qcmult dw) (concat x)]].

(** A file system on which every write succeeds. *)
Definition toy : Backend :=
  {| GW := Qc; DW := Qc;
     generator := toy_generator;
     discriminator := toy_discriminator;
     gen_optimizer := toy_optimizer;
     dis_optimizer := toy_optimizer;
     io_fails := fun _ _ => false |}.

(** A file system on which no figure can be written. *)
Definition toy_full_disk : Backend :=
  {| GW := Qc; DW := Qc;
     generator := toy_generator;
     discriminator := toy_discriminator;
     gen_optimizer := toy_optimizer;
     dis_optimizer := toy_optimizer;
     io_fails := fun op _ =>
       match op with
       | Savefig _ _ => true
       | _ => false
       end |}.

Definition batch1 : Batch := ([[qz 1; qz 2]], [[[qz 1]; [qz 2]]]).
Definition batch2 : Batch := ([[qz 3; qz 0]], [[[qz 2]; [qz 1]]]).

Definition toy_config (dis_mixed_precision : bool) (loader : list Batch) : Config :=
  {| downsample_scales := [4];
     scales := 1;
     lambda_feat_match := qz 10;
     train_max_steps := 2;
     log_interval_steps := 1;
     num_save_intermediate_results := 2;
     sampling_rate := 22050;
     is_generator_mixed_precision := false;
     is_discriminator_mixed_precision := dis_mixed_precision;
     eval_data_loader := loader |}.

(** A freshly constructed trainer (lines 55-71). *)
Definition fresh (B : Backend) (gw : GW B) (dw : DW B)
    (go : opt_state (gen_optimizer B)) (do : opt_state (dis_optimizer B))
  : St B :=
  let metrics := init_train_eval_metrics list_metrics_name in
  {| steps := 0; epochs := 0; finish_train := false; tqdm_n := 0;
     nets := {| gen_w := gw; dis_w := dw; gen_opt := go; dis_opt := do |};
     train_metrics := reset_all metrics.1;
     eval_metrics := reset_all metrics.2;
     world := {| log := []; summary := []; files := []; checkpoints := [] |} |}.

Definition toy_st : St toy := fresh toy (qz 1) (qz 1) tt tt.

(** A training loop that the operator interrupts after two steps. *)
Definition interrupted_run : M toy unit :=
  fun st =>
    match train_steps toy (toy_config true []) [batch1; batch2] st with
    | (Ok _, st') => (Raise KeyboardInterrupt, st')
    | outcome => outcome
    end.
Definition full_disk_st : St toy_full_disk := fresh toy_full_disk (qz 1) (qz 1) tt tt.

End Examples.

(** ** Periodic logging of the training metrics (source lines 246-255) *)

Module Interval.

Import Metrics Losses Trainer.

Section WithBackend.

Context (B : Backend) (cfg : Config).

(** The loop of lines 249-251: one log line per metric name, each
    reading the result of that metric. *)
Fixpoint log_train_metrics (names : list string) : M B unit :=
  match names with
  | [] => mret tt
  | metric_name :: rest =>
      st ← get B;
      v ← lift B (metric_result metric_name (train_metrics B st));
      log_info B (LogMetrics "train" (steps B st) {[metric_name := v]});;
      log_train_metrics rest
  end.

(** The phase [_write_to_tensorboard] records when the call passes none
    (line 252): a default of the base trainer. *)
Context (default_stage : string).

(** [_check_log_interval]; [%] on Python integers raises on a zero
    divisor and otherwise is [Z.modulo] (the sign of the divisor). *)
Definition _check_log_interval : M B unit :=
  st ← get B;
  r ← lift B (if log_interval_steps cfg =? 0 then Raise ZeroDivisionError
              else Ok (steps B st mod log_interval_steps cfg));
  if r =? 0 then
    log_train_metrics list_metrics_name;;
    _write_to_tensorboard B (train_metrics B) default_stage;;
    (* reset *)
    reset_states_train B
  else mret tt.

End WithBackend.

End Interval.

(** ** Further statements *)

Module MoreStatements.

Import Metrics Losses Trainer Statements.

(** The six updates an evaluation or training step makes for its six
    losses, in the order of the source. *)
Definition six_updates (l : Qc * Qc * Qc * Qc * Qc * Qc)
  : list (string * Float32.float32) :=
  let '(adv_loss, fm_loss, gen_loss, real_loss, fake_loss, dis_loss) := l in
  [("adversarial_loss", Float32.of_Qc adv_loss);
   ("fm_loss", Float32.of_Qc fm_loss);
   ("gen_loss", Float32.of_Qc gen_loss);
   ("real_loss", Float32.of_Qc real_loss);
   ("fake_loss", Float32.of_Qc fake_loss);
   ("dis_loss", Float32.of_Qc dis_loss)]%string.

(** The loss of the given name among the six, as it reaches the
    metric. *)
Definition component (name : string) (l : Qc * Qc * Qc * Qc * Qc * Qc)
  : Float32.float32 :=
  match values_of name (six_updates l) with
  | v :: _ => v
  | [] => Float32.zero
  end.

(** Every sample of every wav file lies in [[-1, 1]]. *)
Definition wav_in_range (a : artifact) : Prop :=
  match a with
  | Wav _ _ _ data _ => Forall (fun x => (- (1) <= x /\ x <= 1)%Qc) data
  | _ => True
  end.

(** A configuration with another logging interval. *)
Definition with_log_interval (n : Z) (cfg : Config) : Config :=
  {| downsample_scales := downsample_scales cfg;
     scales := scales cfg;
     lambda_feat_match := lambda_feat_match cfg;
     train_max_steps := train_max_steps cfg;
     log_interval_steps := n;
     num_save_intermediate_results := num_save_intermediate_results cfg;
     sampling_rate := sampling_rate cfg;
     is_generator_mixed_precision := is_generator_mixed_precision cfg;
     is_discriminator_mixed_precision := is_discriminator_mixed_precision cfg;
     eval_data_loader := eval_data_loader cfg |}.

Section WithBackend.

Context (B : Backend) (cfg : Config).

(** The six losses of an evaluation step on [batch], with the weights of
    the trainer [st]. *)
Definition batch_losses (st : St B) (batch : Batch)
  : result (Qc * Qc * Qc * Qc * Qc * Qc) :=
  (eval_step_losses B cfg batch st).1.

(** The gradient the generator step applies (lines 132-139). *)
Definition generator_gradient (y : AudioBatch) (mels : MelBatch) (st : St B)
  : grads (gen_optimizer B) :=
  let n := nets B st in
  let opt := gen_optimizer B in
  let gen_loss_of := fun gw =>
    (fun r => r.2.2) <$> generator_forward B cfg (dis_w B n) y mels gw in
  if is_generator_mixed_precision cfg then
    get_unscaled_gradients opt (gen_opt B n)
      (tape_gradient opt
         (fun gw => get_scaled_loss opt (gen_opt B n) <$> gen_loss_of gw)
         (gen_w B n))
  else tape_gradient opt gen_loss_of (gen_w B n).

(** The networks after the generator has been updated. *)
Definition generator_updated (y : AudioBatch) (mels : MelBatch) (st : St B)
  : Nets B :=
  let n := nets B st in
  let r := apply_gradients (gen_optimizer B) (gen_opt B n)
             (generator_gradient y mels st) (gen_w B n) in
  {| gen_w := r.2; dis_w := dis_w B n; gen_opt := r.1; dis_opt := dis_opt B n |}.

(** The networks after the discriminator has been updated under mixed
    precision (lines 163-168 and 171). *)
Definition discriminator_updated (y y_hat : AudioBatch) (st : St B) : Nets B :=
  let n := nets B st in
  let opt := dis_optimizer B in
  let dis_loss_of := fun dw =>
    (fun r => r.2) <$> discriminator_forward B y y_hat dw in
  let gradients :=
    get_unscaled_gradients opt (dis_opt B n)
      (tape_gradient opt
         (fun dw => get_scaled_loss opt (dis_opt B n) <$> dis_loss_of dw)
         (dis_w B n)) in
  let r := apply_gradients opt (dis_opt B n) gradients (dis_w B n) in
  {| gen_w := gen_w B n; dis_w := r.2; gen_opt := gen_opt B n; dis_opt := r.1 |}.

(** The files one pair of the batch leaves (lines 280-297). *)
Definition pair_artifacts (steps idx : Z) (pair : Tensor * Tensor)
  : list artifact :=
  [Figure steps idx pair.1 pair.2;
   Wav steps idx true (clip (- (1))%Qc 1%Qc pair.1) (sampling_rate cfg);
   Wav steps idx false (clip (- (1))%Qc 1%Qc pair.2) (sampling_rate cfg)].

(** The trainer after lines have been written to the log. *)
Definition add_log (lines : list log_entry) (st : St B) : St B :=
  set_world B {| log := log B (world B st) ++ lines;
                 summary := summary B (world B st);
                 files := files B (world B st);
                 checkpoints := checkpoints B (world B st) |} st.

(** The log lines of lines 249-251 for the registered names among
    [names]. *)
Definition train_log_lines (names : list string) (st : St B) : list log_entry :=
  omap (fun name =>
          (fun m => LogMetrics "train" (steps B st) {[name := mean_result m]})
            <$> train_metrics B st !! name)
       names.

(** The files a whole export leaves in a trainer [st]. *)
Definition export_artifacts (batch : Batch) (idx : Z) (st : St B)
  : list artifact :=
  (if existsb (is_dir (steps B st)) (files B (world B st))
   then [] else [Dir (steps B st)])
  ++ flat_map (pair_artifacts (steps B st) idx)
       (zip batch.1 (generator B (gen_w B (nets B st)) batch.2)).

End WithBackend.

End MoreStatements.

(** ** The data sets [main] builds (source lines 407-489) *)

Module Setup.

Import Collater.

(** The command-line options lines 407-489 read; [None] is an option
    that was not given. *)
Record Args : Type := {
  train_wav_scp : option string;
  train_feats_scp : option string;
  train_segments : option string;
  train_dumpdir : option string;
  dev_wav_scp : option string;
  dev_feats_scp : option string;
  dev_segments : option string;
  dev_dumpdir : option string
}.

(** The entries of the configuration lines 426-489 read, at the types
    these lines use them with.  [aux_context_window] is the entry of
    [generator_params], read with [.get(..., 0)]: it may be absent. *)
Record DataConfig : Type := {
  remove_short_samples : bool;
  batch_max_steps : Z;
  hop_size : Z;
  aux_context_window : option Z;
  format : string;
  allow_cache : bool;
  batch_size : Z
}.

(** The exceptions of this part of [main]: the [ValueError]s it raises
    itself and the built-in ones. *)
Inductive main_exn : Type :=
| ValueError (msg : string)
| Builtin (e : exn).

Inductive outcome (A : Type) : Type :=
| Done (a : A)
| Failed (e : main_exn).

Arguments Done {A} a.
Arguments Failed {A} e.

#[export] Instance outcome_ret : MRet outcome := fun A a => Done a.

#[export] Instance outcome_bind : MBind outcome := fun A B k m =>
  match m with
  | Done a => k a
  | Failed e => Failed e
  end.

(** [read_hdf5(x, key)] and [np.load]. *)
Inductive load_fn : Type :=
| ReadHdf5 (key : string)
| NpLoad.

(** The function a data set maps over its items: [collater] with its
    default arguments (lines 453 and 463: [map_fn=collater]) or with
    [batch_max_steps=None] (the [lambda] of lines 476 and 486). *)
Inductive map_fn : Type :=
| CollaterDefault
| CollaterFullLength.

(** Lines 306-307: the default arguments of [collater]. *)
Definition default_batch_max_steps : Z := 25600.
Definition default_hop_size : Z := 256.

Definition run_map_fn (f : map_fn) (u : Z) (n_mels : nat) (audio : list Qc)
    (mel : list Frame) : result (list Qc * list Frame) :=
  match f with
  | CollaterDefault =>
      collater u n_mels audio mel (Some default_batch_max_steps)
        default_hop_size
  | CollaterFullLength =>
      collater u n_mels audio mel None default_hop_size
  end.

(** The constructor calls of lines 444-489.  The two data set classes are
    not part of this file: a value records the class and the arguments of
    the call. *)
Inductive dataset : Type :=
| AudioMelDataset (root_dir audio_query mel_query : string)
    (audio_load_fn mel_load_fn : load_fn) (mel_length_threshold : option Z)
    (shuffle_buffer_size : Z) (map : map_fn) (allow_cache : bool)
    (batch_size : Z)
| AudioMelSCPDataset (wav_scp feats_scp segments : option string)
    (mel_length_threshold : option Z) (map : map_fn) (allow_cache : bool)
    (batch_size : Z).

Definition dataset_map_fn (d : dataset) : map_fn :=
  match d with
  | AudioMelDataset _ _ _ _ _ _ _ f _ _ => f
  | AudioMelSCPDataset _ _ _ _ f _ _ => f
  end.

Definition dataset_batch_size (d : dataset) : Z :=
  match d with
  | AudioMelDataset _ _ _ _ _ _ _ _ _ n => n
  | AudioMelSCPDataset _ _ _ _ _ _ n => n
  end.

Definition dataset_threshold (d : dataset) : option Z :=
  match d with
  | AudioMelDataset _ _ _ _ _ t _ _ _ _ => t
  | AudioMelSCPDataset _ _ _ t _ _ _ => t
  end.

Definition reads_dumpdir (d : dataset) : bool :=
  match d with
  | AudioMelDataset _ _ _ _ _ _ _ _ _ _ => true
  | AudioMelSCPDataset _ _ _ _ _ _ _ => false
  end.

(** [x is not None]. *)
Definition given {A} (x : option A) : bool :=
  match x with
  | Some _ => true
  | None => false
  end.

(** Lines 407-413. *)
Definition check_arguments (args : Args) : outcome unit :=
  (if (given (train_feats_scp args) && given (train_dumpdir args))
      || (negb (given (train_feats_scp args))
          && negb (given (train_dumpdir args)))
   then Failed (ValueError
                  "Please specify either --train-dumpdir or --train-*-scp.")
   else Done tt);;
  (if (given (dev_feats_scp args) && given (dev_dumpdir args))
      || (negb (given (dev_feats_scp args))
          && negb (given (dev_dumpdir args)))
   then Failed (ValueError
                  "Please specify either --dev-dumpdir or --dev-*-scp.")
   else Done tt).

(** Lines 426-430; [//] on Python integers is the floor division and
    raises on a zero divisor. *)
Definition mel_length_threshold (config : DataConfig) : outcome (option Z) :=
  if remove_short_samples config then
    q ← (if hop_size config =? 0 then Failed (Builtin ZeroDivisionError)
         else Done (batch_max_steps config / hop_size config));
    Done (Some (q + 2 * default 0 (aux_context_window config)))
  else Done None.

(** The local names lines 432-442 bind, all four or none. *)
Record Locals : Type := {
  audio_query : string;
  mel_query : string;
  audio_load_fn : load_fn;
  mel_load_fn : load_fn
}.

(** Lines 432-442. *)
Definition bind_format (args : Args) (config : DataConfig)
  : outcome (option Locals) :=
  if negb (given (train_wav_scp args)) || negb (given (dev_wav_scp args)) then
    if String.eqb (format config) "hdf5" then
      Done (Some {| audio_query := "*.h5"; mel_query := "*.h5";
                    audio_load_fn := ReadHdf5 "wave";
                    mel_load_fn := ReadHdf5 "feats" |})
    else if String.eqb (format config) "npy" then
      Done (Some {| audio_query := "*-wave.npy"; mel_query := "*-feats.npy";
                    audio_load_fn := NpLoad; mel_load_fn := NpLoad |})
    else Failed (ValueError "Only hdf5 and npy are supported.")
  else Done None.

(** Lines 444-466 and 467-489: one data set.  The call that reads a dump
    directory evaluates [audio_query] first among the local names of
    lines 432-442. *)
Definition make_dataset (dumpdir wav_scp feats_scp segments : option string)
    (locals : option Locals) (threshold : option Z) (map : map_fn)
    (allow_cache : bool) (batch_size : Z) : outcome dataset :=
  match dumpdir with
  | Some root_dir =>
      match locals with
      | Some l =>
          Done (AudioMelDataset root_dir (audio_query l) (mel_query l)
                  (audio_load_fn l) (mel_load_fn l) threshold 64 map
                  allow_cache batch_size)
      | None => Failed (Builtin (UnboundLocalError "audio_query"))
      end
  | None =>
      Done (AudioMelSCPDataset wav_scp feats_scp segments threshold map
              allow_cache batch_size)
  end.

(** Lines 407-489 of [main], without the files they read and write: the
    training and the validation data set. *)
Definition get_datasets (args : Args) (config : DataConfig)
  : outcome (dataset * dataset) :=
  check_arguments args;;
  threshold ← mel_length_threshold config;
  locals ← bind_format args config;
  train_dataset ← make_dataset (train_dumpdir args) (train_wav_scp args)
                       (train_feats_scp args) (train_segments args)
                       locals threshold CollaterDefault
                       (allow_cache config) (batch_size config);
  dev_dataset ← make_dataset (dev_dumpdir args) (dev_wav_scp args)
                     (dev_feats_scp args) (dev_segments args)
                     locals threshold CollaterFullLength
                     (allow_cache config) 1;
  Done (train_dataset, dev_dataset).

(** Exactly one of the two ways of naming the features is used. *)
Definition one_source (feats_scp dumpdir : option string) : Prop :=
  given feats_scp = negb (given dumpdir).

(** Command lines and a configuration. *)
Definition dumpdir_args : Args :=
  {| train_wav_scp := None; train_feats_scp := None; train_segments := None;
     train_dumpdir := Some "dump/train";
     dev_wav_scp := None; dev_feats_scp := None; dev_segments := None;
     dev_dumpdir := Some "dump/dev" |}.

Definition wav_scp_with_dumpdir_args : Args :=
  {| train_wav_scp := Some "train/wav.scp"; train_feats_scp := None;
     train_segments := None; train_dumpdir := Some "dump/train";
     dev_wav_scp := Some "dev/wav.scp"; dev_feats_scp := Some "dev/feats.scp";
     dev_segments := None; dev_dumpdir := None |}.

Definition example_config : DataConfig :=
  {| remove_short_samples := true; batch_max_steps := 8192; hop_size := 256;
     aux_context_window := None; format := "npy"; allow_cache := true;
     batch_size := 16 |}.

End Setup.

(** ** Properties of the collater *)

Module CollaterFacts.

Import Collater Statements.

Lemma int32_small (z : Z) :
  int32_min <= z <= int32_max -> int32 z = z.
Proof.
  unfold int32_min, int32_max, int32. intros Hz.
  rewrite Z.mod_small; lia.
Qed.

Lemma len_small {A} (t : list A) :
  Z.of_nat (length t) <= int32_max -> len t = Z.of_nat (length t).
Proof.
  intros H. unfold len. apply int32_small. unfold int32_min. lia.
Qed.

Lemma div_bounds (a b : Z) : 0 <= a -> 0 < b -> 0 <= a / b <= a.
Proof.
  intros Ha Hb. split.
  - apply Z.div_pos; lia.
  - apply Z.div_le_upper_bound; nia.
Qed.

Lemma floordiv_small (a b : Z) :
  0 <= a <= int32_max -> 0 < b -> floordiv a b = Ok (a / b).
Proof.
  intros Ha Hb. unfold floordiv.
  destruct (Z.eqb_spec b 0) as [->|_]; [lia|].
  pose proof (div_bounds a b) as Hd.
  rewrite int32_small; [reflexivity|]. unfold int32_min. lia.
Qed.

Lemma aligned_length (audio : list Qc) (mel : list Frame) (hop_size : Z) :
  Z.of_nat (length (aligned audio mel hop_size))
  = Z.max (Z.of_nat (length audio)) (Z.of_nat (length mel) * hop_size).
Proof.
  unfold aligned. rewrite length_app, repeat_length. lia.
Qed.

Lemma aligned_id (audio : list Qc) (mel : list Frame) (hop_size : Z) :
  Z.of_nat (length mel) * hop_size <= Z.of_nat (length audio) ->
  aligned audio mel hop_size = audio.
Proof.
  intros H. unfold aligned.
  replace (Z.to_nat _) with 0%nat by lia. apply app_nil_r.
Qed.

Lemma align_ok (audio : list Qc) (mel : list Frame) (hop_size : Z) :
  0 < hop_size ->
  Z.of_nat (length audio) <= int32_max ->
  Z.of_nat (length mel) * hop_size <= int32_max ->
  align audio mel hop_size = Ok (aligned audio mel hop_size).
Proof.
  intros Hhop Ha Hm. unfold align.
  assert (Hlm : Z.of_nat (length mel) <= int32_max) by nia.
  rewrite (len_small audio), (len_small mel) by assumption.
  rewrite (int32_small (_ * _)) by (unfold int32_min; nia).
  destruct (Z.ltb_spec (Z.of_nat (length audio))
              (Z.of_nat (length mel) * hop_size)) as [Hlt|Hge].
  - rewrite int32_small by (unfold int32_min; lia).
    unfold tf_pad. destruct (Z.ltb_spec (Z.of_nat (length mel) * hop_size
                                         - Z.of_nat (length audio)) 0); [lia|].
    reflexivity.
  - rewrite aligned_id by lia. reflexivity.
Qed.

Lemma slice_window {A} (t : list A) (b n : Z) :
  0 <= b -> 0 <= n -> b + n <= Z.of_nat (length t) ->
  slice t b (b + n) = window t b n.
Proof.
  intros Hb Hn Hle. unfold slice, window, clamp_index.
  destruct (Z.ltb_spec b 0); [lia|].
  destruct (Z.ltb_spec (b + n) 0); [lia|].
  rewrite !Z.min_l by lia. do 2 f_equal. lia.
Qed.

Lemma window_length {A} (t : list A) (b n : Z) :
  0 <= b -> 0 <= n -> b + n <= Z.of_nat (length t) ->
  Z.of_nat (length (window t b n)) = n.
Proof.
  intros Hb Hn Hle. unfold window.
  rewrite length_firstn, length_skipn. lia.
Qed.

Lemma tf_pad_ok {A} (zero : A) (t : list A) (after : Z) :
  0 <= after -> tf_pad zero t after = Ok (t ++ repeat zero (Z.to_nat after)).
Proof.
  intros H. unfold tf_pad. destruct (Z.ltb_spec after 0); [lia|reflexivity].
Qed.

(** C2, as stated, fails: a waveform longer than [batch_max_steps] with a
    short feature sequence satisfies both premises, and the collater
    raises on the negative padding of line 333. *)
Lemma collater_rejects_long_waveform :
  ~ pads_to_window 0 1 (map qz [1; 2; 3; 4; 5]) [[qz 0]; [qz 0]] 4 2.
Proof.
  intros H. destruct H as (a & m & Heq & _).
  - simpl. lia.
  - change (4 / 2) with 2. simpl. lia.
  - vm_compute in Heq. discriminate Heq.
Qed.

(** C2 (amended): for every waveform/feature pair with
    [len(mel) * hop_size <= len(waveform) <= batch_max_steps] and
    [len(mel) <= batch_max_frames], the collater returns a waveform of
    length exactly [batch_max_steps] and a feature sequence of length
    exactly [batch_max_frames]: the original data followed by zeros. *)
Theorem collater_pads (u : Z) (n_mels : nat) (audio : list Qc)
    (mel : list Frame) (batch_max_steps hop_size : Z) :
  0 < hop_size ->
  batch_max_steps <= int32_max ->
  Z.of_nat (length audio) <= batch_max_steps ->
  pads_to_window u n_mels audio mel batch_max_steps hop_size.
Proof.
  intros Hhop Hmax Hfit Hal Hfr.
  pose proof (div_bounds batch_max_steps hop_size ltac:(lia) Hhop) as Hd.
  unfold collater, resolve_batch_max_steps. cbn [mbind result_bind].
  rewrite floordiv_small by lia. cbn [mbind result_bind].
  rewrite align_ok by nia. cbn [mbind result_bind].
  rewrite aligned_id by lia.
  rewrite (len_small mel), (len_small audio) by lia.
  destruct (Z.ltb_spec (batch_max_steps / hop_size) (Z.of_nat (length mel)));
    [lia|].
  rewrite !int32_small by (unfold int32_min; lia).
  rewrite !tf_pad_ok by lia. cbn [mbind result_bind].
  eexists _, _. split; [reflexivity|].
  unfold padded_to. rewrite !length_app, !repeat_length.
  clear Hal. generalize dependent (batch_max_steps / hop_size). intros bmf **.
  unfold Frame in *.
  split; (split; [lia | reflexivity]).
Qed.

Lemma collater_pads_witness :
  pads_to_window 0 1 (map qz [1; 2; 3; 4]) [[qz 7]; [qz 8]] 6 2.
Proof.
  apply collater_pads.
  - lia.
  - unfold int32_max. lia.
  - simpl. lia.
Defined.

(** The start frame drawn at lines 323-328 is the draw of the generator
    reduced into the range. *)
Lemma start_frame_draw (u : Z) (mel : list Frame) (batch_max_frames : Z) :
  0 <= batch_max_frames < Z.of_nat (length mel) ->
  Z.of_nat (length mel) <= int32_max ->
  start_frame_of u mel batch_max_frames
  = Ok (u mod (Z.of_nat (length mel) - batch_max_frames)).
Proof.
  intros Hf Hm. unfold start_frame_of, random_uniform.
  rewrite (len_small mel) by lia.
  rewrite (int32_small (_ - _)) by (unfold int32_min; lia).
  destruct (Z.leb_spec (Z.of_nat (length mel) - batch_max_frames) 0); [lia|].
  rewrite Z.sub_0_r, Z.add_0_l. reflexivity.
Qed.

(** C3: for every input with [len(mel) > batch_max_frames] the collater
    draws a start frame in [[0, len(mel) - batch_max_frames)], the draw
    of the generator reduced into that range, so that among any
    [len(mel) - batch_max_frames] consecutive draws each start frame of
    the range is produced by exactly one; it crops the waveform at
    [start_frame * hop_size] for [batch_max_steps] samples and the
    features at [start_frame] for [batch_max_frames] frames.  Both
    windows are contiguous, aligned, of full length and contained in the
    sequences they are cut from: the features, and the waveform as lines
    318-319 leave it, which is the waveform of the caller whenever it
    satisfies the invariant [len(waveform) >= len(mel) * hop_size] of a
    batch. *)
Theorem collater_crops (u : Z) (n_mels : nat) (audio : list Qc)
    (mel : list Frame) (batch_max_steps hop_size : Z) :
  0 < hop_size ->
  0 <= batch_max_steps ->
  Z.of_nat (length audio) <= int32_max ->
  Z.of_nat (length mel) * hop_size <= int32_max ->
  batch_max_steps / hop_size < Z.of_nat (length mel) ->
  let batch_max_frames := batch_max_steps / hop_size in
  let range := Z.of_nat (length mel) - batch_max_frames in
  let padded := aligned audio mel hop_size in
  let start_frame := u mod range in
  let start_step := start_frame * hop_size in
  start_frame_of u mel batch_max_frames = Ok start_frame /\
  0 <= start_frame < range /\
  (forall k u' s,
     0 <= s < range ->
     k * range <= u' < (k + 1) * range ->
     (start_frame_of u' mel batch_max_frames = Ok s <-> u' = k * range + s)) /\
  collater u n_mels audio mel (Some batch_max_steps) hop_size
    = Ok (window padded start_step batch_max_steps,
          window mel start_frame batch_max_frames) /\
  start_step + batch_max_steps <= Z.of_nat (length padded) /\
  start_frame + batch_max_frames <= Z.of_nat (length mel) /\
  Z.of_nat (length (window padded start_step batch_max_steps))
    = batch_max_steps /\
  Z.of_nat (length (window mel start_frame batch_max_frames))
    = batch_max_frames /\
  (Z.of_nat (length mel) * hop_size <= Z.of_nat (length audio) ->
   padded = audio /\
   crops_inside_originals u n_mels audio mel batch_max_steps hop_size).
Proof.
  intros Hhop Hbms Ha Hm Hlong bmf range padded sf ss.
  pose proof (div_bounds batch_max_steps hop_size Hbms Hhop) as Hd.
  fold bmf in Hd, Hlong.
  assert (Hrange : 0 < range) by (subst range; lia).
  assert (Hsf : 0 <= sf < range) by (apply Z.mod_pos_bound; exact Hrange).
  pose proof (Z.div_mod batch_max_steps hop_size ltac:(lia)) as Hdm.
  pose proof (Z.mod_pos_bound batch_max_steps hop_size Hhop) as Hmod.
  fold bmf in Hdm.
  assert (Hwin : ss + batch_max_steps <= Z.of_nat (length mel) * hop_size)
    by (subst ss range; nia).
  assert (Hss : 0 <= ss) by (subst ss; nia).
  pose proof (aligned_length audio mel hop_size) as Hlen. fold padded in Hlen.
  assert (Hbms' : batch_max_steps <= int32_max) by lia.
  assert (Hmel : Z.of_nat (length mel) <= int32_max) by nia.
  assert (Hdraw : forall u',
             start_frame_of u' mel bmf = Ok (u' mod range)).
  { intros u'. apply start_frame_draw; [lia | exact Hmel]. }
  assert (Hrun : collater u n_mels audio mel (Some batch_max_steps) hop_size
                 = Ok (window padded ss batch_max_steps, window mel sf bmf)).
  { unfold collater, resolve_batch_max_steps. cbn [mbind result_bind].
    rewrite floordiv_small by lia. cbn [mbind result_bind]. fold bmf.
    rewrite align_ok by assumption. cbn [mbind result_bind]. fold padded.
    rewrite (len_small mel) by nia.
    destruct (Z.ltb_spec bmf (Z.of_nat (length mel))); [|lia].
    rewrite Hdraw. cbn [mbind result_bind]. fold range. fold sf. fold ss.
    rewrite (int32_small ss) by (unfold int32_min; lia).
    rewrite (int32_small (ss + _)) by (unfold int32_min; lia).
    rewrite (int32_small (sf + _)) by (unfold int32_min; subst range; nia).
    rewrite !slice_window by (subst range; lia). reflexivity. }
  split; [apply Hdraw|]. split; [exact Hsf|]. split.
  { intros k u' s Hs Hu'. rewrite Hdraw.
    assert (Hmod' : u' mod range = u' - k * range).
    { replace u' with ((u' - k * range) + k * range) at 1 by lia.
      rewrite Z.mod_add by lia. apply Z.mod_small. lia. }
    rewrite Hmod'. split.
    - intros H. injection H as H. lia.
    - intros ->. f_equal. lia. }
  split; [exact Hrun|].
  split; [lia|]. split; [subst range; lia|].
  split; [apply window_length; lia|].
  split; [apply window_length; subst range; lia|].
  intros Hal.
  assert (Hpad : padded = audio) by (apply aligned_id; exact Hal).
  split; [exact Hpad|].
  unfold crops_inside_originals. fold bmf. intros _.
  exists sf. fold ss. rewrite Hrun, Hpad.
  split; [exact Hsf|]. split; [reflexivity|].
  rewrite Hpad in Hlen. split; [lia | subst range; lia].
Qed.

Lemma collater_crops_witness :
  collater 1 1 (map qz [1; 2; 3; 4; 5; 6; 7; 8; 9])
           [[qz 7]; [qz 8]; [qz 9]; [qz 10]] (Some 5) 2
  = Ok (map qz [3; 4; 5; 6; 7], [[qz 8]; [qz 9]]) /\
  crops_inside_originals 1 1 (map qz [1; 2; 3; 4; 5; 6; 7; 8; 9])
    [[qz 7]; [qz 8]; [qz 9]; [qz 10]] 5 2.
Proof.
  pose proof (collater_crops 1 1 (map qz [1; 2; 3; 4; 5; 6; 7; 8; 9])
                [[qz 7]; [qz 8]; [qz 9]; [qz 10]] 5 2) as H.
  cbv zeta in H. destruct H as (_ & _ & _ & Heq & _ & _ & _ & _ & Hal).
  - lia.
  - lia.
  - unfold int32_max. simpl. lia.
  - unfold int32_max. simpl. lia.
  - change (5 / 2) with 2. simpl. lia.
  - split; [exact Heq|]. apply Hal. simpl. lia.
Defined.

End CollaterFacts.

(** ** Properties of [tf.float32] arithmetic *)

Module Float32Facts.

Import Float32.

(** A float32 number in canonical form rounds to itself. *)
Lemma round_exact (s : bool) (m : positive) (e : Z) :
  SpecFloat.bounded prec emax m e = true ->
  SpecFloat.binary_round_aux prec emax s (Zpos m) e SpecFloat.loc_Exact
  = SpecFloat.S754_finite s m e.
Proof.
  unfold SpecFloat.bounded, SpecFloat.canonical_mantissa.
  intros H. apply andb_true_iff in H as [Hc He].
  apply Z.eqb_eq in Hc.
  unfold SpecFloat.binary_round_aux, SpecFloat.shr_fexp.
  cbn [SpecFloat.Zdigits2 SpecFloat.shr_record_of_loc].
  rewrite Hc, Z.sub_diag.
  cbn [SpecFloat.shr SpecFloat.shr_m SpecFloat.loc_of_shr_record
       SpecFloat.round_nearest_even].
  cbn [SpecFloat.Zdigits2 SpecFloat.shr_record_of_loc].
  rewrite Hc, Z.sub_diag. cbn [SpecFloat.shr SpecFloat.shr_m].
  rewrite He. reflexivity.
Qed.

Lemma div_eucl_exact (a b q : Z) :
  0 < b -> a = q * b -> Z.div_eucl a b = (q, 0).
Proof.
  intros Hb Ha.
  pose proof (Z.div_mul q b ltac:(lia)) as Hq.
  pose proof (Z.mod_mul q b ltac:(lia)) as Hr.
  rewrite <- Ha in Hq, Hr. unfold Z.div, Z.modulo in Hq, Hr.
  destruct (Z.div_eucl a b) as [q' r']. congruence.
Qed.

(** [x / 1.0 = x] for every finite float32 [x]: the division is exact. *)
Lemma div_one (s : bool) (m : positive) (e : Z) :
  SpecFloat.bounded prec emax m e = true ->
  div (SpecFloat.S754_finite s m e) one = SpecFloat.S754_finite s m e.
Proof.
  intros Hb. pose proof Hb as Hb'.
  unfold SpecFloat.bounded, SpecFloat.canonical_mantissa in Hb'.
  apply andb_true_iff in Hb' as [Hc He].
  apply Z.eqb_eq in Hc. apply Z.leb_le in He.
  pose proof Hc as Hc'.
  unfold SpecFloat.fexp, SpecFloat.emin, prec, emax in Hc', He.
  set (d := Zpos (SpecFloat.digits2_pos m)) in *.
  assert (Hd1 : 1 <= d) by (subst d; lia).
  unfold div, one. cbn [SpecFloat.SFdiv].
  unfold SpecFloat.SFdiv_core_binary.
  cbn [SpecFloat.Zdigits2 SpecFloat.digits2_pos]. fold d.
  change (Zpos (Pos.succ _)) with 24.
  unfold SpecFloat.fexp at 1 2 3. unfold SpecFloat.emin, prec, emax.
  rewrite xorb_false_r.
  set (e' := Z.min _ _).
  assert (He' : e' = e \/ e' = e - 1) by (subst e'; lia).
  destruct He' as [He'|He']; rewrite He'.
  - replace (e - -23 - e) with 23 by lia. cbn match.
    rewrite (div_eucl_exact _ 8388608 (Zpos m))
      by (rewrite ?Z.shiftl_mul_pow2; lia).
    change (SpecFloat.new_location 8388608 0) with SpecFloat.loc_Exact.
    apply round_exact. exact Hb.
  - replace (e - -23 - (e - 1)) with 24 by lia. cbn match.
    rewrite (div_eucl_exact _ 8388608 (Zpos m~0))
      by (rewrite ?Z.shiftl_mul_pow2; lia).
    change (SpecFloat.new_location 8388608 0) with SpecFloat.loc_Exact.
    assert (Hfe : SpecFloat.fexp 24 128 (d + e) = e) by exact Hc.
    unfold SpecFloat.binary_round_aux, SpecFloat.shr_fexp.
    cbn [SpecFloat.Zdigits2 SpecFloat.digits2_pos SpecFloat.shr_record_of_loc].
    rewrite Pos2Z.inj_succ. fold d.
    replace (Z.succ d + (e - 1)) with (d + e) by lia.
    rewrite Hfe. replace (e - (e - 1)) with 1 by lia.
    cbn [SpecFloat.shr SpecFloat.iter_pos SpecFloat.shr_1 orb
         SpecFloat.shr_m SpecFloat.loc_of_shr_record
         SpecFloat.round_nearest_even].
    cbn [SpecFloat.Zdigits2 SpecFloat.shr_record_of_loc]. fold d.
    replace (e - 1 + 1) with e by lia.
    rewrite Hfe, Z.sub_diag.
    cbn [SpecFloat.shr SpecFloat.shr_m].
    change (128 - 24) with 104.
    destruct (Z.leb_spec e 104); [reflexivity | lia].
Qed.

(** The mean of a single float32 value is that value ([-0.0] becomes
    [0.0], which [==] does not tell apart; a NaN stays a NaN). *)
Lemma single_value_mean (v : float32) :
  valid v = true ->
  div_no_nan (add zero v) (add zero one)
  = match v with
    | SpecFloat.S754_zero _ => zero
    | _ => v
    end.
Proof.
  intros Hv. change (add zero one) with one.
  destruct v as [s|s| |s m e]; try (destruct s; reflexivity).
  - reflexivity.
  - change (add zero (SpecFloat.S754_finite s m e))
      with (SpecFloat.S754_finite s m e).
    change (div_no_nan (SpecFloat.S754_finite s m e) one)
      with (div (SpecFloat.S754_finite s m e) one).
    apply div_one. exact Hv.
Qed.

Lemma eqb_refl (v : float32) : is_nan v = false -> eqb v v = true.
Proof.
  destruct v as [s|s| |s m e]; intros H; try discriminate H.
  - reflexivity.
  - destruct s; reflexivity.
  - unfold eqb, SpecFloat.SFeqb, SpecFloat.SFcompare.
    rewrite Z.compare_refl, Pos.compare_cont_refl. destruct s; reflexivity.
Qed.

End Float32Facts.

(** ** Properties of the metrics *)

Module MetricsFacts.

Import Float32 Metrics Statements Float32Facts.

Lemma values_of_cons_eq (key : string) (v : float32)
    (us : list (string * float32)) :
  values_of key ((key, v) :: us) = v :: values_of key us.
Proof.
  unfold values_of. rewrite filter_cons_True by reflexivity. reflexivity.
Qed.

Lemma values_of_cons_ne (key k : string) (v : float32)
    (us : list (string * float32)) :
  k <> key -> values_of key ((k, v) :: us) = values_of key us.
Proof.
  intros Hne. unfold values_of.
  rewrite filter_cons_False by (simpl; congruence). reflexivity.
Qed.

Lemma accumulated_nil (m : Mean) : accumulated [] m m.
Proof. repeat split. Qed.

Lemma accumulated_cons (v : float32) (vs : list float32) (m m' : Mean) :
  accumulated vs (update_state v m) m' -> accumulated (v :: vs) m m'.
Proof.
  unfold accumulated. intros (Hn & Ht & Hc).
  split; [exact Hn|]. split; [exact Ht | exact Hc].
Qed.

Lemma metric_updates_accumulate (us : list (string * float32)) :
  forall d : gmap string Mean,
    Forall (fun kv => is_Some (d !! kv.1)) us ->
    exists d',
      metric_updates us d = Ok d' /\
      forall name m, d !! name = Some m ->
        exists m', d' !! name = Some m' /\ accumulated (values_of name us) m m'.
Proof.
  induction us as [|[key v] us IH]; intros d Hreg.
  - exists d. split; [reflexivity|].
    intros name m Hm. exists m. split; [exact Hm | apply accumulated_nil].
  - inversion Hreg as [|? ? [m0 Hm0] Hrest]; subst. simpl in Hm0.
    cbn [metric_updates]. unfold metric_update. rewrite Hm0.
    cbn [mbind result_bind].
    destruct (IH (<[key := update_state v m0]> d)) as (d' & Hrun & Hacc).
    + eapply Forall_impl; [exact Hrest|]. intros [k w] [mk Hk]. simpl in *.
      destruct (decide (key = k)) as [->|Hne].
      * rewrite lookup_insert_eq. eauto.
      * rewrite lookup_insert_ne by exact Hne. eauto.
    + exists d'. split; [exact Hrun|].
      intros name m Hm. destruct (decide (key = name)) as [->|Hne].
      * rewrite Hm in Hm0. injection Hm0 as <-.
        destruct (Hacc name (update_state v m)) as (m' & Hm' & Ha).
        { apply lookup_insert_eq. }
        exists m'. split; [exact Hm'|].
        rewrite values_of_cons_eq. apply accumulated_cons. exact Ha.
      * destruct (Hacc name m) as (m' & Hm' & Ha).
        { rewrite lookup_insert_ne by exact Hne. exact Hm. }
        exists m'. split; [exact Hm'|].
        rewrite values_of_cons_ne by exact Hne. exact Ha.
Qed.

Lemma reset_all_lookup (d : gmap string Mean) (name : string) (m : Mean) :
  d !! name = Some m ->
  reset_all d !! name = Some (new_mean (mean_name m)).
Proof.
  intros Hm. unfold reset_all. rewrite lookup_fmap, Hm. reflexivity.
Qed.

(** [init_train_eval_metrics] registers every name of its list in both
    dictionaries. *)
Lemma init_registers (names : list string) (name : string) :
  In name names ->
  is_Some ((init_train_eval_metrics names).1 !! name) /\
  is_Some ((init_train_eval_metrics names).2 !! name).
Proof.
  unfold init_train_eval_metrics.
  enough (Hgen : forall (acc : gmap string Mean * gmap string Mean),
             In name names \/ (is_Some (acc.1 !! name) /\ is_Some (acc.2 !! name)) ->
             let r := foldl (fun '(train, eval) name =>
                        (<[name := new_mean ("train_" ++ name)]> train,
                         <[name := new_mean ("eval_" ++ name)]> eval))
                      acc names in
             is_Some (r.1 !! name) /\ is_Some (r.2 !! name)).
  { intros Hin. apply (Hgen (∅, ∅)). left. exact Hin. }
  induction names as [|n names IH]; intros [tr ev] H; simpl.
  - destruct H as [[]|H]. exact H.
  - apply IH. destruct H as [[->|Hin]|[Ht He]].
    + right. simpl. rewrite !lookup_insert_eq. eauto.
    + left. exact Hin.
    + right. simpl. destruct (decide (n = name)) as [->|Hne].
      * rewrite !lookup_insert_eq. eauto.
      * rewrite !lookup_insert_ne by exact Hne. eauto.
Qed.

Lemma reset_all_registered (d : gmap string Mean)
    (us : list (string * float32)) :
  Forall (fun kv => is_Some (d !! kv.1)) us ->
  Forall (fun kv => is_Some (reset_all d !! kv.1)) us.
Proof.
  intros H. eapply Forall_impl; [exact H|]. intros kv [m Hm].
  rewrite (reset_all_lookup _ _ _ Hm). eauto.
Qed.

Lemma mean_after_reset (name : string) (vs : list float32) (m' : Mean) :
  accumulated vs (new_mean name) m' -> mean_result m' = float32_mean vs.
Proof.
  intros (_ & Ht & Hc). unfold mean_result, float32_mean.
  rewrite Ht, Hc. reflexivity.
Qed.

(** After a reset, the updates [us] leave under each registered name the
    float32 running mean of the values passed to that name. *)
Lemma running_mean_after_reset (d : gmap string Mean)
    (us : list (string * float32)) (name : string) :
  is_Some (d !! name) ->
  Forall (fun kv => is_Some (d !! kv.1)) us ->
  exists d',
    metric_updates us (reset_all d) = Ok d' /\
    metric_result name d' = Ok (float32_mean (values_of name us)).
Proof.
  intros [m Hm] Hreg.
  pose proof (reset_all_lookup _ _ _ Hm) as Hreset.
  destruct (metric_updates_accumulate us (reset_all d)
              (reset_all_registered d us Hreg)) as (d' & Hrun & Hacc).
  exists d'. split; [exact Hrun|].
  destruct (Hacc _ _ Hreset) as (m' & Hm' & Ha).
  unfold metric_result. rewrite Hm'. f_equal.
  eapply mean_after_reset. exact Ha.
Qed.

(** C5, as stated, fails: the accumulators are [tf.float32] variables.
    After a reset and the three updates 16777216.0, 1.0 and 1.0 of one
    metric the total is still 16777216.0 (each addition of 1.0 is
    rounded away), so [result()] is 5592405.5 and not the arithmetic
    mean 5592406 of the three values, which is itself a float32
    number. *)
Lemma running_mean_rounds :
  ~ reports_arithmetic_mean (init_train_eval_metrics list_metrics_name).1
      [("gen_loss", of_Qc (qz 16777216)); ("gen_loss", one);
       ("gen_loss", one)]%string
      "gen_loss".
Proof.
  intros (d' & r & Hrun & Hres & Hval).
  destruct (running_mean_after_reset
              (init_train_eval_metrics list_metrics_name).1
              [("gen_loss", of_Qc (qz 16777216)); ("gen_loss", one);
               ("gen_loss", one)]%string "gen_loss")
    as (d'' & Hrun' & Hres').
  { apply init_registers. simpl. tauto. }
  { repeat constructor; apply init_registers; simpl; tauto. }
  rewrite Hrun in Hrun'. injection Hrun' as <-.
  rewrite Hres in Hres'. injection Hres' as ->.
  rewrite !values_of_cons_eq in Hval.
  apply (f_equal (fun o => match o with
                           | Some q => this q
                           | None => 0%Q
                           end)) in Hval.
  vm_compute in Hval. discriminate Hval.
Qed.

(** C5 (amended): for every registered metric and every sequence of
    updates made since the last reset (updates of the other registered
    metrics may be interleaved), [result()] is the float32 running mean
    of the values passed to that metric: their sum, accumulated from
    zero in the order of the updates with every addition rounded to
    [tf.float32], divided by their count, a float32 sum of ones; and
    after a reset a single [update(v)] with a float32 value [v] makes
    [result()] the value [v] itself ([0.0] for [-0.0]), so that
    [result() == v] unless [v] is a NaN. *)
Theorem metrics_running_mean (d : gmap string Mean)
    (us : list (string * float32)) (name : string) :
  is_Some (d !! name) ->
  Forall (fun kv => is_Some (d !! kv.1)) us ->
  (exists d',
     metric_updates us (reset_all d) = Ok d' /\
     metric_result name d' = Ok (float32_mean (values_of name us))) /\
  (forall v,
     valid v = true ->
     exists d' r,
       metric_update name v (reset_all d) = Ok d' /\
       metric_result name d' = Ok r /\
       r = match v with
           | SpecFloat.S754_zero _ => zero
           | _ => v
           end /\
       (is_nan v = false -> eqb r v = true)).
Proof.
  intros Hname Hreg. split.
  - apply running_mean_after_reset; assumption.
  - intros v Hv. destruct Hname as [m Hm].
    pose proof (reset_all_lookup _ _ _ Hm) as Hreset.
    unfold metric_update. rewrite Hreset.
    eexists _, _. split; [reflexivity|].
    unfold metric_result. rewrite lookup_insert_eq.
    split; [reflexivity|].
    unfold mean_result, update_state, new_mean. cbn [total count].
    rewrite (single_value_mean v Hv).
    split; [reflexivity|]. intros Hnan.
    destruct v as [s|s| |s m0 e0].
    + reflexivity.
    + apply (eqb_refl (SpecFloat.S754_infinity s)). reflexivity.
    + discriminate Hnan.
    + apply eqb_refl. reflexivity.
Qed.

Lemma metrics_running_mean_witness :
  let d := (init_train_eval_metrics list_metrics_name).1 in
  let us := [("gen_loss", of_Qc (qz 1)); ("fm_loss", of_Qc (qz 5));
             ("gen_loss", of_Qc (qz 3))]%string in
  (exists d',
     metric_updates us (reset_all d) = Ok d' /\
     metric_result "gen_loss" d'
     = Ok (float32_mean [of_Qc (qz 1); of_Qc (qz 3)])) /\
  (exists d' r,
     metric_update "gen_loss" (of_Qc (qz 3)) (reset_all d) = Ok d' /\
     metric_result "gen_loss" d' = Ok r /\
     r = of_Qc (qz 3)).
Proof.
  intros d us.
  destruct (metrics_running_mean d us "gen_loss") as [Hmean Hsingle].
  - apply init_registers. simpl. tauto.
  - repeat constructor; apply init_registers; simpl; tauto.
  - split; [exact Hmean|].
    destruct (Hsingle (of_Qc (qz 3)) eq_refl)
      as (d' & r & Hrun & Hres & Hr & _).
    exists d', r. split; [exact Hrun|]. split; [exact Hres | exact Hr].
Defined.

End MetricsFacts.

(** ** Properties of the loss computations *)

Module LossFacts.

Import Metrics Losses Trainer Statements.

(** A loop whose body returns its accumulator unchanged. *)
Lemma for_range_const {T} (body : nat -> T -> result T) (n start : nat) (s : T) :
  (forall i, (start <= i < start + n)%nat -> body i s = Ok s) ->
  for_range body start n s = Ok s.
Proof.
  revert start. induction n as [|n IH]; intros start Hbody; simpl.
  - reflexivity.
  - rewrite Hbody by lia. cbn [mbind result_bind].
    apply IH. intros i Hi. apply Hbody. lia.
Qed.

(** A loop whose body never raises returns. *)
Lemma for_range_ok {T} (body : nat -> T -> result T) (n start : nat) (s : T) :
  (forall i s, (start <= i < start + n)%nat -> exists s', body i s = Ok s') ->
  exists s', for_range body start n s = Ok s'.
Proof.
  revert start s. induction n as [|n IH]; intros start s Hbody; simpl.
  - eauto.
  - destruct (Hbody start s ltac:(lia)) as [s1 ->]. cbn [mbind result_bind].
    apply IH. intros i s2 Hi. apply Hbody. lia.
Qed.

Lemma getitem_lookup {A} (l : list A) (i : nat) (x : A) :
  l !! i = Some x -> getitem l i = Ok x.
Proof. intros H. unfold getitem. rewrite H. reflexivity. Qed.

Lemma last_item_ok {A} (l : list A) :
  l <> [] -> exists x, last_item l = Ok x.
Proof.
  intros Hne. unfold last_item.
  destruct (last l) as [x|] eqn:Hl; [eauto|].
  apply last_None in Hl. contradiction.
Qed.

Lemma qsum_zeros (t : Tensor) : qsum (map (fun x => Qcabs (x - x)) t) = 0%Qc.
Proof.
  induction t as [|x t IH]; simpl; [reflexivity|].
  rewrite IH. replace (x - x)%Qc with 0%Qc by ring.
  apply Qc_is_canon. reflexivity.
Qed.

Lemma mae_error_diag (t : Tensor) : mae_error t t = 0%Qc.
Proof.
  unfold mae_error, reduce_mean. rewrite zip_with_diag.
  change (fmap ?f t) with (map f t).
  rewrite qsum_zeros. unfold Qcdiv. apply Qcmult_0_l.
Qed.

Lemma adversarial_loss_ok (p_hat : DisOut) :
  has_decisions p_hat -> exists adv_loss, adversarial_loss p_hat = Ok adv_loss.
Proof.
  intros Hdec. unfold adversarial_loss. apply for_range_ok.
  intros i acc Hi.
  destruct (lookup_lt_is_Some_2 p_hat i ltac:(lia)) as [s Hs].
  rewrite (getitem_lookup _ _ _ Hs). cbn [mbind result_bind].
  destruct (last_item_ok s) as [d ->].
  - eapply Forall_lookup_1 in Hdec; [exact Hdec | exact Hs].
  - cbn [mbind result_bind]. eauto.
Qed.

Lemma feature_matching_loss_matching (wt : Qc) (p_hat p : DisOut) :
  features_match p_hat p -> feature_matching_loss wt p_hat p = Ok 0%Qc.
Proof.
  intros Hmatch. unfold feature_matching_loss. apply for_range_const.
  intros i Hi.
  destruct (lookup_lt_is_Some_2 p_hat i ltac:(lia)) as [s_hat Hs_hat].
  rewrite (getitem_lookup _ _ _ Hs_hat). cbn [mbind result_bind].
  destruct (Hmatch i s_hat Hs_hat) as (s & Hs & Hlayers).
  apply for_range_const. intros j Hj.
  destruct (lookup_lt_is_Some_2 s_hat j ltac:(lia)) as [a Ha].
  rewrite (getitem_lookup _ _ _ Ha). cbn [mbind result_bind].
  rewrite (getitem_lookup _ _ _ Hs). cbn [mbind result_bind].
  rewrite (getitem_lookup s j a) by (rewrite Hlayers by lia; exact Ha).
  cbn [mbind result_bind].
  rewrite mae_error_diag. f_equal. ring.
Qed.

(** C6: with a single discriminator scale and one downsample scale the
    feature-matching weight is 2; and whenever [p] equals [p_hat] at every
    intermediate layer (each scale of [p_hat] having its decision), the
    generator step computes [fm_loss = 0] and [gen_loss = adv_loss]. *)
Theorem single_scale_matching_features (cfg : Config) (p_hat p : DisOut) :
  scales cfg = 1 ->
  length (downsample_scales cfg) = 1%nat ->
  feature_matching_weight cfg = Ok (qz 2) /\
  (features_match p_hat p ->
   has_decisions p_hat ->
   exists adv_loss,
     adversarial_loss p_hat = Ok adv_loss /\
     generator_losses cfg p_hat p = Ok (adv_loss, 0%Qc, adv_loss)).
Proof.
  intros Hscales Hds.
  assert (Hwt : feature_matching_weight cfg = Ok (qz 2)).
  { unfold feature_matching_weight. rewrite Hscales, Hds.
    cbn [Z.eqb mbind result_bind]. apply f_equal.
    apply Qc_is_canon. reflexivity. }
  split; [exact Hwt|].
  intros Hmatch Hdec.
  destruct (adversarial_loss_ok p_hat Hdec) as [adv_loss Hadv].
  exists adv_loss. split; [exact Hadv|].
  unfold generator_losses. rewrite Hadv, Hwt. cbn [mbind result_bind].
  rewrite (feature_matching_loss_matching _ _ _ Hmatch).
  cbn [mbind result_bind]. do 2 f_equal. ring.
Qed.

Lemma single_scale_matching_features_witness :
  let p_hat := [[[qz 1; qz 2]; [qz 3]]] in
  let p := [[[qz 1; qz 2]; [qz 5]]] in
  feature_matching_weight (Examples.toy_config false []) = Ok (qz 2) /\
  exists adv_loss,
    adversarial_loss p_hat = Ok adv_loss /\
    generator_losses (Examples.toy_config false []) p_hat p
      = Ok (adv_loss, 0%Qc, adv_loss).
Proof.
  intros p_hat p.
  destruct (single_scale_matching_features
              (Examples.toy_config false []) p_hat p) as [Hwt Hloss].
  - reflexivity.
  - reflexivity.
  - split; [exact Hwt|]. apply Hloss.
    + intros [|i] s_hat Hs; [|discriminate Hs].
      injection Hs as <-. exists [[qz 1; qz 2]; [qz 5]].
      split; [reflexivity|].
      intros [|j] Hj; [reflexivity | simpl in Hj; lia].
    + repeat constructor. discriminate.
Defined.

End LossFacts.

(** ** Properties of the training and evaluation steps *)

Module TrainerFacts.

Import Metrics Losses Trainer Statements LossFacts.

Section WithBackend.

Context (B : Backend) (cfg : Config).

(** *** Reasoning on computations *)

Lemma bind_ok {A C} (m : M B A) (k : A -> M B C) (st st' : St B) (a : A) :
  m st = (Ok a, st') -> (m ≫= k) st = k a st'.
Proof. intros H. unfold mbind, M_bind. rewrite H. reflexivity. Qed.

Lemma bind_raise {A C} (m : M B A) (k : A -> M B C) (st st' : St B) (e : exn) :
  m st = (Raise e, st') -> (m ≫= k) st = (Raise e, st').
Proof. intros H. unfold mbind, M_bind. rewrite H. reflexivity. Qed.

Lemma bind_inv_ok {A C} (m : M B A) (k : A -> M B C) (st st2 : St B) (c : C) :
  (m ≫= k) st = (Ok c, st2) ->
  exists a st1, m st = (Ok a, st1) /\ k a st1 = (Ok c, st2).
Proof.
  unfold mbind, M_bind. destruct (m st) as [[a|e] st1]; intros H.
  - eauto.
  - discriminate H.
Qed.

Lemma preserves_ret {X A} (f : St B -> X) (a : A) : preserves f (mret a : M B A).
Proof. intros st. reflexivity. Qed.

Lemma preserves_bind {X A C} (f : St B -> X) (m : M B A) (k : A -> M B C) :
  preserves f m -> (forall a, preserves f (k a)) -> preserves f (m ≫= k).
Proof.
  intros Hm Hk st. unfold mbind, M_bind.
  specialize (Hm st). destruct (m st) as [[a|e] st1]; simpl in *.
  - rewrite Hk. exact Hm.
  - exact Hm.
Qed.

Lemma preserves_get {X} (f : St B -> X) : preserves f (get B).
Proof. intros st. reflexivity. Qed.

Lemma preserves_lift {X A} (f : St B -> X) (r : result A) : preserves f (lift B r).
Proof. intros st. reflexivity. Qed.

Lemma preserves_modify {X} (f : St B -> X) (g : St B -> St B) :
  (forall st, f (g st) = f st) -> preserves f (modify B g).
Proof. intros H st. apply H. Qed.

Lemma preserves_do_io {X} (f : St B -> X) (op : io_op) (a : artifact) :
  (forall fs st, f (with_files fs st) = f st) -> preserves f (do_io B op a).
Proof.
  intros H st. unfold do_io.
  destruct (io_fails B op _); simpl; [reflexivity | apply (H _ st)].
Qed.

Ltac preserves_step :=
  first
    [ apply preserves_ret
    | apply preserves_get
    | apply preserves_lift
    | apply preserves_modify; intros; reflexivity
    | apply preserves_do_io; intros; reflexivity
    | apply preserves_bind; [| intros ?]
    | match goal with
      | |- preserves _ (let '(_, _) := ?x in _) => destruct x
      | |- preserves _ (if ?c then _ else _) => destruct c
      | |- preserves _ (match ?x with _ => _ end) => destruct x
      end ].

Ltac preserves_tac := repeat preserves_step.

Lemma preserves_update_train_metric {X} (f : St B -> X) key v :
  (forall d st, f (set_train_metrics B d st) = f st) ->
  preserves f (update_train_metric B key v).
Proof.
  intros H. unfold update_train_metric. preserves_tac.
  apply preserves_modify. intros. apply H.
Qed.

Lemma preserves_update_eval_metric {X} (f : St B -> X) key v :
  (forall d st, f (set_eval_metrics B d st) = f st) ->
  preserves f (update_eval_metric B key v).
Proof.
  intros H. unfold update_eval_metric. preserves_tac.
  apply preserves_modify. intros. apply H.
Qed.

(** *** The discriminator step *)

(** C1: with discriminator mixed precision disabled the step never
    completes.  Line 170 differentiates [scaled_dis_loss], a name that is
    bound only under mixed precision (line 164): once the forward pass has
    produced the losses the step raises [UnboundLocalError], before any
    gradient is applied. *)
Theorem discriminator_step_unbound_local (y y_hat : AudioBatch) (st : St B) :
  is_discriminator_mixed_precision cfg = false ->
  (exists e, _one_step_discriminator B cfg y y_hat st = (Raise e, st)) /\
  (forall l,
     discriminator_forward B y y_hat (dis_w B (nets B st)) = Ok l ->
     _one_step_discriminator B cfg y y_hat st
       = (Raise (UnboundLocalError "scaled_dis_loss"), st)).
Proof.
  intros Hflag.
  assert (Hrun : forall l,
             discriminator_forward B y y_hat (dis_w B (nets B st)) = Ok l ->
             _one_step_discriminator B cfg y y_hat st
               = (Raise (UnboundLocalError "scaled_dis_loss"), st)).
  { intros [[real_loss fake_loss] dis_loss] Hfwd.
    unfold _one_step_discriminator. rewrite Hflag.
    unfold mbind at 1, M_bind, get. cbn beta iota.
    unfold mbind at 1, M_bind, lift. rewrite Hfwd. cbn beta iota.
    reflexivity. }
  split; [|exact Hrun].
  destruct (discriminator_forward B y y_hat (dis_w B (nets B st)))
    as [l|e] eqn:Hfwd.
  - eexists. apply (Hrun l). reflexivity.
  - exists e. unfold _one_step_discriminator.
    unfold mbind at 1, M_bind, get. cbn beta iota.
    unfold mbind at 1, M_bind, lift. rewrite Hfwd. reflexivity.
Qed.

(** *** The evaluation step *)

Lemma eval_step_losses_pure (batch : Batch) :
  preserves (fun st => st) (eval_step_losses B cfg batch).
Proof.
  unfold eval_step_losses, predict, call_discriminator. preserves_tac.
Qed.

(** *** The counters of the training step *)

Lemma generator_step_keeps {X} (f : St B -> X) y mels :
  (forall n st, f (set_nets B n st) = f st) ->
  (forall d st, f (set_train_metrics B d st) = f st) ->
  preserves f (_one_step_generator B cfg y mels).
Proof.
  intros Hn Hd. unfold _one_step_generator.
  repeat first
    [ apply preserves_update_train_metric; exact Hd
    | apply preserves_modify; intros; apply Hn
    | preserves_step ].
Qed.

Lemma discriminator_step_keeps {X} (f : St B -> X) y y_hat :
  (forall n st, f (set_nets B n st) = f st) ->
  (forall d st, f (set_train_metrics B d st) = f st) ->
  preserves f (_one_step_discriminator B cfg y y_hat).
Proof.
  intros Hn Hd. unfold _one_step_discriminator.
  repeat first
    [ apply preserves_update_train_metric; exact Hd
    | apply preserves_modify; intros; apply Hn
    | preserves_step ].
Qed.

Lemma train_step_counters (batch : Batch) (st st' : St B) (r : result unit) :
  _train_step B cfg batch st = (r, st') -> counters_after_step cfg st r st'.
Proof.
  destruct batch as [y mels]. unfold _train_step. intros H.
  pose proof (generator_step_keeps (steps B) y mels
                ltac:(reflexivity) ltac:(reflexivity) st) as Hs1.
  pose proof (generator_step_keeps (finish_train B) y mels
                ltac:(reflexivity) ltac:(reflexivity) st) as Hf1.
  destruct (_one_step_generator B cfg y mels st)
    as [[[y' y_hat]|e] st1] eqn:Hg; simpl in Hs1, Hf1.
  2: { rewrite (bind_raise _ _ _ _ _ Hg) in H. injection H as <- <-.
       simpl. auto. }
  rewrite (bind_ok _ _ _ _ _ Hg) in H.
  pose proof (discriminator_step_keeps (steps B) y' y_hat
                ltac:(reflexivity) ltac:(reflexivity) st1) as Hs2.
  pose proof (discriminator_step_keeps (finish_train B) y' y_hat
                ltac:(reflexivity) ltac:(reflexivity) st1) as Hf2.
  destruct (_one_step_discriminator B cfg y' y_hat st1)
    as [[[]|e] st2] eqn:Hd; simpl in Hs2, Hf2.
  2: { rewrite (bind_raise _ _ _ _ _ Hd) in H. injection H as <- <-.
       simpl. split; congruence. }
  rewrite (bind_ok _ _ _ _ _ Hd) in H.
  unfold _check_train_finish, modify, get, mbind, M_bind, mret, M_ret in H.
  cbn in H.
  destruct (train_max_steps cfg <=? steps B st2 + 1) eqn:Hmax;
    injection H as <- <-; cbn; rewrite Hmax.
  - rewrite orb_true_r. split; [congruence | reflexivity].
  - rewrite orb_false_r. split; congruence.
Qed.

(** *** When the steps return *)

Lemma same_shape_lookup {A} (p q : list (list A)) (i : nat) (s : list A) :
  map length p = map length q ->
  q !! i = Some s ->
  exists s', p !! i = Some s' /\ length s' = length s.
Proof.
  intros Hshape Hs.
  assert (H : map length p !! i = Some (length s)).
  { rewrite Hshape. change (map length q) with (length <$> q).
    rewrite list_lookup_fmap, Hs. reflexivity. }
  change (map length p) with (length <$> p) in H.
  rewrite list_lookup_fmap in H.
  destruct (p !! i) as [s'|]; [|discriminate H].
  injection H as H. eauto.
Qed.

Lemma decision_ok (p : DisOut) (i : nat) (s : list Tensor) :
  has_decisions p -> p !! i = Some s -> exists d, last_item s = Ok d.
Proof.
  intros Hdec Hs. apply last_item_ok.
  eapply Forall_lookup_1 in Hdec; [exact Hdec | exact Hs].
Qed.

Lemma feature_matching_loss_ok (wt : Qc) (p_hat p : DisOut) :
  map length p = map length p_hat ->
  exists fm_loss, feature_matching_loss wt p_hat p = Ok fm_loss.
Proof.
  intros Hshape. unfold feature_matching_loss. apply for_range_ok.
  intros i acc Hi.
  destruct (lookup_lt_is_Some_2 p_hat i ltac:(lia)) as [s_hat Hs_hat].
  rewrite (getitem_lookup _ _ _ Hs_hat). cbn [mbind result_bind].
  destruct (same_shape_lookup p p_hat i s_hat Hshape Hs_hat) as (s & Hs & Hlen).
  apply for_range_ok. intros j acc' Hj.
  destruct (lookup_lt_is_Some_2 s_hat j ltac:(lia)) as [a Ha].
  destruct (lookup_lt_is_Some_2 s j ltac:(lia)) as [b Hb].
  rewrite (getitem_lookup _ _ _ Ha). cbn [mbind result_bind].
  rewrite (getitem_lookup _ _ _ Hs). cbn [mbind result_bind].
  rewrite (getitem_lookup _ _ _ Hb). cbn [mbind result_bind]. eauto.
Qed.

Lemma real_fake_losses_ok (p p_hat : DisOut) :
  has_decisions p -> has_decisions p_hat ->
  map length p_hat = map length p ->
  exists l, real_fake_losses p p_hat = Ok l.
Proof.
  intros Hp Hp_hat Hshape. unfold real_fake_losses. apply for_range_ok.
  intros i [real_loss fake_loss] Hi.
  destruct (lookup_lt_is_Some_2 p i ltac:(lia)) as [s Hs].
  destruct (same_shape_lookup p_hat p i s Hshape Hs) as (s_hat & Hs_hat & _).
  destruct (decision_ok p i s Hp Hs) as [d Hd].
  destruct (decision_ok p_hat i s_hat Hp_hat Hs_hat) as [d_hat Hd_hat].
  rewrite (getitem_lookup _ _ _ Hs). cbn [mbind result_bind].
  rewrite Hd. cbn [mbind result_bind].
  rewrite (getitem_lookup _ _ _ Hs_hat). cbn [mbind result_bind].
  rewrite Hd_hat. cbn [mbind result_bind]. eauto.
Qed.

Lemma feature_matching_weight_ok :
  scales cfg <> 0 -> exists wt, feature_matching_weight cfg = Ok wt.
Proof.
  intros Hs. unfold feature_matching_weight.
  destruct (Z.eqb_spec (scales cfg) 0); [contradiction|].
  cbn [mbind result_bind]. eauto.
Qed.

Lemma registered_insert (d : gmap string Mean) (key : string) (m : Mean) :
  registered d -> registered (<[key := m]> d).
Proof.
  intros Hreg name Hin. destruct (decide (key = name)) as [->|Hne].
  - rewrite lookup_insert_eq. eauto.
  - rewrite lookup_insert_ne by exact Hne. apply Hreg. exact Hin.
Qed.

Lemma update_eval_metric_ok (key : string) (v : Qc) (st : St B) :
  registered (eval_metrics B st) -> In key list_metrics_name ->
  exists st',
    update_eval_metric B key v st = (Ok tt, st') /\
    registered (eval_metrics B st').
Proof.
  intros Hreg Hin. destruct (Hreg key Hin) as [m Hm].
  unfold update_eval_metric, metric_update, get, lift, modify.
  unfold mbind, M_bind. rewrite Hm. eexists. split; [reflexivity|].
  apply registered_insert. exact Hreg.
Qed.

Lemma update_train_metric_ok (key : string) (v : Qc) (st : St B) :
  registered (train_metrics B st) -> In key list_metrics_name ->
  exists st',
    update_train_metric B key v st = (Ok tt, st') /\
    registered (train_metrics B st').
Proof.
  intros Hreg Hin. destruct (Hreg key Hin) as [m Hm].
  unfold update_train_metric, metric_update, get, lift, modify.
  unfold mbind, M_bind. rewrite Hm. eexists. split; [reflexivity|].
  apply registered_insert. exact Hreg.
Qed.

Ltac metric_step lemma Hreg :=
  match goal with
  | |- context [(?upd _ ?key ?v ≫= _) ?st] =>
      let st1 := fresh "st" in
      let H1 := fresh "H" in
      let Hreg1 := fresh "Hreg" in
      destruct (lemma key v st Hreg ltac:(simpl; tauto))
        as (st1 & H1 & Hreg1);
      rewrite (bind_ok _ _ _ _ _ H1); clear H1
  end.

Lemma record_eval_losses_ok (l : Qc * Qc * Qc * Qc * Qc * Qc) (st : St B) :
  registered (eval_metrics B st) ->
  exists st',
    record_eval_losses B l st = (Ok tt, st') /\
    registered (eval_metrics B st').
Proof.
  intros Hreg.
  destruct l as [[[[[adv_loss fm_loss] gen_loss] real_loss] fake_loss] dis_loss].
  unfold record_eval_losses.
  metric_step update_eval_metric_ok Hreg.
  metric_step update_eval_metric_ok Hreg0.
  metric_step update_eval_metric_ok Hreg1.
  metric_step update_eval_metric_ok Hreg2.
  metric_step update_eval_metric_ok Hreg3.
  apply update_eval_metric_ok; [assumption | simpl; tauto].
Qed.

(** *** When the training step returns *)

Lemma generator_forward_ok dw y mels gw :
  well_shaped B -> scales cfg <> 0 ->
  exists r, generator_forward B cfg dw y mels gw = Ok r.
Proof.
  intros Hws Hsc. unfold generator_forward, generator_losses.
  set (y_hat := generator B gw mels).
  destruct (Hws dw y_hat) as [Hdec_hat Hshape_hat].
  destruct (adversarial_loss_ok _ Hdec_hat) as [adv_loss ->].
  cbn [mbind result_bind].
  destruct (feature_matching_weight_ok Hsc) as [wt ->].
  cbn [mbind result_bind].
  destruct (feature_matching_loss_ok wt _ _ (Hshape_hat (expand_dims y)))
    as [fm_loss ->].
  cbn [mbind result_bind]. eauto.
Qed.

Lemma discriminator_forward_ok y y_hat dw :
  well_shaped B ->
  exists r, discriminator_forward B y y_hat dw = Ok r.
Proof.
  intros Hws. unfold discriminator_forward, discriminator_losses.
  destruct (Hws dw y_hat) as [Hdec_hat _].
  destruct (Hws dw (expand_dims y)) as [Hdec Hshape].
  destruct (real_fake_losses_ok _ _ Hdec Hdec_hat (Hshape y_hat))
    as [[real_loss fake_loss] ->].
  cbn [mbind result_bind]. eauto.
Qed.

Lemma generator_step_ok y mels (st : St B) :
  well_shaped B -> scales cfg <> 0 ->
  registered (train_metrics B st) ->
  exists r st',
    _one_step_generator B cfg y mels st = (Ok r, st') /\
    registered (train_metrics B st').
Proof.
  intros Hws Hsc Hreg. unfold _one_step_generator.
  erewrite (bind_ok (get B)) by reflexivity.
  destruct (generator_forward_ok (dis_w B (nets B st)) y mels
              (gen_w B (nets B st)) Hws Hsc)
    as [[y_hat [[adv_loss fm_loss] gen_loss]] Hfwd].
  erewrite (bind_ok (lift B _)) by (unfold lift; rewrite Hfwd; reflexivity).
  cbn beta iota zeta.
  destruct (is_generator_mixed_precision cfg).
  all: erewrite (bind_ok (lift B _)) by reflexivity.
  all: cbn beta iota zeta.
  all: destruct (apply_gradients _ _ _ _) as [o' w'].
  all: erewrite (bind_ok (modify B _)) by reflexivity.
  all: metric_step update_train_metric_ok Hreg.
  all: metric_step update_train_metric_ok Hreg0.
  all: metric_step update_train_metric_ok Hreg1.
  all: eexists _, _; split; [reflexivity | assumption].
Qed.

Lemma discriminator_step_ok y y_hat (st : St B) :
  is_discriminator_mixed_precision cfg = true ->
  well_shaped B ->
  registered (train_metrics B st) ->
  exists st',
    _one_step_discriminator B cfg y y_hat st = (Ok tt, st') /\
    registered (train_metrics B st').
Proof.
  intros Hflag Hws Hreg. unfold _one_step_discriminator. rewrite Hflag.
  erewrite (bind_ok (get B)) by reflexivity.
  destruct (discriminator_forward_ok y y_hat (dis_w B (nets B st)) Hws)
    as [[[real_loss fake_loss] dis_loss] Hfwd].
  erewrite (bind_ok (lift B _)) by (unfold lift; rewrite Hfwd; reflexivity).
  cbn beta iota zeta.
  erewrite (bind_ok (lift B _)) by reflexivity.
  cbn beta iota zeta.
  destruct (apply_gradients _ _ _ _) as [o' w'].
  erewrite (bind_ok (modify B _)) by reflexivity.
  metric_step update_train_metric_ok Hreg.
  metric_step update_train_metric_ok Hreg0.
  apply update_train_metric_ok; [assumption | simpl; tauto].
Qed.

(** Under mixed precision the step of the source is the step of the
    specification; without it the specified step completes where the
    source raises. *)
Lemma discriminator_step_spec_agrees y y_hat (st : St B) :
  is_discriminator_mixed_precision cfg = true ->
  _one_step_discriminator B cfg y y_hat st
  = _one_step_discriminator_spec B cfg y y_hat st.
Proof.
  intros Hflag.
  unfold _one_step_discriminator, _one_step_discriminator_spec.
  rewrite Hflag. reflexivity.
Qed.

Lemma discriminator_step_spec_ok y y_hat (st : St B) :
  well_shaped B ->
  registered (train_metrics B st) ->
  exists st',
    _one_step_discriminator_spec B cfg y y_hat st = (Ok tt, st') /\
    registered (train_metrics B st').
Proof.
  intros Hws Hreg. unfold _one_step_discriminator_spec.
  erewrite (bind_ok (get B)) by reflexivity.
  destruct (discriminator_forward_ok y y_hat (dis_w B (nets B st)) Hws)
    as [[[real_loss fake_loss] dis_loss] Hfwd].
  erewrite (bind_ok (lift B _)) by (unfold lift; rewrite Hfwd; reflexivity).
  cbn beta iota zeta.
  destruct (apply_gradients _ _ _ _) as [o' w'].
  erewrite (bind_ok (modify B _)) by reflexivity.
  metric_step update_train_metric_ok Hreg.
  metric_step update_train_metric_ok Hreg0.
  apply update_train_metric_ok; [assumption | simpl; tauto].
Qed.

Lemma train_step_ok batch (st : St B) :
  is_discriminator_mixed_precision cfg = true ->
  well_shaped B -> scales cfg <> 0 ->
  registered (train_metrics B st) ->
  exists st',
    _train_step B cfg batch st = (Ok tt, st') /\
    registered (train_metrics B st').
Proof.
  intros Hflag Hws Hsc Hreg. destruct batch as [y mels]. unfold _train_step.
  destruct (generator_step_ok y mels st Hws Hsc Hreg)
    as ([y' y_hat] & st1 & H1 & Hreg1).
  rewrite (bind_ok _ _ _ _ _ H1).
  destruct (discriminator_step_ok y' y_hat st1 Hflag Hws Hreg1)
    as (st2 & H2 & Hreg2).
  rewrite (bind_ok _ _ _ _ _ H2).
  erewrite (bind_ok (modify B _)) by reflexivity.
  erewrite (bind_ok (modify B _)) by reflexivity.
  unfold _check_train_finish.
  erewrite (bind_ok (get B)) by reflexivity.
  destruct (train_max_steps cfg <=? _); eexists; split;
    first [reflexivity | exact Hreg2].
Qed.

Lemma train_steps_ok batches :
  is_discriminator_mixed_precision cfg = true ->
  well_shaped B -> scales cfg <> 0 ->
  forall st : St B,
    registered (train_metrics B st) ->
    exists st', train_steps B cfg batches st = (Ok tt, st').
Proof.
  intros Hflag Hws Hsc. induction batches as [|b bs IH]; intros st Hreg.
  - eexists. reflexivity.
  - cbn [train_steps].
    destruct (train_step_ok b st Hflag Hws Hsc Hreg) as (st1 & H1 & Hreg1).
    rewrite (bind_ok _ _ _ _ _ H1). apply IH. exact Hreg1.
Qed.

Lemma train_steps_app (consumed rest : list Batch) (st : St B) :
  train_steps B cfg (consumed ++ rest) st
  = (train_steps B cfg consumed ≫= fun _ => train_steps B cfg rest) st.
Proof.
  revert st. induction consumed as [|b bs IH]; intros st.
  - reflexivity.
  - cbn [app train_steps]. unfold mbind, M_bind.
    destruct (_train_step B cfg b st) as [[[]|e] st1]; [|reflexivity].
    rewrite IH. reflexivity.
Qed.

(** C4: over the successive training steps of a run, [steps] never
    decreases; each batch whose training step completes adds exactly one
    to it; and [finish_train] is a latch that is set exactly when a
    completed step leaves [steps >= train_max_steps]: after a run prefix
    it is true if and only if it was true before the run or the prefix is
    not empty and has brought [steps] to [train_max_steps] or beyond.
    The steps do complete when the discriminator runs under mixed
    precision, the discriminator is well shaped, [scales] is not zero and
    the metrics are registered. *)
Theorem train_counters (batches : list Batch) (st st' : St B) (r : result unit) :
  train_steps B cfg batches st = (r, st') ->
  steps B st <= steps B st' <= steps B st + Z.of_nat (length batches) /\
  (finish_train B st = true -> finish_train B st' = true) /\
  (r = Ok tt ->
   steps B st' = steps B st + Z.of_nat (length batches) /\
   (finish_train B st' = true <->
    finish_train B st = true \/
    (batches <> [] /\ train_max_steps cfg <= steps B st')) /\
   forall consumed rest, batches = consumed ++ rest ->
     exists st1,
       train_steps B cfg consumed st = (Ok tt, st1) /\
       train_steps B cfg rest st1 = (Ok tt, st')) /\
  (is_discriminator_mixed_precision cfg = true ->
   well_shaped B -> scales cfg <> 0 ->
   registered (train_metrics B st) ->
   r = Ok tt).
Proof.
  intros Hrun.
  enough (Hcounters :
    steps B st <= steps B st' <= steps B st + Z.of_nat (length batches) /\
    (finish_train B st = true -> finish_train B st' = true) /\
    (r = Ok tt ->
     steps B st' = steps B st + Z.of_nat (length batches) /\
     (finish_train B st' = true <->
      finish_train B st = true \/
      (batches <> [] /\ train_max_steps cfg <= steps B st')) /\
     forall consumed rest, batches = consumed ++ rest ->
       exists st1,
         train_steps B cfg consumed st = (Ok tt, st1) /\
         train_steps B cfg rest st1 = (Ok tt, st'))).
  { destruct Hcounters as (H1 & H2 & H3). repeat (split; [assumption|]).
    intros Hflag Hws Hsc Hreg.
    destruct (train_steps_ok batches Hflag Hws Hsc st Hreg) as [st2 Hok].
    rewrite Hok in Hrun. injection Hrun as <- _. reflexivity. }
  revert st Hrun. induction batches as [|b bs IH]; intros st Hrun.
  - injection Hrun as <- <-. cbn [length].
    split; [lia|]. split; [auto|]. intros _. split; [lia|]. split.
    + split; [auto|]. intros [Hfin|[Hne _]]; [exact Hfin | contradiction].
    + intros consumed rest Heq. symmetry in Heq.
      apply app_eq_nil in Heq as [-> ->]. exists st. split; reflexivity.
  - cbn [train_steps] in Hrun.
    destruct (_train_step B cfg b st) as [[[]|e] st1] eqn:Hb.
    2: { rewrite (bind_raise _ _ _ _ _ Hb) in Hrun. injection Hrun as <- <-.
         apply train_step_counters in Hb as [Hs Hf]. cbn [length].
         split; [lia|]. split; [congruence|]. discriminate. }
    rewrite (bind_ok _ _ _ _ _ Hb) in Hrun.
    pose proof (train_step_counters _ _ _ _ Hb) as [Hs Hf].
    destruct (IH st1 Hrun) as (Hmono & Hlatch & Hok).
    cbn [length]. split; [lia|]. split.
    { intros Hfin. apply Hlatch. rewrite Hf, Hfin. reflexivity. }
    intros ->. destruct (Hok eq_refl) as (Hsteps & Hfinish & Hsplit).
    split; [lia|]. split.
    + rewrite Hfinish, Hf, orb_true_iff, Z.leb_le. split.
      * intros [[H|H]|[_ H]]; [left; exact H | right | right];
          (split; [discriminate | lia]).
      * intros [H|[_ H]]; [left; left; exact H|].
        destruct bs as [|b' bs']; [left; right; cbn [length] in *; lia|].
        right. split; [discriminate | exact H].
    + intros [|c consumed] rest Heq.
      * exists st. split; [reflexivity|]. cbn [app] in Heq. subst rest.
        cbn [train_steps]. rewrite (bind_ok _ _ _ _ _ Hb). exact Hrun.
      * cbn [app] in Heq. injection Heq as <- ->.
        destruct (Hsplit consumed rest eq_refl) as (st2 & H1 & H2).
        exists st2. split; [|exact H2].
        cbn [train_steps]. rewrite (bind_ok _ _ _ _ _ Hb). exact H1.
Qed.

Lemma eval_step_losses_ok (batch : Batch) (st : St B) :
  well_shaped B -> scales cfg <> 0 ->
  exists l, eval_step_losses B cfg batch st = (Ok l, st).
Proof.
  intros Hws Hsc. destruct batch as [y mels].
  unfold eval_step_losses, predict, call_discriminator, get, lift.
  unfold mbind, M_bind, mret, M_ret. cbn beta iota.
  set (dw := dis_w B (nets B st)).
  set (y_hat := generator B (gen_w B (nets B st)) mels).
  destruct (Hws dw y_hat) as [Hdec_hat Hshape_hat].
  destruct (Hws dw (expand_dims y)) as [Hdec Hshape].
  destruct (adversarial_loss_ok _ Hdec_hat) as [adv_loss ->].
  destruct (feature_matching_weight_ok Hsc) as [wt ->].
  destruct (feature_matching_loss_ok wt _ _ (Hshape_hat (expand_dims y)))
    as [fm_loss ->].
  destruct (real_fake_losses_ok _ _ Hdec Hdec_hat (Hshape y_hat))
    as [[real_loss fake_loss] ->].
  eexists. reflexivity.
Qed.

Lemma eval_step_ok (batch : Batch) (st : St B) :
  well_shaped B -> scales cfg <> 0 ->
  registered (eval_metrics B st) ->
  exists st',
    _eval_step B cfg batch st = (Ok tt, st') /\
    registered (eval_metrics B st').
Proof.
  intros Hws Hsc Hreg. unfold _eval_step.
  destruct (eval_step_losses_ok batch st Hws Hsc) as [l Hl].
  rewrite (bind_ok _ _ _ _ _ Hl).
  apply record_eval_losses_ok. exact Hreg.
Qed.

(** *** The two applications of the discriminator in the evaluation step *)







(** *** The export of intermediate results *)

Lemma do_io_ok (op : io_op) (a : artifact) (st : St B) :
  never_fails B -> exists st', do_io B op a st = (Ok tt, st').
Proof.
  intros Hio. unfold do_io. rewrite Hio. eauto.
Qed.

Lemma save_pair_ok (idx : Z) (pair : Tensor * Tensor) (st : St B) :
  never_fails B -> exists st', save_pair B cfg idx pair st = (Ok tt, st').
Proof.
  intros Hio. destruct pair as [y y_]. unfold save_pair.
  erewrite (bind_ok (get B)) by reflexivity.
  destruct (do_io_ok (Savefig (steps B st) idx)
              (Figure (steps B st) idx y y_) st Hio) as [st1 H1].
  rewrite (bind_ok _ _ _ _ _ H1).
  destruct (do_io_ok (WriteWav (steps B st) idx true)
              (Wav (steps B st) idx true (clip (- (1))%Qc 1%Qc y)
                   (sampling_rate cfg)) st1 Hio) as [st2 H2].
  rewrite (bind_ok _ _ _ _ _ H2).
  apply do_io_ok. exact Hio.
Qed.

Lemma save_pairs_ok (idx : Z) (pairs : list (Tensor * Tensor)) (st : St B) :
  never_fails B -> exists st', save_pairs B cfg idx pairs st = (Ok tt, st').
Proof.
  intros Hio. revert st. induction pairs as [|pair pairs IH]; intros st.
  - eexists. reflexivity.
  - cbn [save_pairs].
    destruct (save_pair_ok idx pair st Hio) as [st1 H1].
    rewrite (bind_ok _ _ _ _ _ H1). apply IH.
Qed.

Lemma generate_and_save_ok (batch : Batch) (idx : Z) (st : St B) :
  never_fails B ->
  exists st', generate_and_save_intermediate_result B cfg batch idx st
              = (Ok tt, st').
Proof.
  intros Hio. destruct batch as [y_batch x_batch].
  unfold generate_and_save_intermediate_result.
  erewrite (bind_ok (predict B x_batch)) by reflexivity.
  erewrite (bind_ok (get B)) by reflexivity.
  destruct (existsb _ _).
  - erewrite bind_ok by reflexivity. apply save_pairs_ok. exact Hio.
  - destruct (do_io_ok (Makedirs (steps B st)) (Dir (steps B st)) st Hio)
      as [st1 H1].
    rewrite (bind_ok _ _ _ _ _ H1). apply save_pairs_ok. exact Hio.
Qed.

Lemma generate_and_save_keeps {X} (f : St B -> X) batch idx :
  (forall fs st, f (with_files fs st) = f st) ->
  preserves f (generate_and_save_intermediate_result B cfg batch idx).
Proof.
  intros Hw. destruct batch as [y_batch x_batch].
  unfold generate_and_save_intermediate_result, predict.
  assert (Hpairs : forall pairs, preserves f (save_pairs B cfg idx pairs)).
  { induction pairs as [|[y y_] pairs IH]; cbn [save_pairs].
    - apply preserves_ret.
    - unfold save_pair.
      repeat first [ exact IH
                   | apply preserves_do_io; exact Hw
                   | preserves_step ]. }
  repeat first [ apply Hpairs
               | apply preserves_do_io; exact Hw
               | preserves_step ].
Qed.

Lemma eval_step_keeps {X} (f : St B -> X) batch :
  (forall d st, f (set_eval_metrics B d st) = f st) ->
  preserves f (_eval_step B cfg batch).
Proof.
  intros Hd. unfold _eval_step. apply preserves_bind.
  - intros st. rewrite eval_step_losses_pure. reflexivity.
  - intros [[[[[adv_loss fm_loss] gen_loss] real_loss] fake_loss] dis_loss].
    unfold record_eval_losses.
    repeat first [ apply preserves_update_eval_metric; exact Hd
                 | preserves_step ].
Qed.

(** *** The evaluation epoch *)

Lemma eval_loop_cons (k : Z) (v : option Z) (batch : Batch)
    (rest : list Batch) (st : St B) :
  eval_loop B cfg k v (batch :: rest) st
  = (eval_iteration B cfg k batch ≫= fun _ =>
     eval_loop B cfg (k + 1) (Some k) rest) st.
Proof.
  cbn [eval_loop]. unfold eval_iteration, mbind, M_bind.
  destruct (_eval_step B cfg batch st) as [[[]|e] st1]; [|reflexivity].
  destruct (if k <=? num_save_intermediate_results cfg then _ else _)
    as [[[]|e] st2]; reflexivity.
Qed.

Lemma eval_loop_app (pre rest : list Batch) :
  forall (k : Z) (v : option Z) (st : St B),
    eval_loop B cfg k v (pre ++ rest) st
    = (eval_loop B cfg k v pre ≫= fun v' =>
       eval_loop B cfg (k + Z.of_nat (length pre)) v' rest) st.
Proof.
  induction pre as [|b pre IH]; intros k v st.
  - cbn [app length eval_loop]. unfold mbind, M_bind, mret, M_ret.
    rewrite Z.add_0_r. reflexivity.
  - cbn [app]. unfold mbind at 1, M_bind. rewrite !eval_loop_cons.
    unfold mbind at 1 2, M_bind.
    destruct (eval_iteration B cfg k b st) as [[[]|e] st1]; [|reflexivity].
    rewrite IH. unfold mbind, M_bind.
    replace (k + 1 + Z.of_nat (length pre))
      with (k + Z.of_nat (length (b :: pre))) by (cbn [length]; lia).
    reflexivity.
Qed.

Lemma eval_loop_variable (batches : list Batch) :
  forall (k : Z) (v v' : option Z) (st st' : St B),
    eval_loop B cfg k v batches st = (Ok v', st') ->
    v' = loop_variable k v batches.
Proof.
  induction batches as [|b bs IH]; intros k v v' st st' H.
  - injection H as <- _. reflexivity.
  - rewrite eval_loop_cons in H.
    apply bind_inv_ok in H as ([] & st1 & _ & H).
    apply IH in H. subst v'. unfold loop_variable.
    destruct bs; cbn [length]; f_equal; lia.
Qed.

Lemma eval_iteration_keeps {X} (f : St B -> X) k batch :
  (forall d st, f (set_eval_metrics B d st) = f st) ->
  (forall fs st, f (with_files fs st) = f st) ->
  preserves f (eval_iteration B cfg k batch).
Proof.
  intros Hd Hw. unfold eval_iteration. apply preserves_bind.
  - apply eval_step_keeps. exact Hd.
  - intros _. destruct (k <=? _).
    + apply generate_and_save_keeps. exact Hw.
    + apply preserves_ret.
Qed.

Lemma eval_loop_keeps {X} (f : St B -> X) batches :
  (forall d st, f (set_eval_metrics B d st) = f st) ->
  (forall fs st, f (with_files fs st) = f st) ->
  forall k v, preserves f (eval_loop B cfg k v batches).
Proof.
  intros Hd Hw. induction batches as [|b bs IH]; intros k v.
  - apply preserves_ret.
  - intros st. rewrite eval_loop_cons.
    apply (preserves_bind f (eval_iteration B cfg k b)
             (fun _ => eval_loop B cfg (k + 1) (Some k) bs)).
    + apply eval_iteration_keeps; assumption.
    + intros _. apply IH.
Qed.

Lemma eval_loop_ok (batches : list Batch) :
  well_shaped B -> scales cfg <> 0 -> never_fails B ->
  forall k v (st : St B),
    registered (eval_metrics B st) ->
    exists v' st', eval_loop B cfg k v batches st = (Ok v', st').
Proof.
  intros Hws Hsc Hio. induction batches as [|b bs IH]; intros k v st Hreg.
  - eexists _, _. reflexivity.
  - rewrite eval_loop_cons.
    destruct (eval_step_ok b st Hws Hsc Hreg) as (st1 & H1 & Hreg1).
    assert (H2 : exists st2, eval_iteration B cfg k b st = (Ok tt, st2) /\
                             registered (eval_metrics B st2)).
    { unfold eval_iteration. rewrite (bind_ok _ _ _ _ _ H1).
      destruct (k <=? _).
      - destruct (generate_and_save_ok b k st1 Hio) as [st2 Hsave].
        exists st2. split; [exact Hsave|].
        pose proof (generate_and_save_keeps (eval_metrics B) b k
                      ltac:(reflexivity) st1) as Hkeep.
        rewrite Hsave in Hkeep. simpl in Hkeep. rewrite Hkeep. exact Hreg1.
      - exists st1. split; [reflexivity | exact Hreg1]. }
    destruct H2 as (st2 & H2 & Hreg2).
    rewrite (bind_ok _ _ _ _ _ H2). apply IH. exact Hreg2.
Qed.

Lemma eval_epoch_loop_raises (st st' : St B) (e : exn) :
  eval_loop B cfg 1 None (eval_data_loader cfg) (started st) = (Raise e, st') ->
  _eval_epoch B cfg st = (Raise e, st').
Proof.
  intros H. unfold _eval_epoch.
  erewrite (bind_ok (get B)) by reflexivity.
  erewrite (bind_ok (log_info B _)) by reflexivity.
  apply bind_raise. exact H.
Qed.

Lemma eval_epoch_unbound (st st' : St B) :
  eval_loop B cfg 1 None (eval_data_loader cfg) (started st) = (Ok None, st') ->
  _eval_epoch B cfg st
  = (Raise (UnboundLocalError "eval_steps_per_epoch"), st').
Proof.
  intros H. unfold _eval_epoch.
  erewrite (bind_ok (get B)) by reflexivity.
  erewrite (bind_ok (log_info B _)) by reflexivity.
  rewrite (bind_ok _ _ _ _ _ H). reflexivity.
Qed.

Lemma eval_epoch_returns (st st' : St B) (n : Z) :
  eval_loop B cfg 1 None (eval_data_loader cfg) (started st)
    = (Ok (Some n), st') ->
  exists st'',
    _eval_epoch B cfg st = (Ok tt, st'') /\
    log B (world B st'')
    = log B (world B st')
      ++ [LogFinishedEval (steps B st') n;
          LogMetrics "eval" (steps B st')
                     (mean_result <$> eval_metrics B st')] /\
    summary B (world B st'')
    = summary B (world B st')
      ++ [("eval"%string, steps B st', mean_result <$> eval_metrics B st')] /\
    eval_metrics B st'' = reset_all (eval_metrics B st').
Proof.
  intros H. unfold _eval_epoch.
  erewrite (bind_ok (get B)) by reflexivity.
  erewrite (bind_ok (log_info B _)) by reflexivity.
  rewrite (bind_ok _ _ _ _ _ H).
  eexists. split; [reflexivity|]. cbn.
  rewrite <- app_assoc. repeat split; reflexivity.
Qed.

Lemma started_summary (st : St B) :
  summary B (world B (started st)) = summary B (world B st).
Proof. reflexivity. Qed.

(** C7 (amended): if the export of an intermediate result fails for one
    of the first [num_save_intermediate_results] batches, the exception
    leaves [_eval_epoch]: the evaluation pass stops at that batch with the
    trainer as the failed export left it, whatever batches remain; nothing
    has been written to the summary sink, and the evaluation metrics keep
    what the evaluated batches accumulated (they are not reset). *)
Theorem eval_epoch_export_failure (st st1 st2 st3 : St B)
    (pre rest : list Batch) (batch : Batch) (v : option Z) (e : exn) :
  eval_data_loader cfg = pre ++ batch :: rest ->
  eval_loop B cfg 1 None pre (started st) = (Ok v, st1) ->
  _eval_step B cfg batch st1 = (Ok tt, st2) ->
  1 + Z.of_nat (length pre) <= num_save_intermediate_results cfg ->
  generate_and_save_intermediate_result B cfg batch
    (1 + Z.of_nat (length pre)) st2 = (Raise e, st3) ->
  _eval_epoch B cfg st = (Raise e, st3) /\
  summary B (world B st3) = summary B (world B st) /\
  eval_metrics B st3 = eval_metrics B st2.
Proof.
  intros Hloader Hpre Hstep Hsave Hexport.
  assert (Hloop : eval_loop B cfg 1 None (eval_data_loader cfg) (started st)
                  = (Raise e, st3)).
  { rewrite Hloader, eval_loop_app, (bind_ok _ _ _ _ _ Hpre), eval_loop_cons.
    apply bind_raise. unfold eval_iteration.
    rewrite (bind_ok _ _ _ _ _ Hstep).
    destruct (Z.leb_spec (1 + Z.of_nat (length pre))
                (num_save_intermediate_results cfg)); [exact Hexport | lia]. }
  split; [apply eval_epoch_loop_raises; exact Hloop|]. split.
  - pose proof (eval_loop_keeps (fun s => summary B (world B s))
                  (eval_data_loader cfg) ltac:(reflexivity) ltac:(reflexivity)
                  1 None (started st)) as Hkeep.
    rewrite Hloop in Hkeep. exact Hkeep.
  - pose proof (generate_and_save_keeps (eval_metrics B) batch
                  (1 + Z.of_nat (length pre)) ltac:(reflexivity) st2) as Hkeep.
    rewrite Hexport in Hkeep. exact Hkeep.
Qed.

(** C10 (amended): with an empty evaluation data loader [_eval_epoch]
    raises [UnboundLocalError] at line 191, where it reads the loop
    variable that no iteration has bound; with at least one batch it
    returns provided no evaluation step and no export raises (the
    discriminator well shaped, [scales] not zero, the metrics registered
    and no file-system call failing), having logged the number of
    batches as the number of evaluation steps and flushed the metrics to
    the summary sink. *)
Theorem eval_epoch_needs_batches (st : St B) :
  (eval_data_loader cfg = [] ->
   _eval_epoch B cfg st
   = (Raise (UnboundLocalError "eval_steps_per_epoch"), started st)) /\
  (eval_data_loader cfg <> [] ->
   well_shaped B -> scales cfg <> 0 -> never_fails B ->
   registered (eval_metrics B st) ->
   exists st',
     _eval_epoch B cfg st = (Ok tt, st') /\
     In (LogFinishedEval (steps B st)
           (Z.of_nat (length (eval_data_loader cfg))))
        (log B (world B st')) /\
     length (summary B (world B st'))
     = S (length (summary B (world B st)))).
Proof.
  split.
  - intros Hempty. apply eval_epoch_unbound. rewrite Hempty. reflexivity.
  - intros Hne Hws Hsc Hio Hreg.
    destruct (eval_loop_ok (eval_data_loader cfg) Hws Hsc Hio 1 None
                (started st) Hreg) as (v & st1 & Hloop).
    pose proof (eval_loop_variable _ _ _ _ _ _ Hloop) as Hv.
    assert (Hn : v = Some (Z.of_nat (length (eval_data_loader cfg)))).
    { rewrite Hv. unfold loop_variable.
      destruct (eval_data_loader cfg); [contradiction|]. f_equal. lia. }
    clear Hv. subst v.
    pose proof (eval_loop_keeps (steps B) (eval_data_loader cfg)
                  ltac:(reflexivity) ltac:(reflexivity) 1 None (started st))
      as Hsteps.
    pose proof (eval_loop_keeps (fun s => summary B (world B s))
                  (eval_data_loader cfg) ltac:(reflexivity) ltac:(reflexivity)
                  1 None (started st)) as Hsum.
    rewrite Hloop in Hsteps, Hsum. simpl in Hsteps, Hsum.
    destruct (eval_epoch_returns st st1 _ Hloop) as (st' & Hrun & Hlog & Hs & _).
    exists st'. split; [exact Hrun|]. split.
    + rewrite Hlog, Hsteps. apply in_or_app. right. left. reflexivity.
    + rewrite Hs, Hsum, length_app. simpl. lia.
Qed.

Lemma started_eval_metrics (st : St B) :
  eval_metrics B (started st) = eval_metrics B st.
Proof. reflexivity. Qed.

(** An export whose first figure cannot be written raises. *)
Lemma generate_and_save_raises (y_batch : AudioBatch) (x_batch : MelBatch)
    (idx : Z) (st : St B) :
  (forall s fs, io_fails B (Makedirs s) fs = false) ->
  (forall s fs, io_fails B (Savefig s idx) fs = true) ->
  zip y_batch (generator B (gen_w B (nets B st)) x_batch) <> [] ->
  exists st',
    generate_and_save_intermediate_result B cfg (y_batch, x_batch) idx st
    = (Raise (OSError (Savefig (steps B st) idx)), st').
Proof.
  intros Hdir Hfig Hpairs.
  unfold generate_and_save_intermediate_result.
  erewrite (bind_ok (predict B x_batch)) by reflexivity.
  erewrite (bind_ok (get B)) by reflexivity.
  destruct (zip y_batch _) as [|[y y_] pairs]; [contradiction|].
  assert (Hsave : forall st1 : St B,
             steps B st1 = steps B st ->
             save_pairs B cfg idx ((y, y_) :: pairs) st1
             = (Raise (OSError (Savefig (steps B st) idx)), st1)).
  { intros st1 Hsteps. cbn [save_pairs]. apply bind_raise.
    unfold save_pair. erewrite (bind_ok (get B)) by reflexivity.
    apply bind_raise. unfold do_io. rewrite Hfig, Hsteps. reflexivity. }
  destruct (existsb _ _).
  - erewrite bind_ok by reflexivity. eexists. apply Hsave. reflexivity.
  - unfold do_io at 1. unfold mbind at 1, M_bind. rewrite Hdir.
    eexists. apply Hsave. reflexivity.
Qed.

(** *** The end of [main] *)

Lemma last_drop_lt {A} (l : list A) (n : nat) :
  (n < length l)%nat -> last (drop n l) = last l.
Proof.
  intros Hn. rewrite !last_lookup, lookup_drop, length_drop.
  f_equal. lia.
Qed.

(** C8: whatever the training loop does, if it is interrupted (it raises
    [KeyboardInterrupt], leaving the trainer in some state), [main]
    catches the interruption, saves a checkpoint and returns normally;
    the checkpoint it has just written is the most recent one of the
    store and holds the [steps] counter, the [epochs] counter and the
    networks of the interrupted trainer. *)
Theorem interrupt_saves_checkpoint (run : M B unit) (st st' : St B) :
  run st = (Raise KeyboardInterrupt, st') ->
  exists st'',
    main_training B run st = (Ok tt, st'') /\
    last (checkpoints B (world B st'')) = Some (snapshot B st') /\
    ckpt_steps B (snapshot B st') = steps B st' /\
    steps B st'' = steps B st' /\
    last (log B (world B st'')) = Some (LogSavedCheckpoint (steps B st')).
Proof.
  intros Hrun. unfold main_training. rewrite Hrun.
  eexists. split; [reflexivity|]. cbn.
  split; [|split; [reflexivity | split; [reflexivity | apply last_snoc]]].
  rewrite last_drop_lt.
  - apply last_snoc.
  - rewrite length_app. unfold max_to_keep. simpl. lia.
Qed.

End WithBackend.

(** *** The toy trainer *)

Import Examples.

Lemma toy_discriminator_shape (dw : Qc) (x : AudioBatch) :
  has_decisions (toy_discriminator dw x) /\
  forall x', map length (toy_discriminator dw x')
             = map length (toy_discriminator dw x).
Proof.
  split; [|reflexivity].
  unfold toy_discriminator. repeat constructor. discriminate.
Qed.

Lemma toy_well_shaped : well_shaped toy.
Proof. intros dw x. apply toy_discriminator_shape. Qed.

Lemma toy_full_disk_well_shaped : well_shaped toy_full_disk.
Proof. intros dw x. apply toy_discriminator_shape. Qed.

Lemma fresh_registered (B : Backend) gw dw go do :
  registered (train_metrics B (fresh B gw dw go do)) /\
  registered (eval_metrics B (fresh B gw dw go do)).
Proof.
  unfold fresh. cbn [train_metrics eval_metrics].
  split; intros name Hin;
    destruct (MetricsFacts.init_registers list_metrics_name name Hin)
      as [[m1 H1] [m2 H2]].
  - rewrite (MetricsFacts.reset_all_lookup _ _ _ H1). eauto.
  - rewrite (MetricsFacts.reset_all_lookup _ _ _ H2). eauto.
Qed.

Lemma discriminator_step_unbound_local_witness :
  _one_step_discriminator toy (toy_config false [])
    [[qz 1; qz 2]] [[qz 1; qz 3]] toy_st
  = (Raise (UnboundLocalError "scaled_dis_loss"), toy_st).
Proof.
  destruct (discriminator_step_unbound_local toy (toy_config false [])
              [[qz 1; qz 2]] [[qz 1; qz 3]] toy_st eq_refl) as [_ H].
  destruct (discriminator_forward_ok toy [[qz 1; qz 2]] [[qz 1; qz 3]]
              (dis_w toy (nets toy toy_st)) toy_well_shaped) as [l Hl].
  exact (H l Hl).
Defined.

Lemma train_counters_witness :
  let run := train_steps toy (toy_config true []) [batch1; batch2] toy_st in
  run.1 = Ok tt /\ steps toy run.2 = 2 /\ finish_train toy run.2 = true.
Proof.
  intros run.
  destruct (train_counters toy (toy_config true []) [batch1; batch2]
              toy_st run.2 run.1 (surjective_pairing run))
    as (_ & _ & Hok & Htotal).
  assert (Hr : run.1 = Ok tt).
  { apply Htotal.
    - reflexivity.
    - apply toy_well_shaped.
    - discriminate.
    - apply fresh_registered. }
  destruct (Hok Hr) as (Hsteps & Hfinish & _).
  split; [exact Hr|]. split; [exact Hsteps|].
  apply Hfinish. right. split; [discriminate|].
  rewrite Hsteps. simpl. lia.
Defined.

(** C7, as stated, fails: on a file system that cannot write figures,
    the evaluation epoch over two batches ends with the [OSError] of the
    first export instead of completing. *)
Lemma export_failure_aborts_evaluation :
  (_eval_epoch toy_full_disk (toy_config false [batch1; batch2])
     full_disk_st).1 = Raise (OSError (Savefig 0 1)) /\
  ~ eval_epoch_completes toy_full_disk (toy_config false [batch1; batch2])
      full_disk_st.
Proof.
  split.
  - vm_compute. reflexivity.
  - intros (st' & H & _). apply (f_equal fst) in H.
    vm_compute in H. discriminate H.
Qed.

Lemma eval_epoch_export_failure_witness :
  exists st2 st3,
    _eval_epoch toy_full_disk (toy_config false [batch1; batch2]) full_disk_st
    = (Raise (OSError (Savefig (steps toy_full_disk st2) 1)), st3) /\
    summary toy_full_disk (world toy_full_disk st3)
    = summary toy_full_disk (world toy_full_disk full_disk_st).
Proof.
  pose (cfg := toy_config false [batch1; batch2]).
  destruct (eval_step_ok toy_full_disk cfg batch1 (started full_disk_st))
    as (st2 & Hstep & _).
  { apply toy_full_disk_well_shaped. }
  { discriminate. }
  { rewrite started_eval_metrics. apply fresh_registered. }
  destruct (generate_and_save_raises toy_full_disk cfg
              batch1.1 batch1.2 1 st2) as (st3 & Hexport).
  { intros s fs. reflexivity. }
  { intros s fs. reflexivity. }
  { discriminate. }
  exists st2, st3.
  destruct (eval_epoch_export_failure toy_full_disk cfg
              full_disk_st (started full_disk_st) st2 st3
              [] [batch2] batch1 None
              (OSError (Savefig (steps toy_full_disk st2) 1)))
    as (Hrun & Hsummary & _).
  - reflexivity.
  - reflexivity.
  - exact Hstep.
  - simpl. lia.
  - exact Hexport.
  - split; [exact Hrun | exact Hsummary].
Defined.

(** C10, as stated, fails: on a file system that cannot write figures
    the evaluation epoch over a loader of one batch does not complete;
    the export of that batch raises. *)
Lemma eval_epoch_with_a_batch_raises :
  eval_data_loader (toy_config false [batch1]) <> [] /\
  (_eval_epoch toy_full_disk (toy_config false [batch1]) full_disk_st).1
  = Raise (OSError (Savefig 0 1)) /\
  ~ exists st',
      _eval_epoch toy_full_disk (toy_config false [batch1]) full_disk_st
      = (Ok tt, st').
Proof.
  split; [discriminate|]. split.
  - vm_compute. reflexivity.
  - intros (st' & H). apply (f_equal fst) in H.
    vm_compute in H. discriminate H.
Qed.


Lemma eval_epoch_needs_batches_witness :
  (_eval_epoch toy (toy_config false []) toy_st).1
  = Raise (UnboundLocalError "eval_steps_per_epoch") /\
  exists st',
    _eval_epoch toy (toy_config false [batch1; batch2]) toy_st = (Ok tt, st') /\
    In (LogFinishedEval (steps toy toy_st) 2) (log toy (world toy st')).
Proof.
  split.
  - rewrite (proj1 (eval_epoch_needs_batches toy (toy_config false []) toy_st)
                eq_refl).
    reflexivity.
  - destruct (proj2 (eval_epoch_needs_batches toy
                       (toy_config false [batch1; batch2]) toy_st))
      as (st' & Hrun & Hlog & _).
    + discriminate.
    + apply toy_well_shaped.
    + discriminate.
    + intros op fs. reflexivity.
    + apply fresh_registered.
    + exists st'. split; [exact Hrun | exact Hlog].
Defined.

Lemma interrupt_saves_checkpoint_witness :
  exists st' st'',
    train_steps toy (toy_config true []) [batch1; batch2] toy_st = (Ok tt, st') /\
    main_training toy interrupted_run toy_st = (Ok tt, st'') /\
    last (checkpoints toy (world toy st'')) = Some (snapshot toy st').
Proof.
  destruct (train_steps_ok toy (toy_config true []) [batch1; batch2]
              eq_refl toy_well_shaped ltac:(discriminate) toy_st)
    as [st' Hsteps].
  { apply fresh_registered. }
  destruct (interrupt_saves_checkpoint toy interrupted_run toy_st st')
    as (st'' & Hmain & Hlast & _).
  - unfold interrupted_run. rewrite Hsteps. reflexivity.
  - exists st', st''. repeat split; assumption.
Defined.

End TrainerFacts.

(** ** Further properties of the collater *)

Module CollaterMore.

Import Collater Statements CollaterFacts.

(** With [None] the window is the waveform length rounded down to a
    multiple of [hop_size]. *)
Lemma resolve_none (audio : list Qc) (hop_size : Z) :
  0 < hop_size ->
  Z.of_nat (length audio) <= int32_max ->
  resolve_batch_max_steps audio None hop_size
  = Ok (Z.of_nat (length audio) / hop_size * hop_size).
Proof.
  intros Hhop Ha. unfold resolve_batch_max_steps.
  rewrite (len_small audio) by exact Ha.
  rewrite floordiv_small by lia. cbn [mbind result_bind].
  pose proof (div_bounds (Z.of_nat (length audio)) hop_size ltac:(lia) Hhop).
  pose proof (Z.mul_div_le (Z.of_nat (length audio)) hop_size Hhop).
  rewrite int32_small; [reflexivity|]. unfold int32_min. nia.
Qed.

(** The cropping branch (lines 321-331), for either way of giving the
    window. *)
Lemma crop_branch (u : Z) (n_mels : nat) (audio : list Qc) (mel : list Frame)
    (obms : option Z) (bms hop_size : Z) :
  0 < hop_size -> 0 <= bms ->
  Z.of_nat (length audio) <= int32_max ->
  Z.of_nat (length mel) * hop_size <= int32_max ->
  resolve_batch_max_steps audio obms hop_size = Ok bms ->
  bms / hop_size < Z.of_nat (length mel) ->
  let start_frame := u mod (Z.of_nat (length mel) - bms / hop_size) in
  collater u n_mels audio mel obms hop_size
  = Ok (window (aligned audio mel hop_size) (start_frame * hop_size) bms,
        window mel start_frame (bms / hop_size)).
Proof.
  intros Hhop Hbms Ha Hm Hres Hlong sf.
  set (bmf := bms / hop_size) in *.
  pose proof (div_bounds bms hop_size Hbms Hhop) as Hd. fold bmf in Hd.
  assert (Hsf : 0 <= sf < Z.of_nat (length mel) - bmf)
    by (apply Z.mod_pos_bound; lia).
  pose proof (Z.div_mod bms hop_size ltac:(lia)) as Hdm. fold bmf in Hdm.
  pose proof (Z.mod_pos_bound bms hop_size Hhop) as Hmod.
  assert (Hwin : sf * hop_size + bms <= Z.of_nat (length mel) * hop_size)
    by nia.
  assert (Hss : 0 <= sf * hop_size) by nia.
  pose proof (aligned_length audio mel hop_size) as Hlen.
  unfold collater. rewrite Hres. cbn [mbind result_bind].
  rewrite floordiv_small by lia. cbn [mbind result_bind]. fold bmf.
  rewrite align_ok by assumption. cbn [mbind result_bind].
  rewrite (len_small mel) by nia.
  destruct (Z.ltb_spec bmf (Z.of_nat (length mel))); [|lia].
  unfold start_frame_of, random_uniform.
  rewrite (len_small mel) by nia.
  rewrite (int32_small (_ - _)) by (unfold int32_min; nia).
  destruct (Z.leb_spec (Z.of_nat (length mel) - bmf) 0); [lia|].
  cbn [mbind result_bind].
  rewrite Z.sub_0_r, Z.add_0_l. fold sf.
  rewrite (int32_small (sf * hop_size)) by (unfold int32_min; lia).
  rewrite (int32_small (sf * hop_size + _)) by (unfold int32_min; lia).
  rewrite (int32_small (sf + _)) by (unfold int32_min; nia).
  rewrite !slice_window by lia. reflexivity.
Qed.

(** The padding branch (lines 332-334), for either way of giving the
    window: it returns exactly when the aligned waveform fits. *)
Lemma pad_branch (u : Z) (n_mels : nat) (audio : list Qc) (mel : list Frame)
    (obms : option Z) (bms hop_size : Z) :
  0 < hop_size -> 0 <= bms <= int32_max ->
  Z.of_nat (length audio) <= int32_max ->
  resolve_batch_max_steps audio obms hop_size = Ok bms ->
  Z.of_nat (length mel) <= bms / hop_size ->
  collater u n_mels audio mel obms hop_size
  = if bms <? Z.of_nat (length audio)
    then Raise (InvalidArgumentError "Paddings must be non-negative")
    else Ok (aligned audio mel hop_size
               ++ repeat 0%Qc
                    (Z.to_nat (bms - Z.of_nat
                                       (length (aligned audio mel hop_size)))),
             mel ++ repeat (repeat 0%Qc n_mels)
                      (Z.to_nat (bms / hop_size - Z.of_nat (length mel)))).
Proof.
  intros Hhop Hbms Ha Hres Hshort.
  set (bmf := bms / hop_size) in *.
  pose proof (div_bounds bms hop_size ltac:(lia) Hhop) as Hd. fold bmf in Hd.
  pose proof (Z.mul_div_le bms hop_size Hhop) as Hle. fold bmf in Hle.
  assert (Hm : Z.of_nat (length mel) * hop_size <= bms) by nia.
  pose proof (aligned_length audio mel hop_size) as Hlen.
  unfold collater. rewrite Hres. cbn [mbind result_bind].
  rewrite floordiv_small by lia. cbn [mbind result_bind]. fold bmf.
  rewrite align_ok by lia. cbn [mbind result_bind].
  unfold Frame in *.
  rewrite (len_small mel) by lia.
  destruct (Z.ltb_spec bmf (Z.of_nat (length mel))); [lia|].
  rewrite (len_small (aligned audio mel hop_size)) by lia.
  rewrite (int32_small (bms - _)) by (unfold int32_min, int32_max in *; lia).
  rewrite (int32_small (bmf - _)) by (unfold int32_min; lia).
  destruct (Z.ltb_spec bms (Z.of_nat (length audio))).
  - unfold tf_pad.
    destruct (Z.ltb_spec
                (bms - Z.of_nat (length (aligned audio mel hop_size))) 0);
      [reflexivity | lia].
  - rewrite !tf_pad_ok by lia. reflexivity.
Qed.

(** Whatever the collater returns for a given window has the size of the
    window. *)
Lemma collater_shape (u : Z) (n_mels : nat) (audio : list Qc)
    (mel : list Frame) (batch_max_steps hop_size : Z) (a : list Qc)
    (m : list Frame) :
  0 < hop_size ->
  0 <= batch_max_steps <= int32_max ->
  Z.of_nat (length audio) <= int32_max ->
  Z.of_nat (length mel) * hop_size <= int32_max ->
  collater u n_mels audio mel (Some batch_max_steps) hop_size = Ok (a, m) ->
  Z.of_nat (length a) = batch_max_steps /\
  Z.of_nat (length m) = batch_max_steps / hop_size.
Proof.
  intros Hhop Hbms Ha Hm.
  set (bmf := batch_max_steps / hop_size).
  pose proof (div_bounds batch_max_steps hop_size ltac:(lia) Hhop) as Hd.
  pose proof (Z.div_mod batch_max_steps hop_size ltac:(lia)) as Hdm.
  pose proof (Z.mod_pos_bound batch_max_steps hop_size Hhop) as Hmod.
  pose proof (aligned_length audio mel hop_size) as Hlen.
  fold bmf in Hd, Hdm.
  destruct (Z.lt_ge_cases bmf (Z.of_nat (length mel))) as [Hlong|Hshort].
  - pose proof (crop_branch u n_mels audio mel (Some batch_max_steps)
                  batch_max_steps hop_size Hhop ltac:(lia) Ha Hm eq_refl Hlong)
      as Hcrop.
    cbv zeta in Hcrop. fold bmf in Hcrop.
    set (sf := u mod (Z.of_nat (length mel) - bmf)) in *.
    assert (Hsf : 0 <= sf < Z.of_nat (length mel) - bmf)
      by (apply Z.mod_pos_bound; lia).
    rewrite Hcrop. intros Heq. injection Heq as <- <-.
    split; apply window_length; nia.
  - pose proof (pad_branch u n_mels audio mel (Some batch_max_steps)
                  batch_max_steps hop_size Hhop Hbms Ha eq_refl Hshort)
      as Hpad.
    fold bmf in Hpad. rewrite Hpad.
    destruct (Z.ltb_spec batch_max_steps (Z.of_nat (length audio))).
    + intros Heq. discriminate Heq.
    + intros Heq. injection Heq as <- <-.
      rewrite !length_app, !repeat_length. unfold Frame in *. nia.
Qed.

(** X1: with a given window ([hop_size > 0], sizes within [int32]) the
    collater returns exactly when the features are longer than
    [batch_max_frames] or the waveform is not longer than
    [batch_max_steps]; and whatever it returns has exactly
    [batch_max_steps] samples and [batch_max_frames] frames. *)
Theorem collater_returns_fixed_shape (u : Z) (n_mels : nat) (audio : list Qc)
    (mel : list Frame) (batch_max_steps hop_size : Z) :
  0 < hop_size ->
  0 <= batch_max_steps <= int32_max ->
  Z.of_nat (length audio) <= int32_max ->
  Z.of_nat (length mel) * hop_size <= int32_max ->
  ((exists out,
      collater u n_mels audio mel (Some batch_max_steps) hop_size = Ok out) <->
   (batch_max_steps / hop_size < Z.of_nat (length mel) \/
    Z.of_nat (length audio) <= batch_max_steps)) /\
  (forall a m,
     collater u n_mels audio mel (Some batch_max_steps) hop_size = Ok (a, m) ->
     Z.of_nat (length a) = batch_max_steps /\
     Z.of_nat (length m) = batch_max_steps / hop_size).
Proof.
  intros Hhop Hbms Ha Hm.
  set (bmf := batch_max_steps / hop_size).
  pose proof (div_bounds batch_max_steps hop_size ltac:(lia) Hhop) as Hd.
  pose proof (Z.div_mod batch_max_steps hop_size ltac:(lia)) as Hdm.
  pose proof (Z.mod_pos_bound batch_max_steps hop_size Hhop) as Hmod.
  pose proof (aligned_length audio mel hop_size) as Hlen.
  fold bmf in Hd, Hdm.
  destruct (Z.lt_ge_cases bmf (Z.of_nat (length mel))) as [Hlong|Hshort].
  - pose proof (crop_branch u n_mels audio mel (Some batch_max_steps)
                  batch_max_steps hop_size Hhop ltac:(lia) Ha Hm eq_refl Hlong)
      as Hcrop.
    cbv zeta in Hcrop. fold bmf in Hcrop.
    set (sf := u mod (Z.of_nat (length mel) - bmf)) in *.
    assert (Hsf : 0 <= sf < Z.of_nat (length mel) - bmf)
      by (apply Z.mod_pos_bound; lia).
    rewrite Hcrop. split.
    + split; [intros _; left; exact Hlong | intros _; eauto].
    + intros a m Heq. injection Heq as <- <-.
      split; apply window_length; nia.
  - pose proof (pad_branch u n_mels audio mel (Some batch_max_steps)
                  batch_max_steps hop_size Hhop Hbms Ha eq_refl Hshort)
      as Hpad.
    fold bmf in Hpad. rewrite Hpad.
    destruct (Z.ltb_spec batch_max_steps (Z.of_nat (length audio))).
    + split.
      * split; [intros [out Hout]; discriminate Hout | intros [?|?]; lia].
      * intros a m Heq. discriminate Heq.
    + split.
      * split; [intros _; right; lia | intros _; eauto].
      * intros a m Heq. injection Heq as <- <-.
        rewrite !length_app, !repeat_length. unfold Frame in *. nia.
Qed.

Lemma collater_returns_fixed_shape_witness :
  exists a m,
    collater 0 1 [qz 1] [[qz 7]; [qz 8]] (Some 6) 2 = Ok (a, m) /\
    Z.of_nat (length a) = 6 /\ Z.of_nat (length m) = 6 / 2.
Proof.
  destruct (collater_returns_fixed_shape 0 1 [qz 1] [[qz 7]; [qz 8]] 6 2)
    as [Hiff Hshape].
  - lia.
  - unfold int32_max. lia.
  - unfold int32_max. simpl. lia.
  - unfold int32_max. simpl. lia.
  - destruct (proj2 Hiff) as [[a m] Hout].
    + right. simpl. lia.
    + exists a, m. split; [exact Hout | exact (Hshape a m Hout)].
Defined.

(** X2: when the features are longer than [batch_max_frames], the start
    frames the collater can crop at are exactly
    [0 .. len(mel) - batch_max_frames - 1]: every draw gives one of them
    and each of them is given by some draw.  The window that would end
    with the last frame of the features is never produced. *)
Theorem crop_start_frames (n_mels : nat) (audio : list Qc)
    (mel : list Frame) (batch_max_steps hop_size : Z) :
  0 < hop_size ->
  0 <= batch_max_steps ->
  Z.of_nat (length audio) <= int32_max ->
  Z.of_nat (length mel) * hop_size <= int32_max ->
  batch_max_steps / hop_size < Z.of_nat (length mel) ->
  let batch_max_frames := batch_max_steps / hop_size in
  let crop_at := fun start_frame =>
    Ok (window (aligned audio mel hop_size)
               (start_frame * hop_size) batch_max_steps,
        window mel start_frame batch_max_frames) in
  (forall u, exists start_frame,
     0 <= start_frame /\
     start_frame + batch_max_frames < Z.of_nat (length mel) /\
     collater u n_mels audio mel (Some batch_max_steps) hop_size
     = crop_at start_frame) /\
  (forall start_frame,
     0 <= start_frame ->
     start_frame + batch_max_frames < Z.of_nat (length mel) ->
     collater start_frame n_mels audio mel (Some batch_max_steps) hop_size
     = crop_at start_frame).
Proof.
  intros Hhop Hbms Ha Hm Hlong bmf crop_at. split.
  - intros u.
    exists (u mod (Z.of_nat (length mel) - bmf)).
    pose proof (Z.mod_pos_bound u (Z.of_nat (length mel) - bmf) ltac:(lia)).
    split; [lia|]. split; [lia|].
    apply crop_branch; auto.
  - intros sf H0 Hlt.
    rewrite (crop_branch sf n_mels audio mel (Some batch_max_steps)
               batch_max_steps hop_size) by auto.
    cbv zeta. fold bmf. rewrite Z.mod_small by lia. reflexivity.
Qed.

Lemma crop_start_frames_witness :
  collater 1 1 (map qz [1; 2; 3; 4; 5; 6; 7; 8]) [[qz 7]; [qz 8]; [qz 9]; [qz 10]]
           (Some 4) 2
  = Ok (map qz [3; 4; 5; 6], [[qz 8]; [qz 9]]).
Proof.
  pose proof (crop_start_frames 1 (map qz [1; 2; 3; 4; 5; 6; 7; 8])
                [[qz 7]; [qz 8]; [qz 9]; [qz 10]] 4 2) as H.
  cbv zeta in H. destruct H as [_ Hreach].
  - lia.
  - lia.
  - unfold int32_max. simpl. lia.
  - unfold int32_max. simpl. lia.
  - change (4 / 2) with 2. simpl. lia.
  - rewrite (Hreach 1).
    + reflexivity.
    + lia.
    + change (4 / 2) with 2. simpl. lia.
Defined.

(** X3: in evaluation mode ([batch_max_steps=None]) with features no
    longer than [floor(len(audio) / hop_size)] frames, the collater
    returns the waveform unchanged and the features zero-padded to
    [len(audio) / hop_size] frames when [hop_size] divides the waveform
    length, and raises on the negative padding of line 333 otherwise. *)
Theorem collater_full_length (u : Z) (n_mels : nat) (audio : list Qc)
    (mel : list Frame) (hop_size : Z) :
  0 < hop_size ->
  Z.of_nat (length audio) <= int32_max ->
  Z.of_nat (length mel) <= Z.of_nat (length audio) / hop_size ->
  collater u n_mels audio mel None hop_size
  = if Z.of_nat (length audio) mod hop_size =? 0
    then Ok (audio,
             mel ++ repeat (repeat 0%Qc n_mels)
                      (Z.to_nat (Z.of_nat (length audio) / hop_size
                                 - Z.of_nat (length mel))))
    else Raise (InvalidArgumentError "Paddings must be non-negative").
Proof.
  intros Hhop Ha Hshort.
  set (La := Z.of_nat (length audio)) in *.
  pose proof (div_bounds La hop_size ltac:(lia) Hhop) as Hd.
  pose proof (Z.div_mod La hop_size ltac:(lia)) as Hdm.
  pose proof (Z.mod_pos_bound La hop_size Hhop) as Hmod.
  assert (Hq : La / hop_size * hop_size / hop_size = La / hop_size)
    by (apply Z.div_mul; lia).
  rewrite (pad_branch u n_mels audio mel None (La / hop_size * hop_size)
             hop_size Hhop ltac:(nia) Ha (resolve_none audio hop_size Hhop Ha)
             ltac:(rewrite Hq; exact Hshort)).
  rewrite Hq. fold La.
  destruct (Z.eqb_spec (La mod hop_size) 0) as [Hdiv|Hrem];
    destruct (Z.ltb_spec (La / hop_size * hop_size) La);
    try lia; try reflexivity.
  rewrite aligned_id by (fold La; nia).
  replace (Z.to_nat (La / hop_size * hop_size - Z.of_nat (length audio)))
    with 0%nat by (fold La; lia).
  cbn [repeat]. rewrite app_nil_r. reflexivity.
Qed.

Lemma collater_full_length_witness :
  collater 0 1 (map qz [1; 2; 3; 4]) [[qz 7]] None 2
  = Ok (map qz [1; 2; 3; 4], [[qz 7]; [qz 0]]) /\
  collater 0 1 (map qz [1; 2; 3; 4; 5]) [[qz 7]] None 2
  = Raise (InvalidArgumentError "Paddings must be non-negative").
Proof.
  split.
  - rewrite (collater_full_length 0 1 (map qz [1; 2; 3; 4]) [[qz 7]] 2).
    + reflexivity.
    + lia.
    + unfold int32_max. simpl. lia.
    + change (Z.of_nat (length (map qz [1; 2; 3; 4])) / 2) with 2. simpl. lia.
  - rewrite (collater_full_length 0 1 (map qz [1; 2; 3; 4; 5]) [[qz 7]] 2).
    + reflexivity.
    + lia.
    + unfold int32_max. simpl. lia.
    + change (Z.of_nat (length (map qz [1; 2; 3; 4; 5])) / 2) with 2.
      simpl. lia.
Defined.

(** X4: in evaluation mode with features longer than
    [floor(len(audio) / hop_size)] frames the example is not kept whole:
    the collater crops it at a drawn start frame to
    [floor(len(audio) / hop_size)] frames and as many hops of the aligned
    waveform. *)
Theorem collater_full_length_crops (u : Z) (n_mels : nat) (audio : list Qc)
    (mel : list Frame) (hop_size : Z) :
  0 < hop_size ->
  Z.of_nat (length audio) <= int32_max ->
  Z.of_nat (length mel) * hop_size <= int32_max ->
  Z.of_nat (length audio) / hop_size < Z.of_nat (length mel) ->
  let frames := Z.of_nat (length audio) / hop_size in
  exists start_frame a m,
    0 <= start_frame < Z.of_nat (length mel) - frames /\
    collater u n_mels audio mel None hop_size = Ok (a, m) /\
    a = window (aligned audio mel hop_size) (start_frame * hop_size)
               (frames * hop_size) /\
    m = window mel start_frame frames /\
    Z.of_nat (length a) = frames * hop_size /\
    Z.of_nat (length m) = frames.
Proof.
  intros Hhop Ha Hm Hlong frames.
  set (La := Z.of_nat (length audio)) in *.
  pose proof (div_bounds La hop_size ltac:(lia) Hhop) as Hd. fold frames in Hd.
  assert (Hq : frames * hop_size / hop_size = frames)
    by (apply Z.div_mul; lia).
  pose proof (crop_branch u n_mels audio mel None (frames * hop_size) hop_size
                Hhop ltac:(nia) Ha Hm (resolve_none audio hop_size Hhop Ha)
                ltac:(rewrite Hq; exact Hlong)) as Hcrop.
  cbv zeta in Hcrop. rewrite Hq in Hcrop.
  set (sf := u mod (Z.of_nat (length mel) - frames)) in *.
  assert (Hsf : 0 <= sf < Z.of_nat (length mel) - frames)
    by (apply Z.mod_pos_bound; lia).
  pose proof (aligned_length audio mel hop_size) as Hlen.
  exists sf. eexists _, _. split; [exact Hsf|]. split; [exact Hcrop|].
  split; [reflexivity|]. split; [reflexivity|].
  split; apply window_length; nia.
Qed.

Lemma collater_full_length_crops_witness :
  exists start_frame a m,
    0 <= start_frame < 3 - 1 /\
    collater 1 1 (map qz [1; 2; 3]) [[qz 7]; [qz 8]; [qz 9]] None 2 = Ok (a, m) /\
    Z.of_nat (length a) = 2 /\ Z.of_nat (length m) = 1.
Proof.
  destruct (collater_full_length_crops 1 1 (map qz [1; 2; 3])
              [[qz 7]; [qz 8]; [qz 9]] 2)
    as (sf & a & m & Hsf & Hrun & _ & _ & Ha & Hm).
  - lia.
  - unfold int32_max. simpl. lia.
  - unfold int32_max. simpl. lia.
  - change (Z.of_nat (length (map qz [1; 2; 3])) / 2) with 1. simpl. lia.
  - exists sf, a, m.
    split; [exact Hsf|]. split; [exact Hrun|]. split; [exact Ha | exact Hm].
Defined.

End CollaterMore.

(** ** Further properties of the metrics *)

Module MetricsMore.

Import Metrics Statements MetricsFacts.

Lemma init_lookup_gen (names : list string) (name : string) :
  forall acc : gmap string Mean * gmap string Mean,
    let r := foldl (fun '(train, eval) name =>
                      (<[name := new_mean ("train_" ++ name)]> train,
                       <[name := new_mean ("eval_" ++ name)]> eval))
                   acc names in
    r.1 !! name = (if decide (name ∈ names)
                   then Some (new_mean ("train_" ++ name)) else acc.1 !! name) /\
    r.2 !! name = (if decide (name ∈ names)
                   then Some (new_mean ("eval_" ++ name)) else acc.2 !! name).
Proof.
  induction names as [|n names IH]; intros [tr ev]; cbn [foldl].
  - cbv zeta. repeat case_decide; try (split; reflexivity).
    all: exfalso; eapply not_elem_of_nil; eassumption.
  - destruct (IH (<[n := new_mean ("train_" ++ n)]> tr,
                  <[n := new_mean ("eval_" ++ n)]> ev)) as [H1 H2].
    cbv zeta. rewrite H1, H2. cbn [fst snd].
    destruct (decide (n = name)) as [->|Hne].
    + rewrite !lookup_insert_eq.
      repeat case_decide; try (split; reflexivity).
      all: exfalso; match goal with H : _ ∉ _ :: _ |- _ => apply H; left end.
    + rewrite !lookup_insert_ne by exact Hne.
      repeat case_decide; try (split; reflexivity).
      all: exfalso.
      all: repeat match goal with
             | H : _ ∈ _ :: _ |- _ => apply elem_of_cons in H as [?|?]
             | H : _ ∉ _ :: _ |- _ =>
                 apply not_elem_of_cons in H as [? ?]
             end; congruence.
Qed.

(** X5: [init_train_eval_metrics] registers exactly the names of its
    list, in both dictionaries, each with a fresh accumulator (total and
    count zero) named after the phase and the metric; a name listed twice
    is registered once. *)
Theorem init_registers_exactly (names : list string) (name : string) :
  (init_train_eval_metrics names).1 !! name
  = (if decide (name ∈ names)
     then Some (new_mean ("train_" ++ name)) else None) /\
  (init_train_eval_metrics names).2 !! name
  = (if decide (name ∈ names)
     then Some (new_mean ("eval_" ++ name)) else None).
Proof.
  exact (init_lookup_gen names name (∅, ∅)).
Qed.

(** X6: the accumulator of a metric, hence its result, is determined by
    the values passed to that metric, in their order: two sequences of
    updates of registered metrics that pass it the same values, whatever
    updates of other metrics they interleave and wherever, both go
    through and leave it the same total, count and result. *)
Theorem result_ignores_other_metrics (d : gmap string Mean)
    (us us' : list (string * Float32.float32)) (name : string) :
  is_Some (d !! name) ->
  Forall (fun kv => is_Some (d !! kv.1)) us ->
  Forall (fun kv => is_Some (d !! kv.1)) us' ->
  values_of name us = values_of name us' ->
  exists d1 d2,
    metric_updates us d = Ok d1 /\
    metric_updates us' d = Ok d2 /\
    d1 !! name = d2 !! name /\
    metric_result name d1 = metric_result name d2.
Proof.
  intros [m Hm] Hreg Hreg' Hsame.
  destruct (metric_updates_accumulate us d Hreg) as (d1 & Hrun1 & Hacc1).
  destruct (metric_updates_accumulate us' d Hreg') as (d2 & Hrun2 & Hacc2).
  exists d1, d2. split; [exact Hrun1|]. split; [exact Hrun2|].
  destruct (Hacc1 name m Hm) as (m1 & Hm1 & Hn1 & Ht1 & Hc1).
  destruct (Hacc2 name m Hm) as (m2 & Hm2 & Hn2 & Ht2 & Hc2).
  rewrite Hsame in Ht1, Hc1.
  assert (Heq : m1 = m2).
  { destruct m1, m2. cbn in *. congruence. }
  unfold metric_result. rewrite Hm1, Hm2, Heq. split; reflexivity.
Qed.

Lemma result_ignores_other_metrics_witness :
  let d := (init_train_eval_metrics list_metrics_name).1 in
  let v1 := Float32.of_Qc (qz 1) in
  let v3 := Float32.of_Qc (qz 3) in
  let v5 := Float32.of_Qc (qz 5) in
  exists d1 d2,
    metric_updates [("gen_loss", v1); ("fm_loss", v5); ("gen_loss", v3)]%string d
      = Ok d1 /\
    metric_updates [("dis_loss", v5); ("gen_loss", v1); ("gen_loss", v3)]%string d
      = Ok d2 /\
    metric_result "gen_loss" d1 = metric_result "gen_loss" d2.
Proof.
  intros d v1 v3 v5.
  destruct (result_ignores_other_metrics d
              [("gen_loss", v1); ("fm_loss", v5); ("gen_loss", v3)]%string
              [("dis_loss", v5); ("gen_loss", v1); ("gen_loss", v3)]%string
              "gen_loss")
    as (d1 & d2 & H1 & H2 & _ & Hres).
  - apply init_registers. simpl. tauto.
  - repeat constructor; apply init_registers; simpl; tauto.
  - repeat constructor; apply init_registers; simpl; tauto.
  - rewrite !values_of_cons_eq.
    rewrite (values_of_cons_ne "gen_loss" "fm_loss") by discriminate.
    rewrite (values_of_cons_ne "gen_loss" "dis_loss") by discriminate.
    rewrite !values_of_cons_eq. reflexivity.
  - exists d1, d2. split; [exact H1|]. split; [exact H2 | exact Hres].
Defined.

(** X7: a sequence of updates goes through exactly when every name in it
    is registered; otherwise it raises [KeyError] for the first name that
    is not, as the update of that name does. *)
Theorem updates_fail_fast (d : gmap string Mean)
    (us : list (string * Float32.float32)) :
  match metric_updates us d with
  | Ok d' =>
      Forall (fun kv => is_Some (d !! kv.1)) us /\
      forall key, is_Some (d' !! key) <-> is_Some (d !! key)
  | Raise e =>
      exists before key v after,
        us = before ++ (key, v) :: after /\
        Forall (fun kv => is_Some (d !! kv.1)) before /\
        d !! key = None /\
        e = KeyError key
  end.
Proof.
  revert d. induction us as [|[key v] us IH]; intros d.
  - cbn [metric_updates]. split; [constructor | reflexivity].
  - cbn [metric_updates]. unfold metric_update.
    destruct (d !! key) as [m|] eqn:Hkey; cbn [mbind result_bind].
    + assert (Hdom : forall k, is_Some (<[key := update_state v m]> d !! k)
                               <-> is_Some (d !! k)).
      { intros k. destruct (decide (key = k)) as [->|Hne].
        - rewrite lookup_insert_eq, Hkey. split; eauto.
        - rewrite lookup_insert_ne by exact Hne. reflexivity. }
      specialize (IH (<[key := update_state v m]> d)).
      destruct (metric_updates us _) as [d'|e].
      * destruct IH as [Hreg Hsame]. split.
        -- constructor; [simpl; rewrite Hkey; eauto|].
           eapply Forall_impl; [exact Hreg|]. intros kv. apply Hdom.
        -- intros k. rewrite Hsame. apply Hdom.
      * destruct IH as (before & k & w & after & -> & Hreg & Hnone & ->).
        exists ((key, v) :: before), k, w, after.
        split; [reflexivity|]. split.
        -- constructor; [simpl; rewrite Hkey; eauto|].
           eapply Forall_impl; [exact Hreg|]. intros kv. apply Hdom.
        -- split; [|reflexivity].
           destruct (d !! k) as [mk|] eqn:Hk; [|reflexivity].
           assert (Hsome : is_Some (<[key := update_state v m]> d !! k))
             by (apply Hdom; eauto).
           rewrite Hnone in Hsome. destruct Hsome as [? Hs]. discriminate Hs.
    + exists [], key, v, us. repeat split; [constructor | exact Hkey].
Qed.

End MetricsMore.

(** ** Further properties of the trainer *)

Module TrainerMore.

Import Metrics Losses Trainer Statements MoreStatements Interval.
Import MetricsFacts LossFacts TrainerFacts.

Section WithBackend.

Context (B : Backend) (cfg : Config).

Ltac keeps_step :=
  first
    [ apply preserves_ret
    | apply preserves_get
    | apply preserves_lift
    | apply preserves_modify; intros; reflexivity
    | apply preserves_do_io; intros; reflexivity
    | apply preserves_update_train_metric; intros; reflexivity
    | apply preserves_update_eval_metric; intros; reflexivity
    | apply preserves_bind; [| intros ?]
    | match goal with
      | |- preserves _ (let '(_, _) := ?x in _) => destruct x
      | |- preserves _ (if ?c then _ else _) => destruct c
      | |- preserves _ (match ?x with _ => _ end) => destruct x
      end ].

Ltac keeps_tac := repeat keeps_step.

(** *** The steps of the two networks *)

Lemma update_train_metric_eq (key : string) (v : Qc) (st : St B) :
  update_train_metric B key v st
  = match metric_update key (Float32.of_Qc v) (train_metrics B st) with
    | Ok d => (Ok tt, set_train_metrics B d st)
    | Raise e => (Raise e, st)
    end.
Proof.
  unfold update_train_metric, get, lift, modify, mbind, M_bind.
  destruct (metric_update key _ (train_metrics B st)); reflexivity.
Qed.

Lemma update_eval_metric_eq (key : string) (v : Qc) (st : St B) :
  update_eval_metric B key v st
  = match metric_update key (Float32.of_Qc v) (eval_metrics B st) with
    | Ok d => (Ok tt, set_eval_metrics B d st)
    | Raise e => (Raise e, st)
    end.
Proof.
  unfold update_eval_metric, get, lift, modify, mbind, M_bind.
  destruct (metric_update key _ (eval_metrics B st)); reflexivity.
Qed.

(** The generator step: the forward pass, then the update of the
    weights, then the three metrics. *)
Lemma generator_step_run (y : AudioBatch) (mels : MelBatch) (st : St B) :
  _one_step_generator B cfg y mels st
  = match generator_forward B cfg (dis_w B (nets B st)) y mels
            (gen_w B (nets B st)) with
    | Ok (y_hat, (adv_loss, fm_loss, gen_loss)) =>
        (update_train_metric B "adversarial_loss" adv_loss;;
         update_train_metric B "fm_loss" fm_loss;;
         update_train_metric B "gen_loss" gen_loss;;
         mret (y, y_hat)) (set_nets B (generator_updated B cfg y mels st) st)
    | Raise e => (Raise e, st)
    end.
Proof.
  unfold _one_step_generator.
  erewrite (bind_ok B (get B)) by reflexivity.
  unfold generator_updated, generator_gradient.
  cbn beta zeta.
  destruct (generator_forward B cfg (dis_w B (nets B st)) y mels
              (gen_w B (nets B st)))
    as [[y_hat [[adv_loss fm_loss] gen_loss]]|e] eqn:Hfwd.
  2: { erewrite (bind_raise B (lift B _)) by reflexivity. reflexivity. }
  erewrite (bind_ok B (lift B _)) by reflexivity.
  cbn beta iota zeta.
  destruct (is_generator_mixed_precision cfg).
  all: erewrite (bind_ok B (lift B _)) by reflexivity.
  all: cbn beta iota zeta.
  all: destruct (apply_gradients _ _ _ _) as [o' w'].
  all: erewrite (bind_ok B (modify B _)) by reflexivity.
  all: reflexivity.
Qed.

Lemma train_updates_keep {X} (f : St B -> X) {A} (us : list (string * Qc)) (a : A) :
  (forall d st, f (set_train_metrics B d st) = f st) ->
  preserves f (foldr (fun kv k => update_train_metric B kv.1 kv.2;; k)
                 (mret a : M B A) us).
Proof.
  intros Hd. induction us as [|[key v] us IH]; cbn [foldr].
  - apply preserves_ret.
  - apply preserves_bind.
    + apply preserves_update_train_metric. exact Hd.
    + intros _. exact IH.
Qed.

Lemma generator_step_keeps_discriminator (y : AudioBatch) (mels : MelBatch)
    (st : St B) :
  dis_w B (nets B (_one_step_generator B cfg y mels st).2)
  = dis_w B (nets B st) /\
  dis_opt B (nets B (_one_step_generator B cfg y mels st).2)
  = dis_opt B (nets B st).
Proof.
  rewrite generator_step_run.
  destruct (generator_forward _ _ _ _ _ _)
    as [[y_hat [[adv_loss fm_loss] gen_loss]]|e].
  - pose proof (train_updates_keep (nets B)
                  [("adversarial_loss", adv_loss); ("fm_loss", fm_loss);
                   ("gen_loss", gen_loss)]%string (y, y_hat)
                  ltac:(reflexivity)
                  (set_nets B (generator_updated B cfg y mels st) st)) as H.
    cbn [foldr fst snd] in H. rewrite H. split; reflexivity.
  - split; reflexivity.
Qed.

(** X9: whether it returns or raises, the generator step touches nothing
    but the generator weights, the generator optimizer and the training
    metrics: the discriminator and its optimizer, the counters, the
    evaluation metrics, the log, the summary and the files are as
    before; and a failing forward pass leaves the whole trainer as it
    was. *)
Theorem generator_step_frame (y : AudioBatch) (mels : MelBatch) (st : St B) :
  let run := _one_step_generator B cfg y mels st in
  dis_w B (nets B run.2) = dis_w B (nets B st) /\
  dis_opt B (nets B run.2) = dis_opt B (nets B st) /\
  steps B run.2 = steps B st /\
  epochs B run.2 = epochs B st /\
  finish_train B run.2 = finish_train B st /\
  eval_metrics B run.2 = eval_metrics B st /\
  world B run.2 = world B st /\
  match generator_forward B cfg (dis_w B (nets B st)) y mels
          (gen_w B (nets B st)) with
  | Raise e => run = (Raise e, st)
  | Ok _ => True
  end.
Proof.
  intros run. subst run.
  destruct (generator_step_keeps_discriminator y mels st) as [Hw Ho].
  split; [exact Hw|]. split; [exact Ho|].
  split; [apply (generator_step_keeps B cfg (steps B)); reflexivity|].
  split; [apply (generator_step_keeps B cfg (epochs B)); reflexivity|].
  split; [apply (generator_step_keeps B cfg (finish_train B)); reflexivity|].
  split; [apply (generator_step_keeps B cfg (eval_metrics B)); reflexivity|].
  split; [apply (generator_step_keeps B cfg (world B)); reflexivity|].
  rewrite generator_step_run.
  destruct (generator_forward _ _ _ _ _ _); [exact I | reflexivity].
Qed.

(** X10: a generator step that returns hands back the waveforms it was
    given together with the output the generator had BEFORE the update,
    and has applied to the generator the gradient of [gen_loss] (taken
    on the scaled loss and unscaled again under mixed precision); with a
    well-shaped discriminator, [scales] not zero and the metrics
    registered it does return, with or without mixed precision. *)
Theorem generator_step_result (y : AudioBatch) (mels : MelBatch) (st : St B) :
  (forall r st',
     _one_step_generator B cfg y mels st = (Ok r, st') ->
     r = (y, generator B (gen_w B (nets B st)) mels) /\
     nets B st' = generator_updated B cfg y mels st) /\
  (well_shaped B -> scales cfg <> 0 -> registered (train_metrics B st) ->
   exists r st', _one_step_generator B cfg y mels st = (Ok r, st')).
Proof.
  split.
  - intros r st' Hrun. rewrite generator_step_run in Hrun.
    destruct (generator_forward _ _ _ _ _ _)
      as [[y_hat [[adv_loss fm_loss] gen_loss]]|e] eqn:Hfwd;
      [|discriminate Hrun].
    pose proof (train_updates_keep (nets B)
                  [("adversarial_loss", adv_loss); ("fm_loss", fm_loss);
                   ("gen_loss", gen_loss)]%string (y, y_hat)
                  ltac:(reflexivity)
                  (set_nets B (generator_updated B cfg y mels st) st)) as Hn.
    cbn [foldr fst snd] in Hn. rewrite Hrun in Hn. cbn [snd] in Hn.
    split; [|exact Hn].
    apply (bind_inv_ok B) in Hrun as ([] & st1 & _ & Hrun).
    apply (bind_inv_ok B) in Hrun as ([] & st2 & _ & Hrun).
    apply (bind_inv_ok B) in Hrun as ([] & st3 & _ & Hrun).
    injection Hrun as <- _.
    unfold generator_forward in Hfwd.
    destruct (generator_losses _ _ _) as [l|e]; [|discriminate Hfwd].
    cbn [mbind result_bind] in Hfwd. injection Hfwd as <- _. reflexivity.
  - intros Hws Hsc Hreg.
    destruct (generator_step_ok B cfg y mels st Hws Hsc Hreg)
      as (r & st' & Hrun & _).
    eauto.
Qed.

(** The discriminator step under mixed precision. *)
Lemma discriminator_step_run (y y_hat : AudioBatch) (st : St B) :
  is_discriminator_mixed_precision cfg = true ->
  _one_step_discriminator B cfg y y_hat st
  = match discriminator_forward B y y_hat (dis_w B (nets B st)) with
    | Ok (real_loss, fake_loss, dis_loss) =>
        (update_train_metric B "real_loss" real_loss;;
         update_train_metric B "fake_loss" fake_loss;;
         update_train_metric B "dis_loss" dis_loss)
          (set_nets B (discriminator_updated B y y_hat st) st)
    | Raise e => (Raise e, st)
    end.
Proof.
  intros Hflag. unfold _one_step_discriminator. rewrite Hflag.
  erewrite (bind_ok B (get B)) by reflexivity.
  unfold discriminator_updated.
  cbn beta zeta.
  destruct (discriminator_forward B y y_hat (dis_w B (nets B st)))
    as [[[real_loss fake_loss] dis_loss]|e] eqn:Hfwd.
  2: { erewrite (bind_raise B (lift B _)) by reflexivity. reflexivity. }
  erewrite (bind_ok B (lift B _)) by reflexivity.
  cbn beta iota zeta.
  erewrite (bind_ok B (lift B _)) by reflexivity.
  cbn beta iota zeta.
  destruct (apply_gradients _ _ _ _) as [o' w'].
  erewrite (bind_ok B (modify B _)) by reflexivity.
  reflexivity.
Qed.

Lemma train_updates_keep_unit {X} (f : St B -> X) (k1 k2 k3 : string)
    (v1 v2 v3 : Qc) :
  (forall d st, f (set_train_metrics B d st) = f st) ->
  preserves f (update_train_metric B k1 v1;;
               update_train_metric B k2 v2;;
               update_train_metric B k3 v3).
Proof.
  intros Hd.
  repeat first [ apply preserves_update_train_metric; exact Hd
               | apply preserves_bind; [|intros _] ].
Qed.

(** X11: whether it returns or raises, with or without mixed precision,
    the discriminator step touches nothing but the discriminator weights,
    the discriminator optimizer and the training metrics: the generator
    and its optimizer, the counters, the evaluation metrics, the log,
    the summary and the files are as before. *)
Theorem discriminator_step_frame (y y_hat : AudioBatch) (st : St B) :
  let run := _one_step_discriminator B cfg y y_hat st in
  gen_w B (nets B run.2) = gen_w B (nets B st) /\
  gen_opt B (nets B run.2) = gen_opt B (nets B st) /\
  steps B run.2 = steps B st /\
  epochs B run.2 = epochs B st /\
  finish_train B run.2 = finish_train B st /\
  eval_metrics B run.2 = eval_metrics B st /\
  world B run.2 = world B st.
Proof.
  intros run. subst run.
  assert (Hnets : gen_w B (nets B (_one_step_discriminator B cfg y y_hat st).2)
                  = gen_w B (nets B st) /\
                  gen_opt B (nets B (_one_step_discriminator B cfg y y_hat st).2)
                  = gen_opt B (nets B st)).
  { destruct (is_discriminator_mixed_precision cfg) eqn:Hflag.
    - rewrite (discriminator_step_run y y_hat st Hflag).
      destruct (discriminator_forward _ _ _ _)
        as [[[real_loss fake_loss] dis_loss]|e].
      + pose proof (train_updates_keep_unit (nets B)
                      "real_loss" "fake_loss" "dis_loss"
                      real_loss fake_loss dis_loss ltac:(reflexivity)
                      (set_nets B (discriminator_updated B y y_hat st) st)) as H.
        rewrite H. split; reflexivity.
      + split; reflexivity.
    - unfold _one_step_discriminator. rewrite Hflag.
      erewrite (bind_ok B (get B)) by reflexivity. cbn beta zeta.
      destruct (discriminator_forward B y y_hat (dis_w B (nets B st)))
        as [[[real_loss fake_loss] dis_loss]|e].
      + erewrite (bind_ok B (lift B _)) by reflexivity. cbn beta iota zeta.
        erewrite (bind_raise B (lift B _)) by reflexivity.
        split; reflexivity.
      + erewrite (bind_raise B (lift B _)) by reflexivity.
        split; reflexivity. }
  destruct Hnets as [Hw Ho].
  split; [exact Hw|]. split; [exact Ho|].
  split; [apply (discriminator_step_keeps B cfg (steps B)); reflexivity|].
  split; [apply (discriminator_step_keeps B cfg (epochs B)); reflexivity|].
  split; [apply (discriminator_step_keeps B cfg (finish_train B)); reflexivity|].
  split; [apply (discriminator_step_keeps B cfg (eval_metrics B)); reflexivity|].
  apply (discriminator_step_keeps B cfg (world B)); reflexivity.
Qed.

(** X12: under discriminator mixed precision a discriminator step that
    returns has applied to the discriminator the unscaled gradient of the
    scaled [dis_loss], computed with the weights it started from; with a
    well-shaped discriminator and the metrics registered it does
    return. *)
Theorem discriminator_step_result (y y_hat : AudioBatch) (st : St B) :
  is_discriminator_mixed_precision cfg = true ->
  (forall st',
     _one_step_discriminator B cfg y y_hat st = (Ok tt, st') ->
     nets B st' = discriminator_updated B y y_hat st) /\
  (well_shaped B -> registered (train_metrics B st) ->
   exists st', _one_step_discriminator B cfg y y_hat st = (Ok tt, st')).
Proof.
  intros Hflag. split.
  - intros st' Hrun. rewrite (discriminator_step_run y y_hat st Hflag) in Hrun.
    destruct (discriminator_forward _ _ _ _)
      as [[[real_loss fake_loss] dis_loss]|e]; [|discriminate Hrun].
    pose proof (train_updates_keep_unit (nets B)
                  "real_loss" "fake_loss" "dis_loss"
                  real_loss fake_loss dis_loss ltac:(reflexivity)
                  (set_nets B (discriminator_updated B y y_hat st) st)) as H.
    rewrite Hrun in H. exact H.
  - intros Hws Hreg.
    destruct (discriminator_step_ok B cfg y y_hat st Hflag Hws Hreg)
      as (st' & Hrun & _).
    eauto.
Qed.

(** *** What a training step records *)

Lemma update_train_metric_inv (key : string) (v : Qc) (st st' : St B) :
  update_train_metric B key v st = (Ok tt, st') ->
  metric_update key (Float32.of_Qc v) (train_metrics B st)
  = Ok (train_metrics B st').
Proof.
  rewrite update_train_metric_eq.
  destruct (metric_update key _ (train_metrics B st)); intros H.
  - injection H as <-. reflexivity.
  - discriminate H.
Qed.

Lemma update_eval_metric_inv (key : string) (v : Qc) (st st' : St B) :
  update_eval_metric B key v st = (Ok tt, st') ->
  metric_update key (Float32.of_Qc v) (eval_metrics B st)
  = Ok (eval_metrics B st').
Proof.
  rewrite update_eval_metric_eq.
  destruct (metric_update key _ (eval_metrics B st)); intros H.
  - injection H as <-. reflexivity.
  - discriminate H.
Qed.

Lemma metric_updates_app (us1 us2 : list (string * Float32.float32)) :
  forall d d1 : gmap string Mean,
    metric_updates us1 d = Ok d1 ->
    metric_updates (us1 ++ us2) d = metric_updates us2 d1.
Proof.
  induction us1 as [|[key v] us1 IH]; intros d d1 H.
  - injection H as <-. reflexivity.
  - cbn [app metric_updates] in *.
    destruct (metric_update key v d) as [d0|e]; [|discriminate H].
    cbn [mbind result_bind] in *. apply IH. exact H.
Qed.

(** What a sequence of updates leaves under each name. *)
Lemma metric_updates_lookup (us : list (string * Float32.float32)) :
  forall (d d' : gmap string Mean) (name : string),
    metric_updates us d = Ok d' ->
    d' !! name
    = (fun m => foldl (fun m v => update_state v m) m (values_of name us))
        <$> d !! name.
Proof.
  induction us as [|[key v] us IH]; intros d d' name H.
  - injection H as <-. cbn. destruct (d !! name); reflexivity.
  - cbn [metric_updates] in H. unfold metric_update in H.
    destruct (d !! key) as [m0|] eqn:Hkey; [|discriminate H].
    cbn [mbind result_bind] in H.
    rewrite (IH _ _ name H).
    destruct (decide (key = name)) as [->|Hne].
    + rewrite lookup_insert_eq, Hkey, values_of_cons_eq. reflexivity.
    + rewrite lookup_insert_ne by exact Hne.
      rewrite values_of_cons_ne by exact Hne. reflexivity.
Qed.

Lemma six_values (l : Qc * Qc * Qc * Qc * Qc * Qc) (name : string) :
  values_of name (six_updates l)
  = if decide (name ∈ list_metrics_name) then [component name l] else [].
Proof.
  destruct l as [[[[[adv_loss fm_loss] gen_loss] real_loss] fake_loss] dis_loss].
  unfold component, six_updates, list_metrics_name.
  case_decide as Hin.
  - repeat (apply elem_of_cons in Hin as [->|Hin]).
    7: { apply elem_of_nil in Hin. contradiction. }
    all: repeat first [ rewrite values_of_cons_eq
                      | rewrite values_of_cons_ne by discriminate ].
    all: reflexivity.
  - repeat (apply not_elem_of_cons in Hin as [? Hin]).
    repeat (rewrite values_of_cons_ne by congruence). reflexivity.
Qed.

(** The six updates of a step, on a dictionary. *)
Lemma six_updates_lookup (l : Qc * Qc * Qc * Qc * Qc * Qc)
    (d d' : gmap string Mean) (name : string) :
  metric_updates (six_updates l) d = Ok d' ->
  d' !! name
  = if decide (name ∈ list_metrics_name)
    then update_state (component name l) <$> d !! name
    else d !! name.
Proof.
  intros H. rewrite (metric_updates_lookup _ _ _ name H), six_values.
  case_decide; destruct (d !! name); reflexivity.
Qed.

Lemma discriminator_step_needs_scaling (y y_hat : AudioBatch) (st : St B) :
  is_discriminator_mixed_precision cfg = false ->
  exists e, _one_step_discriminator B cfg y y_hat st = (Raise e, st).
Proof.
  intros Hflag. unfold _one_step_discriminator. rewrite Hflag.
  erewrite (bind_ok B (get B)) by reflexivity. cbn beta zeta.
  destruct (discriminator_forward B y y_hat (dis_w B (nets B st)))
    as [[[real_loss fake_loss] dis_loss]|e].
  - erewrite (bind_ok B (lift B _)) by reflexivity. cbn beta iota zeta.
    erewrite (bind_raise B (lift B _)) by reflexivity. eauto.
  - erewrite (bind_raise B (lift B _)) by reflexivity. eauto.
Qed.

(** X13: a training step that returns has recorded exactly one sample in
    each of the six training metrics and left every other entry of the
    dictionary alone.  The samples are the losses of the two forward
    passes, both taken with the weights the step started from: the
    discriminator is trained on the output of the generator before its
    update. *)
Theorem train_step_records_losses (y : AudioBatch) (mels : MelBatch)
    (st st' : St B) :
  _train_step B cfg (y, mels) st = (Ok tt, st') ->
  exists y_hat adv_loss fm_loss gen_loss real_loss fake_loss dis_loss,
    generator_forward B cfg (dis_w B (nets B st)) y mels (gen_w B (nets B st))
    = Ok (y_hat, (adv_loss, fm_loss, gen_loss)) /\
    y_hat = generator B (gen_w B (nets B st)) mels /\
    discriminator_forward B y y_hat (dis_w B (nets B st))
    = Ok (real_loss, fake_loss, dis_loss) /\
    forall name,
      train_metrics B st' !! name
      = if decide (name ∈ list_metrics_name)
        then update_state
               (component name (adv_loss, fm_loss, gen_loss,
                                real_loss, fake_loss, dis_loss))
             <$> train_metrics B st !! name
        else train_metrics B st !! name.
Proof.
  intros Hrun. unfold _train_step in Hrun.
  apply (bind_inv_ok B) in Hrun as ([y' y_hat] & st1 & Hgen & Hrun).
  apply (bind_inv_ok B) in Hrun as ([] & st2 & Hdis & Hrun).
  assert (Hlast : train_metrics B st' = train_metrics B st2).
  { assert (Hk : preserves (train_metrics B)
                   (modify B (fun st => set_steps B (steps B st + 1) st);;
                    modify B (fun st => set_tqdm_n B (tqdm_n B st + 1) st);;
                    _check_train_finish B cfg)).
    { unfold _check_train_finish. keeps_tac. }
    specialize (Hk st2). rewrite Hrun in Hk. exact Hk. }
  clear Hrun.
  destruct (generator_step_keeps_discriminator y mels st) as (Hdw & _).
  pose proof Hgen as Hgen'. rewrite generator_step_run in Hgen'.
  rewrite Hgen in Hdw. cbn [snd] in Hdw.
  destruct (generator_forward B cfg (dis_w B (nets B st)) y mels
              (gen_w B (nets B st)))
    as [[y_hat0 [[adv_loss fm_loss] gen_loss]]|e] eqn:Hfwd;
    [|discriminate Hgen'].
  apply (bind_inv_ok B) in Hgen' as ([] & s1 & Hu1 & Hgen').
  apply (bind_inv_ok B) in Hgen' as ([] & s2 & Hu2 & Hgen').
  apply (bind_inv_ok B) in Hgen' as ([] & s3 & Hu3 & Hgen').
  injection Hgen' as <- <- <-.
  apply update_train_metric_inv in Hu1, Hu2, Hu3.
  cbn [set_nets train_metrics] in Hu1.
  destruct (is_discriminator_mixed_precision cfg) eqn:Hflag.
  2: { destruct (discriminator_step_needs_scaling y y_hat0 s3 Hflag)
         as [e He].
       rewrite He in Hdis. discriminate Hdis. }
  rewrite (discriminator_step_run y y_hat0 s3 Hflag) in Hdis.
  rewrite Hdw in Hdis.
  destruct (discriminator_forward B y y_hat0 (dis_w B (nets B st)))
    as [[[real_loss fake_loss] dis_loss]|e] eqn:Hdfwd; [|discriminate Hdis].
  apply (bind_inv_ok B) in Hdis as ([] & s4 & Hu4 & Hdis).
  apply (bind_inv_ok B) in Hdis as ([] & s5 & Hu5 & Hu6).
  apply update_train_metric_inv in Hu4, Hu5, Hu6.
  cbn [set_nets train_metrics] in Hu4.
  exists y_hat0, adv_loss, fm_loss, gen_loss, real_loss, fake_loss, dis_loss.
  split; [reflexivity|]. split.
  { unfold generator_forward in Hfwd.
    destruct (generator_losses _ _ _) as [l|e]; [|discriminate Hfwd].
    cbn [mbind result_bind] in Hfwd. injection Hfwd as <- _. reflexivity. }
  split; [exact Hdfwd|].
  intros name. rewrite Hlast. apply six_updates_lookup.
  cbn [six_updates metric_updates].
  rewrite Hu1. cbn [mbind result_bind].
  rewrite Hu2. cbn [mbind result_bind].
  rewrite Hu3. cbn [mbind result_bind].
  rewrite Hu4. cbn [mbind result_bind].
  rewrite Hu5. cbn [mbind result_bind].
  rewrite Hu6. reflexivity.
Qed.

(** *** What an evaluation step and an evaluation epoch record *)

Lemma batch_losses_nets (batch : Batch) (st1 st2 : St B) :
  nets B st1 = nets B st2 ->
  batch_losses B cfg st1 batch = batch_losses B cfg st2 batch.
Proof.
  intros Hn. destruct batch as [y mels].
  unfold batch_losses, eval_step_losses, predict, call_discriminator, get, lift.
  unfold mbind, M_bind, mret, M_ret. cbn beta iota. rewrite Hn.
  destruct (adversarial_loss _) as [adv_loss|e]; [|reflexivity].
  destruct (feature_matching_weight cfg) as [wt|e]; [|reflexivity].
  destruct (feature_matching_loss _ _ _) as [fm_loss|e]; [|reflexivity].
  destruct (real_fake_losses _ _) as [[real_loss fake_loss]|e]; reflexivity.
Qed.

Lemma record_eval_losses_inv (l : Qc * Qc * Qc * Qc * Qc * Qc) (st st' : St B) :
  record_eval_losses B l st = (Ok tt, st') ->
  metric_updates (six_updates l) (eval_metrics B st) = Ok (eval_metrics B st').
Proof.
  destruct l as [[[[[adv_loss fm_loss] gen_loss] real_loss] fake_loss] dis_loss].
  unfold record_eval_losses. intros H.
  apply (bind_inv_ok B) in H as ([] & s1 & Hu1 & H).
  apply (bind_inv_ok B) in H as ([] & s2 & Hu2 & H).
  apply (bind_inv_ok B) in H as ([] & s3 & Hu3 & H).
  apply (bind_inv_ok B) in H as ([] & s4 & Hu4 & H).
  apply (bind_inv_ok B) in H as ([] & s5 & Hu5 & Hu6).
  apply update_eval_metric_inv in Hu1, Hu2, Hu3, Hu4, Hu5, Hu6.
  cbn [six_updates metric_updates].
  rewrite Hu1. cbn [mbind result_bind].
  rewrite Hu2. cbn [mbind result_bind].
  rewrite Hu3. cbn [mbind result_bind].
  rewrite Hu4. cbn [mbind result_bind].
  rewrite Hu5. cbn [mbind result_bind].
  rewrite Hu6. reflexivity.
Qed.

Lemma eval_step_inv (batch : Batch) (st st' : St B) :
  _eval_step B cfg batch st = (Ok tt, st') ->
  exists l,
    batch_losses B cfg st batch = Ok l /\
    metric_updates (six_updates l) (eval_metrics B st) = Ok (eval_metrics B st').
Proof.
  unfold _eval_step. intros H.
  apply (bind_inv_ok B) in H as (l & st1 & Hl & H).
  pose proof (eval_step_losses_pure B cfg batch st) as Hpure.
  rewrite Hl in Hpure. cbn [snd] in Hpure. subst st1.
  exists l. split.
  - unfold batch_losses. rewrite Hl. reflexivity.
  - apply record_eval_losses_inv. exact H.
Qed.

(** X14: the evaluation step trains nothing: whether it returns or
    raises, the weights, the optimizers, the counters, the training
    metrics, the log, the summary and the files are as before.  When it
    returns, it has recorded exactly one sample, the loss of that name on
    this batch at the current weights, in each of the six evaluation
    metrics, and left every other entry of the dictionary alone. *)
Theorem eval_step_records_losses (batch : Batch) (st : St B) :
  let run := _eval_step B cfg batch st in
  nets B run.2 = nets B st /\
  steps B run.2 = steps B st /\
  epochs B run.2 = epochs B st /\
  finish_train B run.2 = finish_train B st /\
  train_metrics B run.2 = train_metrics B st /\
  world B run.2 = world B st /\
  match run.1 with
  | Ok _ =>
      exists l,
        batch_losses B cfg st batch = Ok l /\
        forall name,
          eval_metrics B run.2 !! name
          = if decide (name ∈ list_metrics_name)
            then update_state (component name l) <$> eval_metrics B st !! name
            else eval_metrics B st !! name
  | Raise _ => True
  end.
Proof.
  intros run. subst run.
  split; [apply (eval_step_keeps B cfg (nets B)); reflexivity|].
  split; [apply (eval_step_keeps B cfg (steps B)); reflexivity|].
  split; [apply (eval_step_keeps B cfg (epochs B)); reflexivity|].
  split; [apply (eval_step_keeps B cfg (finish_train B)); reflexivity|].
  split; [apply (eval_step_keeps B cfg (train_metrics B)); reflexivity|].
  split; [apply (eval_step_keeps B cfg (world B)); reflexivity|].
  destruct (_eval_step B cfg batch st) as [[[]|e] st'] eqn:Hrun; [|exact I].
  destruct (eval_step_inv batch st st' Hrun) as (l & Hl & Hup).
  exists l. split; [exact Hl|].
  intros name. cbn [snd]. apply six_updates_lookup. exact Hup.
Qed.

Lemma values_of_app (name : string)
    (us1 us2 : list (string * Float32.float32)) :
  values_of name (us1 ++ us2) = values_of name us1 ++ values_of name us2.
Proof.
  unfold values_of. rewrite filter_app, map_app. reflexivity.
Qed.

Lemma values_of_batches (name : string)
    (ls : list (Qc * Qc * Qc * Qc * Qc * Qc)) :
  name ∈ list_metrics_name ->
  values_of name (flat_map six_updates ls) = map (component name) ls.
Proof.
  intros Hin. induction ls as [|l ls IH]; [reflexivity|].
  cbn [flat_map map]. rewrite values_of_app, IH, six_values.
  rewrite decide_True by exact Hin. reflexivity.
Qed.

(** The loop of the evaluation epoch accumulates the losses of its
    batches, all taken at the weights it started with. *)
Lemma eval_loop_inv (batches : list Batch) :
  forall (k : Z) (v v' : option Z) (st st' : St B),
    eval_loop B cfg k v batches st = (Ok v', st') ->
    exists ls,
      Forall2 (fun b l => batch_losses B cfg st b = Ok l) batches ls /\
      metric_updates (flat_map six_updates ls) (eval_metrics B st)
      = Ok (eval_metrics B st').
Proof.
  induction batches as [|b bs IH]; intros k v v' st st' H.
  - injection H as _ <-. exists []. split; [constructor | reflexivity].
  - rewrite eval_loop_cons in H.
    apply (bind_inv_ok B) in H as ([] & st2 & Hit & H).
    pose proof (eval_iteration_keeps B cfg (nets B) k b
                  ltac:(reflexivity) ltac:(reflexivity) st) as Hnets.
    rewrite Hit in Hnets. cbn [snd] in Hnets.
    unfold eval_iteration in Hit.
    apply (bind_inv_ok B) in Hit as ([] & st1 & Hstep & Hsave).
    assert (Hm : eval_metrics B st2 = eval_metrics B st1).
    { destruct (k <=? num_save_intermediate_results cfg).
      - pose proof (generate_and_save_keeps B cfg (eval_metrics B) b k
                      ltac:(reflexivity) st1) as Hk.
        rewrite Hsave in Hk. exact Hk.
      - injection Hsave as <-. reflexivity. }
    destruct (eval_step_inv b st st1 Hstep) as (l & Hl & Hup).
    destruct (IH _ _ _ _ _ H) as (ls & Hls & Hups).
    exists (l :: ls). split.
    + constructor; [exact Hl|].
      eapply Forall2_impl; [exact Hls|].
      intros b' l' Hb'. rewrite <- Hb'. symmetry.
      apply batch_losses_nets. exact Hnets.
    + cbn [flat_map]. rewrite (metric_updates_app _ _ _ _ Hup).
      rewrite <- Hm. exact Hups.
Qed.

Lemma foldl_update_state (vs : list Float32.float32) :
  forall m : Mean,
    total (foldl (fun m v => update_state v m) m vs)
    = foldl Float32.add (total m) vs /\
    count (foldl (fun m v => update_state v m) m vs)
    = foldl (fun c _ => Float32.add c Float32.one) (count m) vs.
Proof.
  induction vs as [|v vs IH]; intros m.
  - split; reflexivity.
  - cbn [foldl]. destruct (IH (update_state v m)) as [Ht Hc].
    rewrite Ht, Hc. split; reflexivity.
Qed.

Lemma metric_updates_registered (name : string)
    (us : list (string * Float32.float32)) :
  forall d d' : gmap string Mean,
    metric_updates us d = Ok d' ->
    values_of name us <> [] ->
    is_Some (d !! name).
Proof.
  induction us as [|[key v] us IH]; intros d d' H Hne.
  - contradiction.
  - cbn [metric_updates] in H. unfold metric_update in H.
    destruct (d !! key) as [m0|] eqn:Hkey; [|discriminate H].
    cbn [mbind result_bind] in H.
    destruct (decide (key = name)) as [->|Hk]; [eauto|].
    rewrite values_of_cons_ne in Hne by exact Hk.
    pose proof (IH _ _ H Hne) as Hs.
    rewrite lookup_insert_ne in Hs by exact Hk. exact Hs.
Qed.

Lemma eval_epoch_inv (st st' : St B) :
  _eval_epoch B cfg st = (Ok tt, st') ->
  exists n st1,
    eval_loop B cfg 1 None (eval_data_loader cfg) (started st)
    = (Ok (Some n), st1) /\
    summary B (world B st')
    = summary B (world B st1)
      ++ [("eval"%string, steps B st1, mean_result <$> eval_metrics B st1)] /\
    eval_metrics B st' = reset_all (eval_metrics B st1).
Proof.
  intros Hrun.
  destruct (eval_loop B cfg 1 None (eval_data_loader cfg) (started st))
    as [[[n|]|e] st1] eqn:Hloop.
  - destruct (eval_epoch_returns B cfg st st1 n Hloop)
      as (st'' & Hrun' & _ & Hsum & Hreset).
    rewrite Hrun in Hrun'. injection Hrun' as <-. eauto.
  - rewrite (eval_epoch_unbound B cfg st st1 Hloop) in Hrun. discriminate Hrun.
  - rewrite (eval_epoch_loop_raises B cfg st st1 e Hloop) in Hrun.
    discriminate Hrun.
Qed.

(** X15: an evaluation epoch that starts with reset evaluation metrics
    and returns has written to the summary sink, under the phase "eval"
    and the current step, for each of the six losses the float32 running
    mean of that loss over the batches of the evaluation data loader, in
    the order of the loader, every batch evaluated at the same weights;
    there was at least one batch; and the evaluation metrics are reset
    again when it returns. *)
Theorem eval_epoch_reports_means (st st' : St B) :
  (forall name m,
     eval_metrics B st !! name = Some m ->
     total m = Float32.zero /\ count m = Float32.zero) ->
  _eval_epoch B cfg st = (Ok tt, st') ->
  exists ls values,
    Forall2 (fun b l => batch_losses B cfg st b = Ok l)
      (eval_data_loader cfg) ls /\
    ls <> [] /\
    last (summary B (world B st')) = Some ("eval"%string, steps B st, values) /\
    (forall name,
       name ∈ list_metrics_name ->
       values !! name = Some (float32_mean (map (component name) ls))) /\
    (forall name m,
       eval_metrics B st' !! name = Some m ->
       total m = Float32.zero /\ count m = Float32.zero).
Proof.
  intros Hzero Hrun.
  destruct (eval_epoch_inv st st' Hrun) as (n & st1 & Hloop & Hsum & Hreset).
  destruct (eval_loop_inv _ _ _ _ _ _ Hloop) as (ls & Hls & Hups).
  pose proof (eval_loop_keeps B cfg (steps B) (eval_data_loader cfg)
                ltac:(reflexivity) ltac:(reflexivity) 1 None (started st))
    as Hsteps.
  rewrite Hloop in Hsteps. cbn [snd] in Hsteps.
  change (steps B (started st)) with (steps B st) in Hsteps.
  change (eval_metrics B (started st)) with (eval_metrics B st) in Hups.
  assert (Hne : ls <> []).
  { intros ->. inversion Hls as [Hnil|]; subst.
    rewrite <- Hnil in Hloop. discriminate Hloop. }
  exists ls, (mean_result <$> eval_metrics B st1).
  split.
  { eapply Forall2_impl; [exact Hls|].
    intros b l Hb. rewrite <- Hb. apply batch_losses_nets. reflexivity. }
  split; [exact Hne|].
  split; [rewrite Hsum, Hsteps; apply last_snoc|].
  split.
  - intros name Hin.
    pose proof (values_of_batches name ls Hin) as Hvals.
    assert (Hsome : is_Some (eval_metrics B st !! name)).
    { apply (metric_updates_registered name _ _ _ Hups).
      rewrite Hvals. destruct ls; [contradiction | discriminate]. }
    destruct Hsome as [m Hm].
    rewrite lookup_fmap, (metric_updates_lookup _ _ _ name Hups), Hm, Hvals.
    cbn [fmap option_fmap option_map]. f_equal.
    destruct (Hzero name m Hm) as [Ht Hc].
    destruct (foldl_update_state (map (component name) ls) m) as [Ht' Hc'].
    unfold mean_result, float32_mean, float32_sum, float32_count.
    rewrite Ht', Hc', Ht, Hc. reflexivity.
  - intros name m Hm. rewrite Hreset in Hm. unfold reset_all in Hm.
    rewrite lookup_fmap in Hm.
    destruct (eval_metrics B st1 !! name); [|discriminate Hm].
    injection Hm as <-. split; reflexivity.
Qed.

Lemma eval_epoch_keeps {X} (f : St B -> X) :
  (forall d st, f (set_eval_metrics B d st) = f st) ->
  (forall l s fs st,
     f (set_world B {| log := l; summary := s; files := fs;
                       checkpoints := checkpoints B (world B st) |} st) = f st) ->
  preserves f (_eval_epoch B cfg).
Proof.
  intros Hd Hw. unfold _eval_epoch, log_info, _write_to_tensorboard,
                  reset_states_eval.
  repeat first
    [ apply eval_loop_keeps; [exact Hd | intros; apply Hw]
    | apply preserves_modify; intros; first [apply Hw | apply Hd]
    | keeps_step ].
Qed.

(** X16: the evaluation epoch trains nothing and saves nothing: whether
    it returns or raises, the weights, the optimizers, the counters, the
    training metrics and the checkpoints are as before. *)
Theorem eval_epoch_frame (st : St B) :
  let run := _eval_epoch B cfg st in
  nets B run.2 = nets B st /\
  steps B run.2 = steps B st /\
  epochs B run.2 = epochs B st /\
  finish_train B run.2 = finish_train B st /\
  train_metrics B run.2 = train_metrics B st /\
  checkpoints B (world B run.2) = checkpoints B (world B st).
Proof.
  intros run. subst run.
  split; [apply (eval_epoch_keeps (nets B)); reflexivity|].
  split; [apply (eval_epoch_keeps (steps B)); reflexivity|].
  split; [apply (eval_epoch_keeps (epochs B)); reflexivity|].
  split; [apply (eval_epoch_keeps (finish_train B)); reflexivity|].
  split; [apply (eval_epoch_keeps (train_metrics B)); reflexivity|].
  apply (eval_epoch_keeps (fun s => checkpoints B (world B s))); reflexivity.
Qed.

(** *** The export of intermediate results *)

Lemma neg_one_le_one : (- (1) <= 1)%Qc.
Proof. unfold Qcle, Qle. simpl. lia. Qed.

Lemma clip_range (t : Tensor) :
  Forall (fun x => (- (1) <= x /\ x <= 1)%Qc) (clip (- (1))%Qc 1%Qc t).
Proof.
  unfold clip. induction t as [|x t IH]; cbn [map]; constructor; [|exact IH].
  repeat case_decide.
  - split; [apply Qcle_refl | apply neg_one_le_one].
  - split; [apply neg_one_le_one | apply Qcle_refl].
  - split; apply Qcnot_lt_le; assumption.
Qed.

Lemma pair_artifacts_in_range (s idx : Z) (pair : Tensor * Tensor) :
  Forall wav_in_range (pair_artifacts cfg s idx pair).
Proof.
  unfold pair_artifacts.
  repeat constructor; cbn [wav_in_range]; apply clip_range.
Qed.

Lemma pairs_artifacts_in_range (s idx : Z) (pairs : list (Tensor * Tensor)) :
  Forall wav_in_range (flat_map (pair_artifacts cfg s idx) pairs).
Proof.
  induction pairs as [|pair pairs IH]; cbn [flat_map].
  - constructor.
  - apply Forall_app. split; [apply pair_artifacts_in_range | exact IH].
Qed.

Lemma do_io_run (op : io_op) (a : artifact) (st st' : St B) (r : result unit) :
  do_io B op a st = (r, st') ->
  (r = Ok tt /\ st' = with_files (files B (world B st) ++ [a]) st) \/
  ((exists e, r = Raise e) /\ st' = st).
Proof.
  unfold do_io. destruct (io_fails B op _); intros H; injection H as <- <-.
  - right. eauto.
  - left. split; reflexivity.
Qed.

(** What one pair of the batch writes: a prefix of its three files, all
    of them when it returns. *)
Lemma save_pair_files (idx : Z) (pair : Tensor * Tensor) (st st' : St B)
    (r : result unit) :
  save_pair B cfg idx pair st = (r, st') ->
  exists written,
    st' = with_files (files B (world B st) ++ written) st /\
    written `prefix_of` pair_artifacts cfg (steps B st) idx pair /\
    (r = Ok tt -> written = pair_artifacts cfg (steps B st) idx pair).
Proof.
  destruct pair as [y y_]. unfold save_pair, pair_artifacts.
  unfold mbind at 1, M_bind, get. cbn beta iota. cbn [fst snd].
  unfold mbind at 1, M_bind.
  destruct (do_io B (Savefig (steps B st) idx) _ st) as [r1 s1] eqn:H1.
  apply do_io_run in H1 as [[-> ->]|[[e ->] ->]].
  2: { intros H. injection H as <- <-. exists [].
       split; [|split; [apply prefix_nil | discriminate]].
       rewrite app_nil_r. destruct st as [? ? ? ? ? ? ? []]. reflexivity. }
  unfold mbind at 1, M_bind.
  destruct (do_io B (WriteWav (steps B st) idx true) _ _) as [r2 s2] eqn:H2.
  apply do_io_run in H2 as [[-> ->]|[[e ->] ->]].
  2: { intros H. injection H as <- <-. eexists [_].
       split; [reflexivity|]. split; [|discriminate].
       eexists. reflexivity. }
  intros H3.
  apply do_io_run in H3 as [[-> ->]|[[e ->] ->]].
  - eexists [_; _; _]. cbn. rewrite <- !app_assoc. cbn.
    split; [reflexivity|]. split; [reflexivity | reflexivity].
  - eexists [_; _]. cbn. rewrite <- !app_assoc. cbn.
    split; [reflexivity|]. split; [|discriminate].
    eexists. reflexivity.
Qed.

Lemma with_files_twice (fs1 fs2 : list artifact) (st : St B) :
  with_files fs2 (with_files fs1 st) = with_files fs2 st.
Proof. reflexivity. Qed.

Lemma save_pairs_files (idx : Z) (pairs : list (Tensor * Tensor)) :
  forall (st st' : St B) (r : result unit),
    save_pairs B cfg idx pairs st = (r, st') ->
    exists written,
      st' = with_files (files B (world B st) ++ written) st /\
      written `prefix_of` flat_map (pair_artifacts cfg (steps B st) idx) pairs /\
      (r = Ok tt ->
       written = flat_map (pair_artifacts cfg (steps B st) idx) pairs).
Proof.
  induction pairs as [|pair pairs IH]; intros st st' r H.
  - injection H as <- <-. exists [].
    split; [|split; [apply prefix_nil | reflexivity]].
    rewrite app_nil_r. destruct st as [? ? ? ? ? ? ? []]. reflexivity.
  - cbn [save_pairs flat_map] in *. unfold mbind, M_bind in H.
    destruct (save_pair B cfg idx pair st) as [[[]|e] s1] eqn:H1.
    + destruct (save_pair_files idx pair st s1 _ H1) as (w1 & -> & _ & Hall).
      rewrite (Hall eq_refl) in *. clear Hall.
      destruct (IH _ _ _ H) as (w2 & -> & Hpre & Hall2).
      exists (pair_artifacts cfg (steps B st) idx pair ++ w2).
      split; [|split].
      * cbn. rewrite <- app_assoc. reflexivity.
      * apply prefix_app. exact Hpre.
      * intros Hr. rewrite (Hall2 Hr). reflexivity.
    + injection H as <- <-.
      destruct (save_pair_files idx pair st s1 _ H1) as (w1 & -> & Hpre & _).
      exists w1. split; [reflexivity|]. split; [|discriminate].
      apply prefix_app_r. exact Hpre.
Qed.

(** X17: whether it returns or raises, the export adds to the files a
    prefix of: the directory of the current step if it does not exist
    yet, then for each pair of a reference and a generated waveform one
    figure and the two wav files, all under the current step and the
    index [idx] it was called with; it leaves everything else of the
    trainer alone, and when it returns it has written all of them.
    Every sample of every wav file lies between -1 and 1. *)
Theorem export_writes (batch : Batch) (idx : Z) (st : St B) :
  let run := generate_and_save_intermediate_result B cfg batch idx st in
  exists written,
    run.2 = with_files (files B (world B st) ++ written) st /\
    written `prefix_of` export_artifacts B cfg batch idx st /\
    match run.1 with
    | Ok _ => written = export_artifacts B cfg batch idx st
    | Raise _ => True
    end /\
    Forall wav_in_range (export_artifacts B cfg batch idx st).
Proof.
  intros run. subst run. destruct batch as [y_batch x_batch].
  unfold generate_and_save_intermediate_result, export_artifacts.
  cbn [fst snd].
  erewrite (bind_ok B (predict B x_batch)) by reflexivity.
  erewrite (bind_ok B (get B)) by reflexivity.
  set (pairs := zip y_batch (generator B (gen_w B (nets B st)) x_batch)).
  assert (Hrange : forall pre : list artifact,
             Forall wav_in_range pre ->
             Forall wav_in_range
               (pre ++ flat_map (pair_artifacts cfg (steps B st) idx) pairs)).
  { intros pre Hpre. apply Forall_app.
    split; [exact Hpre | apply pairs_artifacts_in_range]. }
  destruct (existsb (is_dir (steps B st)) (files B (world B st))).
  - erewrite (bind_ok B) by reflexivity.
    destruct (save_pairs B cfg idx pairs st) as [r st'] eqn:Hsave.
    destruct (save_pairs_files idx pairs st st' r Hsave)
      as (w & -> & Hpre & Hall).
    exists w. cbn [fst snd app].
    split; [reflexivity|]. split; [exact Hpre|]. split.
    + destruct r as [[]|e]; [apply Hall; reflexivity | exact I].
    + apply (Hrange []). constructor.
  - unfold mbind, M_bind.
    destruct (do_io B (Makedirs (steps B st)) (Dir (steps B st)) st)
      as [r1 s1] eqn:H1.
    apply do_io_run in H1 as [[-> ->]|[[e ->] ->]].
    + destruct (save_pairs B cfg idx pairs _) as [r st'] eqn:Hsave.
      destruct (save_pairs_files idx pairs _ st' r Hsave)
        as (w & -> & Hpre & Hall).
      exists (Dir (steps B st) :: w). cbn [fst snd].
      split; [|split; [|split]].
      * cbn. rewrite <- app_assoc. reflexivity.
      * apply (prefix_app [Dir (steps B st)]). exact Hpre.
      * destruct r as [[]|e0]; [|exact I]. rewrite (Hall eq_refl). reflexivity.
      * apply (Hrange [Dir (steps B st)]). repeat constructor.
    + exists []. cbn [fst snd].
      split; [|split; [apply prefix_nil | split; [exact I|]]].
      * rewrite app_nil_r. destruct st as [? ? ? ? ? ? ? []]. reflexivity.
      * apply (Hrange [Dir (steps B st)]). repeat constructor.
Qed.

(** *** The periodic flush of the training metrics *)

Lemma add_log_nil (st : St B) : add_log B [] st = st.
Proof.
  unfold add_log. rewrite app_nil_r.
  destruct st as [? ? ? ? ? ? ? []]. reflexivity.
Qed.

Lemma log_train_metrics_run (names : list string) :
  forall st : St B,
    Forall (fun name => is_Some (train_metrics B st !! name)) names ->
    log_train_metrics B names st
    = (Ok tt, add_log B (train_log_lines B names st) st).
Proof.
  induction names as [|name names IH]; intros st Hreg.
  - cbn [log_train_metrics train_log_lines omap list_omap].
    rewrite add_log_nil. reflexivity.
  - inversion Hreg as [|? ? [m Hm] Hrest]; subst.
    cbn [log_train_metrics].
    erewrite (bind_ok B (get B)) by reflexivity.
    erewrite (bind_ok B (lift B _))
      by (unfold lift, metric_result; rewrite Hm; reflexivity).
    erewrite (bind_ok B (log_info B _)) by reflexivity.
    rewrite IH by exact Hrest.
    unfold train_log_lines. cbn [omap list_omap train_metrics steps set_world].
    rewrite Hm. cbn [fmap option_fmap option_map].
    unfold add_log. cbn. rewrite <- app_assoc. reflexivity.
Qed.

(** X18: with a logging interval of zero [_check_log_interval] raises
    [ZeroDivisionError]; with any other interval that does not divide
    the step counter it returns without logging, flushing or resetting
    anything.  Either way the trainer is left as it was. *)
Theorem check_log_interval_idle (stage : string) (st : St B) :
  (log_interval_steps cfg = 0 ->
   _check_log_interval B cfg stage st = (Raise ZeroDivisionError, st)) /\
  (log_interval_steps cfg <> 0 ->
   steps B st mod log_interval_steps cfg <> 0 ->
   _check_log_interval B cfg stage st = (Ok tt, st)).
Proof.
  unfold _check_log_interval. split.
  - intros H0.
    erewrite (bind_ok B (get B)) by reflexivity.
    rewrite H0. cbn [Z.eqb]. reflexivity.
  - intros Hne Hmod.
    erewrite (bind_ok B (get B)) by reflexivity.
    destruct (Z.eqb_spec (log_interval_steps cfg) 0); [contradiction|].
    erewrite (bind_ok B (lift B _)) by reflexivity.
    destruct (Z.eqb_spec (steps B st mod log_interval_steps cfg) 0);
      [contradiction | reflexivity].
Qed.

(** X19: when the logging interval is not zero and divides the step
    counter, and the six metrics are registered,
    [_check_log_interval] returns; it has logged one line per metric
    name, appended to the summary sink the results the training metrics
    had, under the current step, and reset the training metrics; the
    weights, the counters and the evaluation metrics are as before. *)
Theorem check_log_interval_flush (stage : string) (st : St B) :
  log_interval_steps cfg <> 0 ->
  steps B st mod log_interval_steps cfg = 0 ->
  registered (train_metrics B st) ->
  exists st',
    _check_log_interval B cfg stage st = (Ok tt, st') /\
    log B (world B st')
    = log B (world B st) ++ train_log_lines B list_metrics_name st /\
    length (train_log_lines B list_metrics_name st) = length list_metrics_name /\
    summary B (world B st')
    = summary B (world B st)
      ++ [(stage, steps B st, mean_result <$> train_metrics B st)] /\
    train_metrics B st' = reset_all (train_metrics B st) /\
    nets B st' = nets B st /\
    steps B st' = steps B st /\
    eval_metrics B st' = eval_metrics B st.
Proof.
  intros Hne Hmod Hreg. unfold _check_log_interval.
  erewrite (bind_ok B (get B)) by reflexivity.
  destruct (Z.eqb_spec (log_interval_steps cfg) 0); [contradiction|].
  erewrite (bind_ok B (lift B _)) by reflexivity.
  rewrite Hmod. cbn [Z.eqb].
  assert (Hall : Forall (fun name => is_Some (train_metrics B st !! name))
                   list_metrics_name).
  { apply Forall_forall. intros name Hin. apply Hreg.
    apply list_elem_of_In. exact Hin. }
  erewrite (bind_ok B (log_train_metrics B _))
    by (apply log_train_metrics_run; exact Hall).
  assert (Hlen : length (train_log_lines B list_metrics_name st)
                 = length list_metrics_name).
  { clear -Hall. revert Hall. generalize list_metrics_name.
    intros names Hall.
    induction Hall as [|name names [m Hm] _ IH]; [reflexivity|].
    unfold train_log_lines in *. cbn [omap list_omap]. rewrite Hm.
    cbn [fmap option_fmap option_map length]. rewrite IH. reflexivity. }
  eexists. split; [reflexivity|].
  split; [reflexivity|]. split; [exact Hlen|].
  repeat split; reflexivity.
Qed.

(** *** The end of [main] *)

(** X20: [main] lets everything but an interruption pass: when the
    training loop returns, or raises anything other than
    [KeyboardInterrupt], the outcome and the trainer are those of the
    loop, and no checkpoint is saved; and [KeyboardInterrupt] itself
    never leaves [main]. *)
Theorem main_training_passes_through (run : M B unit) (st : St B) :
  (main_training B run st).1 <> Raise KeyboardInterrupt /\
  ((run st).1 <> Raise KeyboardInterrupt -> main_training B run st = run st).
Proof.
  unfold main_training.
  destruct (run st) as [[[]|e] st1]; cbn [fst].
  - split; [discriminate | reflexivity].
  - destruct e; cbn; split;
      first [ discriminate | reflexivity | intros H; contradiction
            | intros H; exfalso; apply H; reflexivity ].
Qed.

(** *** When the evaluation epoch returns *)

Lemma eval_epoch_ok (st : St B) :
  eval_data_loader cfg <> [] ->
  well_shaped B -> scales cfg <> 0 -> never_fails B ->
  registered (eval_metrics B st) ->
  exists st', _eval_epoch B cfg st = (Ok tt, st').
Proof.
  intros Hne Hws Hsc Hio Hreg.
  destruct (eval_loop_ok B cfg (eval_data_loader cfg) Hws Hsc Hio 1 None
              (started st) Hreg) as (v & st1 & Hloop).
  pose proof (eval_loop_variable B cfg _ _ _ _ _ _ Hloop) as Hv.
  unfold loop_variable in Hv.
  destruct (eval_data_loader cfg) as [|b bs] eqn:Hl; [contradiction|].
  subst v. rewrite <- Hl in Hloop.
  destruct (eval_epoch_returns B cfg st st1 _ Hloop) as (st' & Hrun & _).
  eauto.
Qed.

(** *** Which batches are exported *)

Lemma eval_loop_beyond_limit (batches : list Batch) :
  forall (k : Z) (v : option Z) (st : St B),
    num_save_intermediate_results cfg < k ->
    world B (eval_loop B cfg k v batches st).2 = world B st.
Proof.
  induction batches as [|b bs IH]; intros k v st Hk; [reflexivity|].
  rewrite eval_loop_cons. unfold mbind, M_bind.
  assert (Hit : world B (eval_iteration B cfg k b st).2 = world B st).
  { unfold eval_iteration.
    destruct (Z.leb_spec k (num_save_intermediate_results cfg)); [lia|].
    apply (preserves_bind B (world B) (_eval_step B cfg b) (fun _ => mret tt)).
    - apply eval_step_keeps. reflexivity.
    - intros _. apply preserves_ret. }
  destruct (eval_iteration B cfg k b st) as [[[]|e] st1]; cbn [snd] in *.
  - rewrite IH by lia. exact Hit.
  - exact Hit.
Qed.

(** X24: the batches numbered beyond [num_save_intermediate_results]
    are evaluated but never exported: from such a number on, the loop of
    the evaluation epoch writes no file (and leaves the log and the
    summary alone), whether it completes or raises.  With
    [num_save_intermediate_results] below one this is the whole loop:
    the evaluation epoch leaves the files as they were. *)
Theorem no_export_beyond_limit (batches : list Batch) (k : Z) (v : option Z)
    (st : St B) :
  (num_save_intermediate_results cfg < k ->
   world B (eval_loop B cfg k v batches st).2 = world B st) /\
  (num_save_intermediate_results cfg < 1 ->
   files B (world B (_eval_epoch B cfg st).2) = files B (world B st)).
Proof.
  split; [apply eval_loop_beyond_limit|].
  intros Hnum.
  revert st.
  change (preserves (fun s => files B (world B s)) (_eval_epoch B cfg)).
  unfold _eval_epoch, log_info, _write_to_tensorboard, reset_states_eval.
  repeat first
    [ match goal with
      | |- preserves _ (eval_loop _ _ _ _ _) =>
          let s := fresh "s" in
          intros s; rewrite eval_loop_beyond_limit by exact Hnum; reflexivity
      end
    | keeps_step ].
Qed.

End WithBackend.

(** *** The toy trainer *)

Import Examples.

Lemma fresh_reset (B : Backend) gw dw go do (name : string) (m : Mean) :
  eval_metrics B (fresh B gw dw go do) !! name = Some m ->
  total m = Float32.zero /\ count m = Float32.zero.
Proof.
  unfold fresh, reset_all. cbn [eval_metrics]. rewrite lookup_fmap.
  destruct (_ !! name); [|discriminate].
  intros H. injection H as <-. split; reflexivity.
Qed.

Lemma generator_step_result_witness :
  exists r st',
    _one_step_generator toy (toy_config true []) batch1.1 batch1.2 toy_st
    = (Ok r, st') /\
    r = (batch1.1, generator toy (gen_w toy (nets toy toy_st)) batch1.2) /\
    nets toy st'
    = generator_updated toy (toy_config true []) batch1.1 batch1.2 toy_st.
Proof.
  destruct (generator_step_result toy (toy_config true [])
              batch1.1 batch1.2 toy_st) as [Hres Hok].
  destruct Hok as (r & st' & Hrun).
  - apply toy_well_shaped.
  - discriminate.
  - apply fresh_registered.
  - exists r, st'. split; [exact Hrun | exact (Hres r st' Hrun)].
Defined.

Lemma discriminator_step_result_witness :
  exists st',
    _one_step_discriminator toy (toy_config true [])
      [[qz 1; qz 2]] [[qz 1; qz 3]] toy_st = (Ok tt, st') /\
    nets toy st'
    = discriminator_updated toy [[qz 1; qz 2]] [[qz 1; qz 3]] toy_st.
Proof.
  destruct (discriminator_step_result toy (toy_config true [])
              [[qz 1; qz 2]] [[qz 1; qz 3]] toy_st eq_refl) as [Hres Hok].
  destruct Hok as (st' & Hrun).
  - apply toy_well_shaped.
  - apply fresh_registered.
  - exists st'. split; [exact Hrun | exact (Hres st' Hrun)].
Defined.

Lemma train_step_records_losses_witness :
  exists st' y_hat adv_loss fm_loss gen_loss real_loss fake_loss dis_loss,
    _train_step toy (toy_config true []) batch1 toy_st = (Ok tt, st') /\
    discriminator_forward toy batch1.1 y_hat (dis_w toy (nets toy toy_st))
    = Ok (real_loss, fake_loss, dis_loss) /\
    forall name,
      train_metrics toy st' !! name
      = if decide (name ∈ list_metrics_name)
        then update_state
               (component name (adv_loss, fm_loss, gen_loss,
                                real_loss, fake_loss, dis_loss))
             <$> train_metrics toy toy_st !! name
        else train_metrics toy toy_st !! name.
Proof.
  destruct (train_step_ok toy (toy_config true []) batch1 toy_st eq_refl
              toy_well_shaped ltac:(discriminate))
    as (st' & Hrun & _).
  { apply fresh_registered. }
  destruct (train_step_records_losses toy (toy_config true [])
              batch1.1 batch1.2 toy_st st' Hrun)
    as (y_hat & adv_loss & fm_loss & gen_loss & real_loss & fake_loss
        & dis_loss & _ & _ & Hdis & Hmetrics).
  exists st', y_hat, adv_loss, fm_loss, gen_loss, real_loss, fake_loss,
    dis_loss.
  split; [exact Hrun|]. split; [exact Hdis | exact Hmetrics].
Defined.

Lemma eval_epoch_reports_means_witness :
  exists st' ls values,
    _eval_epoch toy (toy_config false [batch1; batch2]) toy_st = (Ok tt, st') /\
    Forall2 (fun b l =>
               batch_losses toy (toy_config false [batch1; batch2]) toy_st b
               = Ok l)
      [batch1; batch2] ls /\
    last (summary toy (world toy st'))
    = Some ("eval"%string, steps toy toy_st, values) /\
    values !! "gen_loss"
    = Some (float32_mean (map (component "gen_loss") ls)).
Proof.
  destruct (eval_epoch_ok toy (toy_config false [batch1; batch2]) toy_st)
    as (st' & Hrun).
  - discriminate.
  - apply toy_well_shaped.
  - discriminate.
  - intros op fs. reflexivity.
  - apply fresh_registered.
  - destruct (eval_epoch_reports_means toy (toy_config false [batch1; batch2])
                toy_st st')
      as (ls & values & Hls & _ & Hlast & Hvalues & _).
    + apply fresh_reset.
    + exact Hrun.
    + exists st', ls, values.
      split; [exact Hrun|]. split; [exact Hls|]. split; [exact Hlast|].
      apply Hvalues. apply list_elem_of_In. simpl. tauto.
Defined.

Lemma check_log_interval_idle_witness :
  _check_log_interval toy (with_log_interval 0 (toy_config true []))
    "train" toy_st = (Raise ZeroDivisionError, toy_st) /\
  _check_log_interval toy (with_log_interval 2 (toy_config true []))
    "train" (set_steps toy 1 toy_st) = (Ok tt, set_steps toy 1 toy_st).
Proof.
  split.
  - apply (check_log_interval_idle toy
             (with_log_interval 0 (toy_config true [])) "train" toy_st).
    reflexivity.
  - apply (check_log_interval_idle toy
             (with_log_interval 2 (toy_config true [])) "train"
             (set_steps toy 1 toy_st)).
    + discriminate.
    + cbn [log_interval_steps with_log_interval steps set_steps].
      discriminate.
Defined.

Lemma check_log_interval_flush_witness :
  exists st',
    _check_log_interval toy (with_log_interval 2 (toy_config true []))
      "train" (set_steps toy 4 toy_st) = (Ok tt, st') /\
    summary toy (world toy st')
    = summary toy (world toy (set_steps toy 4 toy_st))
      ++ [("train"%string, 4,
           mean_result <$> train_metrics toy (set_steps toy 4 toy_st))] /\
    train_metrics toy st'
    = reset_all (train_metrics toy (set_steps toy 4 toy_st)).
Proof.
  destruct (check_log_interval_flush toy
              (with_log_interval 2 (toy_config true [])) "train"
              (set_steps toy 4 toy_st))
    as (st' & Hrun & _ & _ & Hsummary & Hreset & _).
  - discriminate.
  - reflexivity.
  - apply (fresh_registered toy).
  - exists st'. split; [exact Hrun|]. split; [exact Hsummary | exact Hreset].
Defined.

Lemma main_training_passes_through_witness :
  exists st',
    train_steps toy (toy_config true []) [batch1] toy_st = (Ok tt, st') /\
    main_training toy (train_steps toy (toy_config true []) [batch1]) toy_st
    = (Ok tt, st').
Proof.
  destruct (train_steps_ok toy (toy_config true []) [batch1]
              eq_refl toy_well_shaped ltac:(discriminate) toy_st)
    as [st' Hsteps].
  { apply fresh_registered. }
  exists st'. split; [exact Hsteps|].
  destruct (main_training_passes_through toy
              (train_steps toy (toy_config true []) [batch1]) toy_st)
    as [_ Hpass].
  rewrite Hpass; [exact Hsteps|].
  rewrite Hsteps. discriminate.
Defined.

Lemma no_export_beyond_limit_witness :
  world toy (eval_loop toy (toy_config false []) 3 None [batch1; batch2]
               toy_st).2
  = world toy toy_st.
Proof.
  apply (no_export_beyond_limit toy (toy_config false []) [batch1; batch2]
           3 None toy_st).
  simpl. lia.
Defined.

End TrainerMore.

(** ** Properties of the data sets [main] builds *)

Module SetupFacts.

Import Collater Setup CollaterFacts CollaterMore.

Lemma check_arguments_done (args : Args) :
  check_arguments args = Done tt <->
  one_source (train_feats_scp args) (train_dumpdir args) /\
  one_source (dev_feats_scp args) (dev_dumpdir args).
Proof.
  unfold check_arguments, one_source.
  destruct (train_feats_scp args), (train_dumpdir args),
    (dev_feats_scp args), (dev_dumpdir args); cbn;
    split; first [ intros [? ?]; discriminate | intros ?; discriminate
                 | intros _; split; reflexivity | intros _; reflexivity ].
Qed.

(** X21: the data sets are built exactly when each of the training and
    the validation features is named in one way (a feats.scp or a dump
    directory, not both, not neither), [hop_size] is not zero if short
    samples are to be removed, and either one of the two wav.scp options
    is missing and the format is "hdf5" or "npy", or both are given and
    no dump directory is used. *)
Theorem get_datasets_returns (args : Args) (config : DataConfig) :
  (exists ds, get_datasets args config = Done ds) <->
  one_source (train_feats_scp args) (train_dumpdir args) /\
  one_source (dev_feats_scp args) (dev_dumpdir args) /\
  (remove_short_samples config = true -> hop_size config <> 0) /\
  (if given (train_wav_scp args) && given (dev_wav_scp args)
   then train_dumpdir args = None /\ dev_dumpdir args = None
   else format config = "hdf5"%string \/ format config = "npy"%string).
Proof.
  unfold get_datasets.
  destruct (check_arguments args) as [[]|e] eqn:Hcheck.
  2: { split.
       - intros [ds H]. discriminate H.
       - intros (H1 & H2 & _). 
         rewrite (proj2 (check_arguments_done args) (conj H1 H2)) in Hcheck.
         discriminate Hcheck. }
  apply check_arguments_done in Hcheck as [H1 H2].
  cbn [mbind outcome_bind].
  unfold mel_length_threshold, bind_format, make_dataset.
  destruct (remove_short_samples config);
    destruct (Z.eqb_spec (hop_size config) 0) as [Hhop|Hhop];
    cbn [mbind outcome_bind].
  all: destruct (train_wav_scp args), (dev_wav_scp args);
    cbn [given negb orb andb].
  all: destruct (String.eqb_spec (format config) "hdf5") as [Hh|Hh];
    [|destruct (String.eqb_spec (format config) "npy") as [Hn|Hn]];
    cbn [mbind outcome_bind].
  all: destruct (train_dumpdir args), (dev_dumpdir args);
    cbn [mbind outcome_bind].
  all: split;
    [ intros [ds H]; try discriminate H;
      (split; [exact H1|]); (split; [exact H2|]);
      (split; [intros; congruence|]); auto
    | intros (_ & _ & H3 & H4); try (exfalso; apply H3; auto; fail);
      try (destruct H4 as [? ?]; discriminate);
      try (destruct H4 as [?|?]; contradiction);
      eauto ].
Qed.

Lemma get_datasets_returns_witness :
  exists ds, get_datasets dumpdir_args example_config = Done ds.
Proof.
  apply (get_datasets_returns dumpdir_args example_config).
  split; [reflexivity|]. split; [reflexivity|]. split; [discriminate|].
  right. reflexivity.
Defined.

(** X22: a command line that gives both wav.scp options and still names
    a dump directory (for the training or the validation features)
    passes the argument check but cannot build its data sets: the names
    [audio_query], [mel_query] and the two load functions are bound only
    when one of the wav.scp options is missing, and the first data set
    that reads a dump directory raises [UnboundLocalError] on
    [audio_query], whatever the format is. *)
Theorem dumpdir_with_wav_scp_unbound (args : Args) (config : DataConfig) :
  given (train_wav_scp args) = true ->
  given (dev_wav_scp args) = true ->
  check_arguments args = Done tt ->
  (remove_short_samples config = true -> hop_size config <> 0) ->
  given (train_dumpdir args) || given (dev_dumpdir args) = true ->
  get_datasets args config
  = Failed (Builtin (UnboundLocalError "audio_query")).
Proof.
  intros Htw Hdw Hcheck Hhop Hdump. unfold get_datasets.
  rewrite Hcheck. cbn [mbind outcome_bind].
  unfold mel_length_threshold, bind_format, make_dataset.
  rewrite Htw, Hdw. cbn [negb orb].
  destruct (remove_short_samples config);
    [destruct (Z.eqb_spec (hop_size config) 0) as [H0|H0];
     [exfalso; apply Hhop; auto|]|];
    cbn [mbind outcome_bind].
  all: destruct (train_dumpdir args), (dev_dumpdir args);
    cbn [mbind outcome_bind given orb] in *;
    first [reflexivity | discriminate Hdump].
Qed.

Lemma dumpdir_with_wav_scp_unbound_witness :
  get_datasets wav_scp_with_dumpdir_args example_config
  = Failed (Builtin (UnboundLocalError "audio_query")).
Proof.
  apply (dumpdir_with_wav_scp_unbound wav_scp_with_dumpdir_args example_config).
  - reflexivity.
  - reflexivity.
  - reflexivity.
  - discriminate.
  - reflexivity.
Defined.

Lemma make_dataset_inv (dumpdir wav_scp feats_scp segments : option string)
    (locals : option Locals) (threshold : option Z) (f : map_fn)
    (cache : bool) (n : Z) (d : dataset) :
  make_dataset dumpdir wav_scp feats_scp segments locals threshold f cache n
  = Done d ->
  reads_dumpdir d = given dumpdir /\
  dataset_map_fn d = f /\
  dataset_batch_size d = n /\
  dataset_threshold d = threshold.
Proof.
  unfold make_dataset.
  destruct dumpdir; [destruct locals|]; intros H;
    first [discriminate H | injection H as <-];
    repeat split; reflexivity.
Qed.

(** X23: when the data sets are built, each reads a dump directory
    exactly when one was named for it; the validation set has batches of
    one item and the training set batches of [batch_size]; both remove
    short samples under the same threshold.  The training set maps the
    collater with its default window over its items: whatever
    [batch_max_steps] and [hop_size] the configuration holds, every item
    the collater returns has 25600 samples and 100 frames. *)
Theorem datasets_built (args : Args) (config : DataConfig)
    (train_dataset dev_dataset : dataset) :
  get_datasets args config = Done (train_dataset, dev_dataset) ->
  reads_dumpdir train_dataset = given (train_dumpdir args) /\
  reads_dumpdir dev_dataset = given (dev_dumpdir args) /\
  dataset_batch_size train_dataset = batch_size config /\
  dataset_batch_size dev_dataset = 1 /\
  dataset_threshold train_dataset = dataset_threshold dev_dataset /\
  dataset_map_fn dev_dataset = CollaterFullLength /\
  forall u n_mels audio mel a m,
    Z.of_nat (length audio) <= int32_max ->
    Z.of_nat (length mel) * 256 <= int32_max ->
    run_map_fn (dataset_map_fn train_dataset) u n_mels audio mel = Ok (a, m) ->
    Z.of_nat (length a) = 25600 /\ Z.of_nat (length m) = 100.
Proof.
  unfold get_datasets. intros H.
  destruct (check_arguments args) as [[]|e]; [|discriminate H].
  cbn [mbind outcome_bind] in H.
  destruct (mel_length_threshold config) as [threshold|e]; [|discriminate H].
  cbn [mbind outcome_bind] in H.
  destruct (bind_format args config) as [locals|e]; [|discriminate H].
  cbn [mbind outcome_bind] in H.
  destruct (make_dataset (train_dumpdir args) _ _ _ _ _ _ _ _)
    as [d1|e] eqn:Htrain; [|discriminate H].
  cbn [mbind outcome_bind] in H.
  destruct (make_dataset (dev_dumpdir args) _ _ _ _ _ _ _ _)
    as [d2|e] eqn:Hdev; [|discriminate H].
  cbn [mbind outcome_bind] in H. injection H as <- <-.
  apply make_dataset_inv in Htrain as (Hr1 & Hf1 & Hn1 & Ht1).
  apply make_dataset_inv in Hdev as (Hr2 & Hf2 & Hn2 & Ht2).
  repeat (split; [first [assumption | congruence]|]).
  intros u n_mels audio mel a m Ha Hm Hrun.
  rewrite Hf1 in Hrun. cbn [run_map_fn] in Hrun.
  unfold default_batch_max_steps, default_hop_size in Hrun.
  change 100 with (25600 / 256).
  apply (collater_shape u n_mels audio mel 25600 256 a m); try assumption.
  - lia.
  - unfold int32_max. lia.
Qed.

Lemma datasets_built_witness :
  exists train_dataset dev_dataset,
    get_datasets dumpdir_args example_config
    = Done (train_dataset, dev_dataset) /\
    dataset_batch_size train_dataset = 16 /\
    dataset_batch_size dev_dataset = 1 /\
    dataset_map_fn dev_dataset = CollaterFullLength.
Proof.
  eexists _, _. split; [reflexivity|].
  destruct (datasets_built dumpdir_args example_config _ _ eq_refl)
    as (_ & _ & Hn1 & Hn2 & _ & Hf2 & _).
  split; [exact Hn1|]. split; [exact Hn2 | exact Hf2].
Defined.

End SetupFacts.
